(** * OpenCode storage probing, SQLite transcript reader and metrics sync

    A shallow embedding of
    - [src/agents/plugins/opencode/opencode.paths.ts]
      ([detectStorageLayout], [getOpenCodeStoragePath] and the path getters),
    - [src/agents/plugins/opencode/opencode.sqlite-reader.ts]
      ([queryDb], [readSessionsFromDb], [readMessagesFromDb],
      [readAllPartsForSessionFromDb], [escapeSqlString]),
    - the durable metrics queue, the aggregator and the session syncer, whose
      sources are not among the files verified here (only the integration
      test of the syncer is) and which are therefore modelled from the
      specification.

    Conventions.  JavaScript strings are [string]s of bytes (UTF-8); JSON
    numbers are integers [Z] (the timestamps and counters the tools write);
    a JavaScript exception is the [Throw] outcome of the monad [M], whose
    state is the debug log written through [logger.debug]. *)

From Stdlib Require Import ZArith NArith Ascii String.
From stdpp Require Import gmap strings pretty sorting.

#[local] Set Warnings "-register-all".
#[local] Open Scope string_scope.
#[local] Open Scope Z_scope.

(** ** The JavaScript run time the code leans on *)
Module JS.

(** Outcome of an operation that may throw. *)
Inductive Res (A : Type) : Type :=
| Ok (a : A)
| Throw (e : string).
Arguments Ok {A} a.
Arguments Throw {A} e.

(** The debug log, oldest entry first. *)
Definition Log : Type := list string.

(** Computations that may throw and may write to the log. *)
Definition M (A : Type) : Type := Log → Res A * Log.

Definition ret {A} (a : A) : M A := λ lg, (Ok a, lg).

Definition bind {A B} (m : M A) (k : A → M B) : M B :=
  λ lg, match m lg with
        | (Ok a, lg') => k a lg'
        | (Throw e, lg') => (Throw e, lg')
        end.

Definition throw {A} (e : string) : M A := λ lg, (Throw e, lg).

(** [try { body } catch (e) { handler e }]: the log entries the body wrote
    before it threw stay written. *)
Definition try_catch {A} (body : M A) (handler : string → M A) : M A :=
  λ lg, match body lg with
        | (Ok a, lg') => (Ok a, lg')
        | (Throw e, lg') => handler e lg'
        end.

(** [logger.debug(msg)]. *)
Definition debug (msg : string) : M unit := λ lg, (Ok tt, (lg ++ [msg])%list).

(** Lifts an outcome into a computation. *)
Definition lift {A} (r : Res A) : M A := λ lg, (r, lg).

#[global] Instance Res_ret : MRet Res := @Ok.
#[global] Instance Res_bind : MBind Res := λ A B k r,
  match r with
  | Ok a => k a
  | Throw e => Throw e
  end.
#[global] Instance M_ret : MRet M := @ret.
#[global] Instance M_bind : MBind M := λ A B k m, bind m k.

(** JSON values as [JSON.parse] builds them; an object is a finite map from
    its own enumerable keys. *)
Inductive json : Type :=
| JNull
| JBool (b : bool)
| JNum (z : Z)
| JStr (s : string)
| JArr (l : list json)
| JObj (m : gmap string json).

(** ECMAScript white space and line terminators among the ASCII characters:
    TAB, LF, VT, FF, CR, SPACE. *)
Definition is_ws (a : ascii) : bool :=
  let n := nat_of_ascii a in
  ((9 <=? n)%nat && (n <=? 13)%nat) || (n =? 32)%nat.

(** The number of bytes of the white space character or line terminator
    that [s] starts with, 0 when it starts with none.  Beside the ASCII ones
    these are, in UTF-8: U+00A0 (C2 A0), U+1680 (E1 9A 80), U+2000 to U+200A
    (E2 80 80 to E2 80 8A), U+2028 and U+2029 (E2 80 A8, E2 80 A9), U+202F
    (E2 80 AF), U+205F (E2 81 9F), U+3000 (E3 80 80) and U+FEFF, the byte
    order mark (EF BB BF).  A byte that belongs to no well-formed sequence is
    decoded to U+FFFD, which is none of them. *)
Definition ws_len (s : string) : nat :=
  match s with
  | EmptyString => 0
  | String a s1 =>
      if is_ws a then 1
      else
        match s1 with
        | EmptyString => 0
        | String b s2 =>
            let x := nat_of_ascii a in
            let y := nat_of_ascii b in
            if (x =? 194)%nat && (y =? 160)%nat then 2
            else
              match s2 with
              | EmptyString => 0
              | String c _ =>
                  let z := nat_of_ascii c in
                  if ((x =? 225) && (y =? 154) && (z =? 128))%nat
                     || ((x =? 226) && (y =? 128)
                         && (((128 <=? z) && (z <=? 138))
                             || (z =? 168) || (z =? 169) || (z =? 175)))%nat
                     || ((x =? 226) && (y =? 129) && (z =? 159))%nat
                     || ((x =? 227) && (y =? 128) && (z =? 128))%nat
                     || ((x =? 239) && (y =? 187) && (z =? 191))%nat
                  then 3 else 0
              end
        end
  end%nat.

(** [s] without the white space it starts with; [skip] bytes of a character
    being removed are still to go. *)
Fixpoint trimStart_from (skip : nat) (s : string) : string :=
  match skip, s with
  | S k, String _ s' => trimStart_from k s'
  | S _, EmptyString => EmptyString
  | O, EmptyString => EmptyString
  | O, String _ s' =>
      match ws_len s with
      | O => s
      | S k => trimStart_from k s'
      end
  end.

Definition trimStart (s : string) : string := trimStart_from 0 s.

(** [s] is made of white space only. *)
Fixpoint all_ws_from (skip : nat) (s : string) : bool :=
  match skip, s with
  | S k, String _ s' => all_ws_from k s'
  | S _, EmptyString => false
  | O, EmptyString => true
  | O, String _ s' =>
      match ws_len s with
      | O => false
      | S k => all_ws_from k s'
      end
  end.

(** Removes the longest suffix whose characters satisfy [p], by a
    right-to-left pass: a character goes when it satisfies [p] and everything
    after it went. *)
Fixpoint drop_end_while (p : ascii → bool) (s : string) : string :=
  match s with
  | String a s' =>
      match drop_end_while p s' with
      | EmptyString => if p a then EmptyString else String a EmptyString
      | t => String a t
      end
  | EmptyString => EmptyString
  end.

(** [s] without the white space it ends with: the longest suffix made of
    white space goes.  Such a suffix starts where a character starts, since
    no white space character starts with a continuation byte. *)
Fixpoint trimEnd (s : string) : string :=
  match s with
  | EmptyString => EmptyString
  | String a s' => if all_ws_from 0 s then EmptyString else String a (trimEnd s')
  end.

(** [String.prototype.trim]. *)
Definition trim (s : string) : string := trimEnd (trimStart s).

Definition digit_of (a : ascii) : option Z :=
  let n := nat_of_ascii a in
  if ((48 <=? n)%nat && (n <=? 57)%nat)%bool then Some (Z.of_nat n - 48) else None.

(** The longest prefix of decimal digits, accumulated from [acc]; [seen]
    records whether a digit was read. *)
Fixpoint digits (s : string) (acc : Z) (seen : bool) : option Z :=
  match s with
  | String a s' =>
      match digit_of a with
      | Some d => digits s' (10 * acc + d) true
      | None => if seen then Some acc else None
      end
  | EmptyString => if seen then Some acc else None
  end.

(** [parseInt(s, 10)]: leading white space is skipped, one sign is read,
    then the longest prefix of digits; [None] stands for [NaN].  The value
    is the exact integer; the language rounds it to a double, which is the
    same number below 2^53 and compares with 1 the same way above. *)
Definition parseInt10 (s : string) : option Z :=
  match trimStart s with
  | String "-" s' => Z.opp <$> digits s' 0 false
  | String "+" s' => digits s' 0 false
  | s' => digits s' 0 false
  end.

(** [n || 0] on a number: [NaN] and zero give [0]. *)
Definition or_zero (n : option Z) : Z := default 0 n.

(** [for (const x of xs) body], the loop state threaded through. *)
Fixpoint for_of {A S} (xs : list A) (body : A → S → M S) (s : S) : M S :=
  match xs with
  | [] => mret s
  | x :: xs' => s' ← body x s; for_of xs' body s'
  end.

(** [Array.prototype.sort(cmp)] as a stable insertion sort: an element is
    placed before the first later element it does not exceed.  The language
    fixes the result for a consistent comparator (the sort is stable), and
    the statements on sorted results are made for such comparators only;
    for an inconsistent one the order is the engine's choice, of which this
    is one. *)
Fixpoint sort_insert {A} (cmp : A → A → Z) (x : A) (l : list A) : list A :=
  match l with
  | [] => [x]
  | y :: l' => if cmp x y <=? 0 then x :: l else y :: sort_insert cmp x l'
  end.

Definition sort {A} (cmp : A → A → Z) (l : list A) : list A :=
  foldr (sort_insert cmp) [] l.

(** The same sort for a comparator that may throw: the exception of a
    comparison ends the sort.  Which pairs are compared is the engine's
    choice; what is stated of [sort_res] holds for every choice: no
    exception when no comparison of two elements throws, none for fewer than
    two elements, and a rearrangement of the list when the sort returns. *)
Fixpoint sort_insert_res {A} (cmp : A → A → Res Z) (x : A) (l : list A)
  : Res (list A) :=
  match l with
  | [] => Ok [x]
  | y :: l' =>
      c ← cmp x y;
      if c <=? 0 then Ok (x :: l)
      else l'' ← sort_insert_res cmp x l'; Ok (y :: l'')
  end.

Fixpoint sort_res {A} (cmp : A → A → Res Z) (l : list A) : Res (list A) :=
  match l with
  | [] => Ok []
  | x :: l' => sorted ← sort_res cmp l'; sort_insert_res cmp x sorted
  end.

(** On the elements of [l] the comparator [cmp] is the difference of the
    keys. *)
Definition by_key {A} (cmp : A → A → Z) (key : A → Z) (l : list A) : Prop :=
  ∀ x y, x ∈ l → y ∈ l → cmp x y = key x - key y.

(** A property read [v.k] for a key [k] that is neither an index, nor
    [length], nor a method of a prototype: [null.k] throws a [TypeError],
    an object answers from its own keys, any other value has no such
    property ([None] is [undefined]). *)
Definition get (v : json) (k : string) : Res (option json) :=
  match v with
  | JNull => Throw "TypeError: Cannot read properties of null"
  | JObj m => Ok (m !! k)
  | _ => Ok None
  end.

(** [t?.k] for such a key. *)
Definition opt_chain (t : option json) (k : string) : option json :=
  match t with
  | Some (JObj m) => m !! k
  | _ => None
  end.

(** [v ?? d]. *)
Definition nullish_or (v : option json) (d : json) : json :=
  match v with
  | None | Some JNull => d
  | Some x => x
  end.

(** Truthiness of a JSON value. *)
Definition truthy (v : json) : bool :=
  match v with
  | JNull | JBool false | JNum 0 | JStr EmptyString => false
  | _ => true
  end.

(** [v || d]. *)
Definition or_else (v d : json) : json := if truthy v then v else d.

(** The own enumerable properties an object spread [{...v}] copies: the keys
    of an object, the indices of an array or of a string (one per byte here,
    one per UTF-16 code unit in the language: the two agree on ASCII text),
    nothing for the other values. *)
Definition index_props (l : list json) : gmap string json :=
  list_to_map (imap (λ i v, (pretty i, v)) l).

Fixpoint chars (s : string) : list json :=
  match s with
  | EmptyString => []
  | String a s' => JStr (String a EmptyString) :: chars s'
  end.

Definition own_props (v : json) : gmap string json :=
  match v with
  | JObj m => m
  | JArr l => index_props l
  | JStr s => index_props (chars s)
  | _ => ∅
  end.

(** The names every plain object inherits from [Object.prototype]; each is
    bound to a function or, for [__proto__], to the prototype itself. *)
Definition Object_prototype_keys : list string :=
  ["constructor"; "__defineGetter__"; "__defineSetter__"; "hasOwnProperty";
   "__lookupGetter__"; "__lookupSetter__"; "isPrototypeOf";
   "propertyIsEnumerable"; "toString"; "valueOf"; "__proto__";
   "toLocaleString"].

(** [m] ends with outcome [r] after appending the entries [w] to the log,
    whatever the log held before. *)
Definition writes {A} (m : M A) (r : Res A) (w : Log) : Prop :=
  ∀ lg, m lg = (r, (lg ++ w)%list).

(** The value of an outcome, if it has one. *)
Definition value {A} (r : Res A) : option A :=
  match r with
  | Ok a => Some a
  | Throw _ => None
  end.

(** A string in a boolean position: [undefined] and the empty string are
    falsy. *)
Definition truthy_str (o : option string) : bool :=
  match o with
  | Some (String _ _) => true
  | _ => false
  end.

End JS.

(** ** opencode.paths.ts *)
Module Paths.
Import JS.

(** What the process sees of its host: Node's [path] module, the file
    system, the environment and the platform. *)
Record Host : Type := {
  path_join : list string → string;      (* join(a, b, ...) *)
  path_dirname : string → string;        (* dirname(p) *)
  existsSync : string → bool;            (* never throws *)
  readFile : string → Res string;        (* readFile(p, 'utf-8'); throws when unreadable *)
  env : string → option string;          (* process.env[name] *)
  platform : string;                     (* process.platform *)
  homedir : string                       (* os.homedir() *)
}.

Inductive Layout : Type := PostMigration | Legacy | Mixed | Sqlite | Unknown.

#[global] Instance Layout_eq_dec : EqDecision Layout.
Proof. solve_decision. Defined.

(** [StorageLayoutResult]; an optional field that the object literal leaves
    out is [None]. *)
Record StorageLayoutResult : Type := {
  layout : Layout;
  migrationVersion : Z;
  postMigrationPath : option string;
  legacyPaths : option (list string);
  dbPath : option string
}.

(** The first block of [detectStorageLayout]: the marker is a bare integer;
    a marker that cannot be read, or that [parseInt] rejects, counts as 0. *)
Definition readMigrationVersion (h : Host) (storagePath : string) : M Z :=
  let migrationFile := path_join h [storagePath; "migration"] in
  if existsSync h migrationFile then
    try_catch
      (content ← lift (readFile h migrationFile);
       mret (or_zero (parseInt10 (trim content))))
      (λ _, mret 0)
  else mret 0.

Definition hasPostMigration (h : Host) (storagePath : string) : bool :=
  existsSync h (path_join h [storagePath; "session"]) &&
  existsSync h (path_join h [storagePath; "message"]) &&
  existsSync h (path_join h [storagePath; "part"]).

Definition dbPathOf (h : Host) (storagePath : string) : string :=
  path_join h [path_dirname h storagePath; "opencode.db"].

Definition hasSqlite (h : Host) (storagePath : string) : bool :=
  existsSync h (dbPathOf h storagePath).

Definition projectDirOf (h : Host) (storagePath : string) : string :=
  path_join h [path_dirname h storagePath; "project"].

Definition hasLegacy (h : Host) (storagePath : string) : bool :=
  existsSync h (projectDirOf h storagePath).

(** [...(hasSqlite && { dbPath })]. *)
Definition spread_when {A} (b : bool) (a : A) : option A :=
  if b then Some a else None.

Definition detectStorageLayout (h : Host) (storagePath : string)
  : M StorageLayoutResult :=
  migrationVersion ← readMigrationVersion h storagePath;
  let hasPostMigration := hasPostMigration h storagePath in
  let dbPath := dbPathOf h storagePath in
  let hasSqlite := hasSqlite h storagePath in
  let projectDir := projectDirOf h storagePath in
  let hasLegacy := hasLegacy h storagePath in
  if (1 <=? migrationVersion) && hasPostMigration then
    mret {| layout := PostMigration; migrationVersion := migrationVersion;
            postMigrationPath := Some storagePath; legacyPaths := None;
            dbPath := spread_when hasSqlite dbPath |}
  else if hasPostMigration && hasLegacy then
    mret {| layout := Mixed; migrationVersion := migrationVersion;
            postMigrationPath := Some storagePath;
            legacyPaths := Some [projectDir];
            dbPath := spread_when hasSqlite dbPath |}
  else if hasPostMigration then
    mret {| layout := PostMigration; migrationVersion := migrationVersion;
            postMigrationPath := Some storagePath; legacyPaths := None;
            dbPath := spread_when hasSqlite dbPath |}
  else if hasSqlite && negb hasPostMigration then
    mret {| layout := Sqlite; migrationVersion := migrationVersion;
            postMigrationPath := None; legacyPaths := None;
            dbPath := Some dbPath |}
  else if hasLegacy then
    mret {| layout := Legacy; migrationVersion := migrationVersion;
            postMigrationPath := None; legacyPaths := Some [projectDir];
            dbPath := None |}
  else
    mret {| layout := Unknown; migrationVersion := migrationVersion;
            postMigrationPath := None; legacyPaths := None; dbPath := None |}.

(** The priority list as the specification words it, read as a decision
    list: marker with a complete post-migration tree; both trees; database
    with both file-based trees absent; legacy tree only; otherwise unknown. *)
Definition layout_by_stated_priority
    (version : Z) (postMigration legacy sqlite : bool) : Layout :=
  if (1 <=? version) && postMigration then PostMigration
  else if legacy && postMigration then Mixed
  else if sqlite && negb postMigration && negb legacy then Sqlite
  else if legacy && negb postMigration then Legacy
  else Unknown.

Definition getOpenCodeStoragePath (h : Host) : M (option string) :=
  let home := homedir h in
  if truthy_str (env h "OPENCODE_STORAGE_PATH") then
    let customPath := default EmptyString (env h "OPENCODE_STORAGE_PATH") in
    _ ← debug ("[opencode-paths] Using OPENCODE_STORAGE_PATH: " +:+ customPath);
    mret (if existsSync h customPath then Some customPath else None)
  else
    let storagePath :=
      if truthy_str (env h "XDG_DATA_HOME") then
        path_join h [default EmptyString (env h "XDG_DATA_HOME");
                     "opencode"; "storage"]
      else if String.eqb (platform h) "darwin" then
        path_join h [home; "Library"; "Application Support"; "opencode"; "storage"]
      else if String.eqb (platform h) "win32" then
        if truthy_str (env h "LOCALAPPDATA") then
          path_join h [default EmptyString (env h "LOCALAPPDATA");
                       "opencode"; "storage"]
        else path_join h [home; ".local"; "share"; "opencode"; "storage"]
      else path_join h [home; ".local"; "share"; "opencode"; "storage"] in
    if negb (existsSync h storagePath) then mret None
    else mret (Some storagePath).

(** [getOpenCodeSessionsPath], [getOpenCodeMessagesPath] and
    [getOpenCodePartsPath] differ in the subdirectory only. *)
Definition getOpenCodeSubPath (h : Host) (sub : string) : M (option string) :=
  storagePath ← getOpenCodeStoragePath h;
  match storagePath with
  | None => mret None
  | Some sp =>
      let p := path_join h [sp; sub] in
      mret (if existsSync h p then Some p else None)
  end.

Definition getOpenCodeDbPath (h : Host) : M (option string) :=
  storagePath ← getOpenCodeStoragePath h;
  match storagePath with
  | None => mret None
  | Some sp =>
      let dbPath := path_join h [path_dirname h sp; "opencode.db"] in
      if existsSync h dbPath then
        _ ← debug ("[opencode-paths] Found SQLite DB: " +:+ dbPath);
        mret (Some dbPath)
      else mret None
  end.

(** *** A POSIX host for worked examples *)

(** [join] on already normalised segments. *)
Fixpoint posix_join (parts : list string) : string :=
  match parts with
  | [] => "."
  | [p] => p
  | p :: rest => p +:+ "/" +:+ posix_join rest
  end.

(** The part of [s] before its last slash, if it has one. *)
Fixpoint before_last_slash (s : string) : option string :=
  match s with
  | EmptyString => None
  | String a s' =>
      match before_last_slash s' with
      | Some d => Some (String a d)
      | None => if Ascii.eqb a "/" then Some EmptyString else None
      end
  end.

(** [dirname] on a normalised path without a trailing slash. *)
Definition posix_dirname (s : string) : string :=
  match before_last_slash s with
  | Some EmptyString => "/"
  | Some d => d
  | None => "."
  end.

(** A Linux host whose file system holds exactly the paths [present] and
    whose files hold the [contents] given (any other read fails). *)
Definition linux_host (present : list string)
    (contents : list (string * string)) : Host :=
  {| path_join := posix_join;
     path_dirname := posix_dirname;
     existsSync := λ p, bool_decide (p ∈ present);
     readFile := λ p,
       match list_find (λ kv, kv.1 = p) contents with
       | Some (_, (_, c)) => Ok c
       | None => Throw "ENOENT"
       end;
     env := λ _, None;
     platform := "linux";
     homedir := "/home/dev" |}.

(** *** Sample roots and predicates used in the statements *)

(** A storage root beside which lie the database file and the legacy
    project directory, and nothing else. *)
Definition db_beside_legacy : Host :=
  linux_host ["/data/opencode/opencode.db"; "/data/opencode/project"] [].

(** A storage root holding the three post-migration trees and no marker. *)
Definition bare_post_migration : Host :=
  linux_host ["/data/opencode/storage/session";
              "/data/opencode/storage/message";
              "/data/opencode/storage/part"] [].

(** The marker file of a root is of no use: reading it throws, or
    [parseInt] finds no integer at the start of its trimmed content. *)
Definition marker_unusable (h : Host) (sp : string) : Prop :=
  match readFile h (path_join h [sp; "migration"]) with
  | Throw _ => True
  | Ok content => parseInt10 (trim content) = None
  end.

(** A post-migration root whose marker holds text instead of a number. *)
Definition garbled_marker : Host :=
  linux_host ["/data/opencode/storage/migration";
              "/data/opencode/storage/session";
              "/data/opencode/storage/message";
              "/data/opencode/storage/part"]
             [("/data/opencode/storage/migration", "v2")].

(** U+FEFF, the byte order mark, and U+00A0, the no-break space, in UTF-8. *)
Definition byte_order_mark : string :=
  String (ascii_of_nat 239) (String (ascii_of_nat 187)
    (String (ascii_of_nat 191) EmptyString)).

Definition no_break_space : string :=
  String (ascii_of_nat 194) (String (ascii_of_nat 160) EmptyString).

(** A post-migration root beside a legacy tree, whose marker was saved with
    a byte order mark before the version and a no-break space after it. *)
Definition marker_with_bom : Host :=
  linux_host ["/data/opencode/storage/migration";
              "/data/opencode/storage/session";
              "/data/opencode/storage/message";
              "/data/opencode/storage/part";
              "/data/opencode/project"]
             [("/data/opencode/storage/migration",
               byte_order_mark +:+ "1" +:+ no_break_space +:+ String "010" EmptyString)].

End Paths.

(** ** opencode.sqlite-reader.ts *)
Module SqliteReader.
Import JS.

(** What [exec] resolves to. *)
Record ExecResult : Type := {
  code : Z;
  stdout : string;
  stderr : string
}.

(** Raw rows of the [session], [message] and [part] tables.  A column that
    the code guards against [null] is optional. *)
Record SessionRow : Type := {
  srow_id : string;
  srow_project_id : string;
  srow_slug : string;
  srow_directory : option string;
  srow_title : string;
  srow_version : string;
  srow_time_created : option Z;
  srow_time_updated : option Z
}.

Record MessageRow : Type := {
  mrow_id : string;
  mrow_session_id : string;
  mrow_data : string
}.

Record PartRow : Type := {
  prow_id : string;
  prow_message_id : string;
  prow_session_id : string;
  prow_data : string
}.

(** The collaborators of the reader: the process runner, [JSON.parse] on a
    payload blob and on the output of [sqlite3 -json] (an array of rows of
    the selected columns), the number coercion of the language on a string,
    an array or an object, and the clock.  The coercion gives a number,
    [None] for [NaN], or throws a [TypeError]: it does for an object that
    has a key [toString] of its own, whose value is then not callable. *)
Record Runtime : Type := {
  exec : string → list string → Z → Res ExecResult;
  JSON_parse : string → Res json;
  session_rows : string → Res (list SessionRow);
  message_rows : string → Res (list MessageRow);
  part_rows : string → Res (list PartRow);
  CoerceToNumber : json → Res (option Z);
  now : Z
}.

Definition getDbPathFromStorage (h : Paths.Host) (storagePath : string)
  : option string :=
  let dbPath := Paths.path_join h [Paths.path_dirname h storagePath; "opencode.db"] in
  if Paths.existsSync h dbPath then Some dbPath else None.

Definition is_empty (s : string) : bool :=
  match s with EmptyString => true | _ => false end.

(** [queryDb<T>]; [rows] is [JSON.parse(output) as T[]]. *)
Definition queryDb {T} (rt : Runtime) (rows : string → Res (list T))
    (dbPath sql : string) : M (list T) :=
  try_catch
    (result ← lift (exec rt "sqlite3" ["-json"; "-readonly"; dbPath; sql] 10000);
     if negb (code result =? 0) then
       _ ← debug ("[sqlite-reader] sqlite3 exited with code "
                   +:+ pretty (code result) +:+ ": " +:+ stderr result);
       mret []
     else
       let output := trim (stdout result) in
       if is_empty output || String.eqb output "[]" then mret []
       else lift (rows output))
    (λ msg, _ ← debug ("[sqlite-reader] Query failed: " +:+ msg); mret []).

Record SessionTime : Type := { created : Z; updated : Z }.

Record OpenCodeSession : Type := {
  session_id : string;
  session_title : string;
  session_directory : string;
  session_time : SessionTime;
  session_projectID : string;
  session_slug : string;
  session_version : string
}.

Record SessionOptions : Type := {
  maxAgeDays : option Z;
  cwd : option string
}.

(** [s.replace(/\/+$/, '')]. *)
Definition strip_trailing_slashes (s : string) : string :=
  drop_end_while (λ a, Ascii.eqb a "/") s.

Definition sessions_sql : string :=
  "SELECT id, project_id, slug, directory, title, version, time_created, time_updated FROM session ORDER BY time_created DESC".

(** The body of the loop of [readSessionsFromDb]: [None] is [continue]. *)
Definition session_of_row (cutoff : Z) (normalizedCwd : option string)
    (row : SessionRow) : option OpenCodeSession :=
  let session :=
    {| session_id := srow_id row;
       session_title := srow_title row;
       session_directory :=
         if truthy_str (srow_directory row)
         then default EmptyString (srow_directory row) else EmptyString;
       session_time := {| created := default 0 (srow_time_created row);
                          updated := default 0 (srow_time_updated row) |};
       session_projectID := srow_project_id row;
       session_slug := srow_slug row;
       session_version := srow_version row |} in
  if negb (created (session_time session) =? 0)
     && (created (session_time session) <? cutoff) then None
  else if truthy_str normalizedCwd
          && negb (is_empty (session_directory session))
          && negb (String.eqb (strip_trailing_slashes (session_directory session))
                              (default EmptyString normalizedCwd)) then None
  else Some session.

Definition readSessionsFromDb (rt : Runtime) (dbPath : string)
    (options : option SessionOptions) : M (list OpenCodeSession) :=
  rows ← queryDb rt (session_rows rt) dbPath sessions_sql;
  let maxAgeMs := default 30 (options ≫= maxAgeDays) * 24 * 60 * 60 * 1000 in
  let cutoff := now rt - maxAgeMs in
  let normalizedCwd := strip_trailing_slashes <$> (options ≫= cwd) in
  for_of rows
    (λ row sessions,
       match session_of_row cutoff normalizedCwd row with
       | Some session => mret (sessions ++ [session])%list
       | None => mret sessions
       end)
    [].

(** [value.replace(/'/g, "''")]. *)
Fixpoint escapeSqlString (value : string) : string :=
  match value with
  | EmptyString => EmptyString
  | String a rest =>
      if Ascii.eqb a "'" then String "'" (String "'" (escapeSqlString rest))
      else String a (escapeSqlString rest)
  end.

Definition messages_sql_prefix : string :=
  "SELECT id, session_id, data FROM message WHERE session_id = '".

Definition messages_sql (sessionId : string) : string :=
  messages_sql_prefix +:+ escapeSqlString sessionId +:+ "'".

Definition parts_sql_prefix : string :=
  "SELECT id, message_id, session_id, data FROM part WHERE session_id = '".

Definition parts_sql (sessionId : string) : string :=
  parts_sql_prefix +:+ escapeSqlString sessionId +:+ "' ORDER BY id ASC".

(** [base]: the ids come from the columns, the creation time from the
    payload, [(data.time as any)?.created ?? 0]. *)
Record MessageBase : Type := {
  msg_id : string;
  msg_sessionID : string;
  msg_created : json
}.

(** [OpenCodeAssistantMessage | OpenCodeUserMessage]; a field is [None] when
    the payload has no such key. *)
Inductive OpenCodeMessage : Type :=
| AssistantMessage (base : MessageBase)
    (providerID modelID path tokens cost agent : option json)
| UserMessage (base : MessageBase) (agent model : option json).

Definition base_of (m : OpenCodeMessage) : MessageBase :=
  match m with
  | AssistantMessage b _ _ _ _ _ _ => b
  | UserMessage b _ _ => b
  end.

(** The body of the [try] block of [readMessagesFromDb]. *)
Definition message_of_row (rt : Runtime) (row : MessageRow) : Res OpenCodeMessage :=
  data ← JSON_parse rt (mrow_data row);
  role ← get data "role";
  time ← get data "time";
  let base := {| msg_id := mrow_id row;
                 msg_sessionID := mrow_session_id row;
                 msg_created := nullish_or (opt_chain time "created") (JNum 0) |} in
  match role with
  | Some (JStr "assistant") =>
      providerID ← get data "providerID";
      modelID ← get data "modelID";
      path ← get data "path";
      tokens ← get data "tokens";
      cost ← get data "cost";
      agent ← get data "agent";
      mret (AssistantMessage base providerID modelID path tokens cost agent)
  | _ =>
      agent ← get data "agent";
      model ← get data "model";
      mret (UserMessage base agent model)
  end.

(** [ToNumber]; [None] is [NaN]. *)
Definition to_number (rt : Runtime) (v : json) : Res (option Z) :=
  match v with
  | JNull => Ok (Some 0)
  | JBool b => Ok (Some (if b then 1 else 0))
  | JNum z => Ok (Some z)
  | _ => CoerceToNumber rt v
  end.

(** [(a.time?.created || 0) - (b.time?.created || 0)]: the left operand is
    coerced first, an exception of either coercion is the comparator's, and
    a [NaN] result counts as [+0] for the sort. *)
Definition compare_created (rt : Runtime) (a b : OpenCodeMessage) : Res Z :=
  x ← to_number rt (or_else (msg_created (base_of a)) (JNum 0));
  y ← to_number rt (or_else (msg_created (base_of b)) (JNum 0));
  mret (match x, y with
        | Some x, Some y => x - y
        | _, _ => 0
        end).

(** The loop of [readMessagesFromDb]. *)
Definition collect_messages (rt : Runtime) (rows : list MessageRow)
  : M (list OpenCodeMessage) :=
  for_of rows
    (λ row messages,
       try_catch
         (msg ← lift (message_of_row rt row);
          mret (messages ++ [msg])%list)
         (λ _, _ ← debug ("[sqlite-reader] Failed to parse message row: "
                           +:+ mrow_id row);
               mret messages))
    [].

Definition readMessagesFromDb (rt : Runtime) (dbPath sessionId : string)
  : M (list OpenCodeMessage) :=
  let escapedId := escapeSqlString sessionId in
  rows ← queryDb rt (message_rows rt) dbPath
           (messages_sql_prefix +:+ escapedId +:+ "'");
  messages ← collect_messages rt rows;
  lift (sort_res (compare_created rt) messages).

(** An [OpenCodePart] and the [Record<string, OpenCodePart[]>] the reader
    returns, as objects with their own keys. *)
Abbreviation OpenCodePart := (gmap string json) (only parsing).
Abbreviation PartsMap := (gmap string (list (gmap string json))) (only parsing).

(** [{ ...data, id: row.id, messageID: row.message_id, sessionID: row.session_id }]. *)
Definition part_of_row (row : PartRow) (data : json) : OpenCodePart :=
  <["sessionID" := JStr (prow_session_id row)]>
    (<["messageID" := JStr (prow_message_id row)]>
       (<["id" := JStr (prow_id row)]> (own_props data))).

(** [if (!partsMap[k]) partsMap[k] = []; partsMap[k].push(part)].  The map
    is a plain object: a key it does not own but inherits reads as a truthy
    value without [push], and the call throws. *)
Definition push_part (partsMap : PartsMap) (k : string) (part : OpenCodePart)
  : Res PartsMap :=
  match partsMap !! k with
  | Some parts => Ok (<[k := (parts ++ [part])%list]> partsMap)
  | None =>
      if bool_decide (k ∈ Object_prototype_keys)
      then Throw "TypeError: partsMap[row.message_id].push is not a function"
      else Ok (<[k := [part]]> partsMap)
  end.

(** The loop of [readAllPartsForSessionFromDb]. *)
Definition collect_parts (rt : Runtime) (rows : list PartRow) : M PartsMap :=
  for_of rows
    (λ row partsMap,
       try_catch
         (data ← lift (JSON_parse rt (prow_data row));
          lift (push_part partsMap (prow_message_id row) (part_of_row row data)))
         (λ _, _ ← debug ("[sqlite-reader] Failed to parse part row: "
                           +:+ prow_id row);
               mret partsMap))
    ∅.

Definition readAllPartsForSessionFromDb (rt : Runtime) (dbPath sessionId : string)
  : M PartsMap :=
  let escapedId := escapeSqlString sessionId in
  rows ← queryDb rt (part_rows rt) dbPath
           (parts_sql_prefix +:+ escapedId +:+ "' ORDER BY id ASC");
  collect_parts rt rows.

(** Reads the body of a single-quoted SQL string literal from the text that
    follows its opening quote: a doubled quote stands for one quote, a single
    one closes the literal.  Returns the string denoted and the text left. *)
Fixpoint scan_sql_literal (s : string) : option (string * string) :=
  match s with
  | EmptyString => None
  | String a s' =>
      if Ascii.eqb a "'" then
        match s' with
        | String b s'' =>
            if Ascii.eqb b "'"
            then prod_map (String "'") id <$> scan_sql_literal s''
            else Some (EmptyString, s')
        | EmptyString => Some (EmptyString, EmptyString)
        end
      else prod_map (String a) id <$> scan_sql_literal s'
  end.


(** *** What the loops compute, and predicates used in the statements *)

(** The messages of the rows whose [try] block runs to its end, in row
    order. *)
Definition parsed_messages (rt : Runtime) (rows : list MessageRow)
  : list OpenCodeMessage :=
  omap (λ row, value (message_of_row rt row)) rows.

(** The entries logged for the rows whose [try] block throws. *)
Definition skipped_messages_log (rt : Runtime) (rows : list MessageRow) : Log :=
  omap (λ row, match message_of_row rt row with
               | Ok _ => None
               | Throw _ => Some ("[sqlite-reader] Failed to parse message row: "
                                  +:+ mrow_id row)
               end) rows.

(** The [try] block of the loop over part rows, on the map built so far. *)
Definition try_part (rt : Runtime) (partsMap : PartsMap) (row : PartRow)
  : Res PartsMap :=
  data ← JSON_parse rt (prow_data row);
  push_part partsMap (prow_message_id row) (part_of_row row data).

(** One turn of that loop: a row whose block throws leaves the map as it
    was. *)
Definition part_step (rt : Runtime) (partsMap : PartsMap) (row : PartRow)
  : PartsMap :=
  default partsMap (value (try_part rt partsMap row)).

Definition parts_of (rt : Runtime) (rows : list PartRow) : PartsMap :=
  foldl (part_step rt) ∅ rows.

Fixpoint skipped_parts_log (rt : Runtime) (partsMap : PartsMap)
    (rows : list PartRow) : Log :=
  match rows with
  | [] => []
  | row :: rest =>
      (match try_part rt partsMap row with
       | Ok _ => []
       | Throw _ => ["[sqlite-reader] Failed to parse part row: " +:+ prow_id row]
       end ++ skipped_parts_log rt (part_step rt partsMap row) rest)%list
  end.

(** The creation time of a message is a JSON number, as the message types
    declare it. *)
Definition numeric_created (m : OpenCodeMessage) : Prop :=
  ∃ z, msg_created (base_of m) = JNum z.

(** That number. *)
Definition created_num (m : OpenCodeMessage) : Z :=
  match msg_created (base_of m) with
  | JNum z => z
  | _ => 0
  end.

(** The difference of the creation times, as numbers. *)
Definition created_diff (a b : OpenCodeMessage) : Z :=
  created_num a - created_num b.

(** [(data.time as any)?.created ?? 0] on a payload that is not [null]. *)
Definition created_of (data : json) : json :=
  nullish_or (opt_chain (match data with JObj m => m !! "time" | _ => None end)
                        "created")
             (JNum 0).

(** The rows whose blob parses hold a number as creation time, or none. *)
Definition numeric_times (rt : Runtime) (rows : list MessageRow) : Prop :=
  ∀ row data, row ∈ rows → JSON_parse rt (mrow_data row) = Ok data →
    ∃ z, created_of data = JNum z.

(** The two run times read blobs and coerce values alike. *)
Definition same_payloads (rt rt' : Runtime) : Prop :=
  JSON_parse rt' = JSON_parse rt ∧ CoerceToNumber rt' = CoerceToNumber rt.

(** What [sqlite3] gave leaves [queryDb] without rows: the process could not
    be run or timed out, it ended with a non-zero code, or it printed
    nothing or an empty array. *)
Definition no_rows (out : Res ExecResult) : Prop :=
  match out with
  | Throw _ => True
  | Ok r => code r ≠ 0 ∨ trim (stdout r) = EmptyString ∨ trim (stdout r) = "[]"
  end.

(** The command line of [queryDb]. *)
Definition sqlite3_args (dbPath sql : string) : list string :=
  ["-json"; "-readonly"; dbPath; sql].

(** A part of the result comes from a row: the row's payload parses, the
    part sits under the row's message id and is the merge of the payload
    with the row's columns. *)
Definition part_from_row (rt : Runtime) (row : PartRow) (k : string)
    (part : OpenCodePart) : Prop :=
  ∃ data, JSON_parse rt (prow_data row) = Ok data ∧
          k = prow_message_id row ∧ part = part_of_row row data.

(** The run time [rt] with its process runner replaced. *)
Definition with_exec (rt : Runtime)
    (e : string → list string → Z → Res ExecResult) : Runtime :=
  {| exec := e; JSON_parse := JSON_parse rt; session_rows := session_rows rt;
     message_rows := message_rows rt; part_rows := part_rows rt;
     CoerceToNumber := CoerceToNumber rt; now := now rt |}.


(** *** A sample database *)

(** The double-quote character, and a JSON string literal without escapes. *)
Definition dq : string := String (ascii_of_nat 34) EmptyString.
Definition quoted (s : string) : string := dq +:+ s +:+ dq.

(** [{"role":"assistant","time":{"created":30}}] *)
Definition payload_assistant_30 : string :=
  "{" +:+ quoted "role" +:+ ":" +:+ quoted "assistant" +:+ ","
      +:+ quoted "time" +:+ ":{" +:+ quoted "created" +:+ ":30}}".

(** [{"role":"user","time":{"created":10}}] *)
Definition payload_user_10 : string :=
  "{" +:+ quoted "role" +:+ ":" +:+ quoted "user" +:+ ","
      +:+ quoted "time" +:+ ":{" +:+ quoted "created" +:+ ":10}}".

(** [{"id":"prt_payload","sessionID":"ses_payload","type":"text"}] *)
Definition payload_part_text : string :=
  "{" +:+ quoted "id" +:+ ":" +:+ quoted "prt_payload" +:+ ","
      +:+ quoted "sessionID" +:+ ":" +:+ quoted "ses_payload" +:+ ","
      +:+ quoted "type" +:+ ":" +:+ quoted "text" +:+ "}".

(** A blob cut short, which [JSON.parse] rejects. *)
Definition payload_truncated : string := "{" +:+ quoted "role" +:+ ":".

(** [JSON.parse] on the blobs of the sample; any other text is taken as
    malformed. *)
Definition sample_parse (s : string) : Res json :=
  if String.eqb s payload_assistant_30 then
    Ok (JObj {[ "role" := JStr "assistant";
                "time" := JObj {[ "created" := JNum 30 ]} ]})
  else if String.eqb s payload_user_10 then
    Ok (JObj {[ "role" := JStr "user";
                "time" := JObj {[ "created" := JNum 10 ]} ]})
  else if String.eqb s payload_part_text then
    Ok (JObj {[ "id" := JStr "prt_payload";
                "sessionID" := JStr "ses_payload";
                "type" := JStr "text" ]})
  else Throw "SyntaxError: Unexpected end of JSON input".

Definition sample_message_rows : list MessageRow :=
  [ {| mrow_id := "msg_1"; mrow_session_id := "ses_1";
       mrow_data := payload_assistant_30 |};
    {| mrow_id := "msg_2"; mrow_session_id := "ses_1";
       mrow_data := payload_user_10 |};
    {| mrow_id := "msg_3"; mrow_session_id := "ses_1";
       mrow_data := payload_truncated |};
    {| mrow_id := "msg_4"; mrow_session_id := "ses_1";
       mrow_data := payload_user_10 |} ].

Definition sample_part_rows : list PartRow :=
  [ {| prow_id := "prt_1"; prow_message_id := "msg_1";
       prow_session_id := "ses_1"; prow_data := payload_part_text |};
    {| prow_id := "prt_2"; prow_message_id := "msg_1";
       prow_session_id := "ses_1"; prow_data := payload_truncated |};
    {| prow_id := "prt_3"; prow_message_id := "msg_2";
       prow_session_id := "ses_1"; prow_data := payload_part_text |} ].

(** A run time over the sample: [sqlite3] ends with code 0 and prints an
    array, which decodes to the sample rows. *)
Definition sample_runtime : Runtime :=
  {| exec := λ _ _ _, Ok {| code := 0; stdout := "[{...}]"; stderr := EmptyString |};
     JSON_parse := sample_parse;
     session_rows := λ _, Ok [];
     message_rows := λ _, Ok sample_message_rows;
     part_rows := λ _, Ok sample_part_rows;
     CoerceToNumber := λ _, Ok None;
     now := 1700000000000 |}.

(** A run time whose [sqlite3] cannot open the database. *)
Definition broken_runtime : Runtime :=
  with_exec sample_runtime
    (λ _ _ _, Ok {| code := 1; stdout := EmptyString;
                    stderr := "Error: unable to open database file" |}).

(** *** Databases on which the statements of the specification fail *)

(** [{"role":"user","time":{"created":"<t>"}}]: a creation time written as
    text. *)
Definition payload_created_text (t : string) : string :=
  "{" +:+ quoted "role" +:+ ":" +:+ quoted "user" +:+ ","
      +:+ quoted "time" +:+ ":{" +:+ quoted "created" +:+ ":" +:+ quoted t +:+ "}}".

Definition noon_2nd : string := "2024-01-02T12:00:00.000Z".
Definition noon_1st : string := "2024-01-01T12:00:00.000Z".

(** [JSON.parse] on the blobs of these databases, beside those of the
    sample. *)
Definition wider_parse (s : string) : Res json :=
  if String.eqb s (payload_created_text noon_2nd) then
    Ok (JObj {[ "role" := JStr "user";
                "time" := JObj {[ "created" := JStr noon_2nd ]} ]})
  else if String.eqb s (payload_created_text noon_1st) then
    Ok (JObj {[ "role" := JStr "user";
                "time" := JObj {[ "created" := JStr noon_1st ]} ]})
  else if String.eqb s "null" then Ok JNull
  else sample_parse s.

(** The run time over a database with the message rows and part rows
    given; the number coercion answers [NaN], which is its answer on the
    text of a date. *)
Definition runtime_over (mrows : list MessageRow) (prows : list PartRow)
  : Runtime :=
  {| exec := exec sample_runtime;
     JSON_parse := wider_parse;
     session_rows := λ _, Ok [];
     message_rows := λ _, Ok mrows;
     part_rows := λ _, Ok prows;
     CoerceToNumber := λ _, Ok None;
     now := now sample_runtime |}.

(** A message of noon of the 2nd, and one of noon of the 1st. *)
Definition row_of_2nd : MessageRow :=
  {| mrow_id := "msg_b"; mrow_session_id := "ses_1";
     mrow_data := payload_created_text noon_2nd |}.

Definition row_of_1st : MessageRow :=
  {| mrow_id := "msg_a"; mrow_session_id := "ses_1";
     mrow_data := payload_created_text noon_1st |}.

(** A returned list is ascending for the relation [earlier] on creation
    times. *)
Definition ascending (earlier : json → json → Prop)
    (msgs : list OpenCodeMessage) : Prop :=
  StronglySorted (λ a b, earlier (msg_created (base_of a)) (msg_created (base_of b)))
                 msgs.

(** A message table with a truncated blob and the blob [null], and a part
    table with a truncated blob and a well-formed part of a message whose id
    is [constructor]. *)
Definition message_rows_with_null : list MessageRow :=
  [ {| mrow_id := "msg_3"; mrow_session_id := "ses_1";
       mrow_data := payload_truncated |};
    {| mrow_id := "msg_5"; mrow_session_id := "ses_1"; mrow_data := "null" |} ].

Definition part_rows_with_constructor : list PartRow :=
  [ {| prow_id := "prt_2"; prow_message_id := "msg_1";
       prow_session_id := "ses_1"; prow_data := payload_truncated |};
    {| prow_id := "prt_9"; prow_message_id := "constructor";
       prow_session_id := "ses_1"; prow_data := payload_part_text |} ].

(** Every row whose blob parses has its message, or its part, in what the
    readers return: the words of the specification on the rows that remain
    beside a malformed one. *)
Definition messages_all_returned (rt : Runtime) (rows : list MessageRow)
    (msgs : list OpenCodeMessage) : Prop :=
  ∀ row data, row ∈ rows → JSON_parse rt (mrow_data row) = Ok data →
    ∃ m, m ∈ msgs ∧ msg_id (base_of m) = mrow_id row.

Definition parts_all_returned (rt : Runtime) (rows : list PartRow)
    (partsMap : gmap string (list (gmap string json))) : Prop :=
  ∀ row data, row ∈ rows → JSON_parse rt (prow_data row) = Ok data →
    ∃ l, partsMap !! prow_message_id row = Some l ∧ part_of_row row data ∈ l.

End SqliteReader.

(** ** The durable metrics queue, the aggregator and the syncer *)
Module Sync.

#[local] Open Scope N_scope.

Inductive SyncStatus : Type := Pending | Synced | Failed.

#[global] Instance SyncStatus_eq_dec : EqDecision SyncStatus.
Proof. solve_decision. Defined.

(** Token counts of a delta; a field that is absent counts as 0. *)
Record Tokens : Type := {
  input : N;
  output : N;
  cacheRead : N;
  cacheCreation : N
}.

Inductive FileOpType : Type := OpWrite | OpRead | OpEdit | OpDelete.

#[global] Instance FileOpType_eq_dec : EqDecision FileOpType.
Proof. solve_decision. Defined.

Record FileOperation : Type := {
  op_type : FileOpType;
  op_path : string;
  linesAdded : option N;
  linesRemoved : option N
}.

Record ToolStatus : Type := { success : N; failure : N }.

Record UserPrompt : Type := { prompt_text : string; prompt_count : N }.

(** Modelled from the spec: the [MetricDelta] record of the metrics types
    module, which is not among the files verified here; the fields are those of
    the data model of the specification. *)
Record MetricDelta : Type := {
  recordId : string;
  sessionId : string;
  agentSessionId : string;
  timestamp : Z;
  tokens : Tokens;
  tools : gmap string N;
  toolStatus : gmap string ToolStatus;
  fileOperations : list FileOperation;
  models : list string;
  userPrompts : list UserPrompt;
  syncStatus : SyncStatus;
  syncAttempts : N;
  syncedAt : option Z
}.

(** The sync fields of a record replaced, the payload kept. *)
Definition with_sync (d : MetricDelta) (st : SyncStatus) (attempts : N)
    (at_ : option Z) : MetricDelta :=
  {| recordId := recordId d; sessionId := sessionId d;
     agentSessionId := agentSessionId d; timestamp := timestamp d;
     tokens := tokens d; tools := tools d; toolStatus := toolStatus d;
     fileOperations := fileOperations d; models := models d;
     userPrompts := userPrompts d;
     syncStatus := st; syncAttempts := attempts; syncedAt := at_ |}.

(** The queue file of one session: its records in append order. *)
Abbreviation Queue := (list MetricDelta) (only parsing).

Definition has_record (rid : string) (q : Queue) : bool :=
  bool_decide (rid ∈ recordId <$> q).

(** Modelled from the spec: [append(delta)] of the durable metrics queue
    (its source is not among the files verified here).  Adds the record as
    pending with no attempt made; a record id already present makes it a
    no-op. *)
Definition append (delta : MetricDelta) (q : Queue) : Queue :=
  if has_record (recordId delta) q then q
  else (q ++ [with_sync delta Pending 0 None])%list.

(** Modelled from the spec: [listPending] of the durable metrics queue
    (its source is not among the files verified here): the pending records,
    in append order. *)
Definition listPending (q : Queue) : Queue :=
  filter (λ d, syncStatus d = Pending) q.

Definition update_matching (recordIds : list string)
    (f : MetricDelta → MetricDelta) (q : Queue) : Queue :=
  (λ d, if bool_decide (recordId d ∈ recordIds) then f d else d) <$> q.

(** Modelled from the spec: [markSynced(recordIds, syncedAt)] of the durable
    metrics queue (its source is not among the files verified here): the
    matching records become synced, get the time stamp, and count the
    attempt that succeeded. *)
Definition markSynced (recordIds : list string) (at_ : Z) (q : Queue) : Queue :=
  update_matching recordIds
    (λ d, with_sync d Synced (syncAttempts d + 1) (Some at_)) q.

(** Modelled from the spec: [markRetry(recordIds)] of the durable metrics
    queue (its source is not among the files verified here): one more
    attempt, the status kept. *)
Definition markRetry (recordIds : list string) (q : Queue) : Queue :=
  update_matching recordIds
    (λ d, with_sync d (syncStatus d) (syncAttempts d + 1) (syncedAt d)) q.

(** Modelled from the spec: [markFailed(recordIds)] of the durable metrics
    queue (its source is not among the files verified here): the status
    becomes failed. *)
Definition markFailed (recordIds : list string) (q : Queue) : Queue :=
  update_matching recordIds
    (λ d, with_sync d Failed (syncAttempts d) (syncedAt d)) q.

(** The configured ceiling on attempts. *)
Definition MAX_SYNC_ATTEMPTS : N := 3.

(** Modelled from the spec: the attributes of the aggregated metric the
    syncer posts (the aggregator is not among the files verified here; the
    attribute names are those of the [SessionMetric] built in
    [test-metrics.ts]).  The attributes that identify the session (agent,
    model, repository, branch) come from the session record and are left
    out. *)
Record SessionMetric : Type := {
  total_user_prompts : N;
  total_input_tokens : N;
  total_output_tokens : N;
  total_cache_read_input_tokens : N;
  total_cache_creation_tokens : N;
  total_tool_calls : N;
  successful_tool_calls : N;
  failed_tool_calls : N;
  files_created : N;
  files_modified : N;
  files_deleted : N;
  total_lines_added : N;
  total_lines_removed : N;
  tool_counts : gmap string N;
  tool_status : gmap string ToolStatus
}.

Definition sumN (l : list N) : N := foldr N.add 0 l.

(** Adds the count of one tool to the running per-tool counts. *)
Definition add_count (name : string) (n : N) (acc : gmap string N)
  : gmap string N :=
  <[name := default 0 (acc !! name) + n]> acc.

Definition add_status (name : string) (s : ToolStatus)
    (acc : gmap string ToolStatus) : gmap string ToolStatus :=
  let old := default {| success := 0; failure := 0 |} (acc !! name) in
  <[name := {| success := success old + success s;
               failure := failure old + failure s |}]> acc.

(** The total of a per-tool table. *)
Definition total_count (m : gmap string N) : N :=
  map_fold (λ _ n acc, n + acc) 0 m.

Definition total_success (m : gmap string ToolStatus) : N :=
  map_fold (λ _ s acc, success s + acc) 0 m.

Definition total_failure (m : gmap string ToolStatus) : N :=
  map_fold (λ _ s acc, failure s + acc) 0 m.

Definition count_ops (t : FileOpType) (ops : list FileOperation) : N :=
  N.of_nat (length (filter (λ o, op_type o = t) ops)).

Definition empty_metric : SessionMetric :=
  {| total_user_prompts := 0; total_input_tokens := 0; total_output_tokens := 0;
     total_cache_read_input_tokens := 0; total_cache_creation_tokens := 0;
     total_tool_calls := 0; successful_tool_calls := 0; failed_tool_calls := 0;
     files_created := 0; files_modified := 0; files_deleted := 0;
     total_lines_added := 0; total_lines_removed := 0;
     tool_counts := ∅; tool_status := ∅ |}.

(** Modelled from the spec: the step of the aggregator (not among the files
    verified here).  One delta is folded into the running summary: token
    fields, prompt counts, file operations and line counts are added; tool
    counts and tool statuses are added per tool, and the three tool totals
    are taken across the tools of the tables so obtained. *)
Definition add_delta (m : SessionMetric) (d : MetricDelta) : SessionMetric :=
  let counts := map_fold add_count (tool_counts m) (tools d) in
  let statuses := map_fold add_status (tool_status m) (toolStatus d) in
  let ops := fileOperations d in
  {| total_user_prompts :=
       total_user_prompts m + sumN (prompt_count <$> userPrompts d);
     total_input_tokens := total_input_tokens m + input (tokens d);
     total_output_tokens := total_output_tokens m + output (tokens d);
     total_cache_read_input_tokens :=
       total_cache_read_input_tokens m + cacheRead (tokens d);
     total_cache_creation_tokens :=
       total_cache_creation_tokens m + cacheCreation (tokens d);
     total_tool_calls := total_count counts;
     successful_tool_calls := total_success statuses;
     failed_tool_calls := total_failure statuses;
     files_created := files_created m + count_ops OpWrite ops;
     files_modified := files_modified m + count_ops OpEdit ops;
     files_deleted := files_deleted m + count_ops OpDelete ops;
     total_lines_added :=
       total_lines_added m + sumN ((λ o, default 0 (linesAdded o)) <$> ops);
     total_lines_removed :=
       total_lines_removed m + sumN ((λ o, default 0 (linesRemoved o)) <$> ops);
     tool_counts := counts;
     tool_status := statuses |}.

(** Modelled from the spec: the aggregator (its source is not among the
    files verified here), which folds the pending deltas of a session, in
    append order, into one summary. *)
Definition aggregate (pending : Queue) : SessionMetric :=
  foldl add_delta empty_metric pending.

(** Modelled from the spec: the response classes of the syncer (not among
    the files verified here): what the transport reports, as the syncer
    classifies it. *)
Inductive Response : Type :=
| Status2xx
| Status4xx
| Status5xx
| TransportFailure.

(** The session correlation context, as far as the syncer branches on it. *)
Record ProcessingContext : Type := {
  ctx_sessionId : string;
  ctx_agentSessionId : string;
  dryRun : bool
}.

Inductive SyncMessage : Type :=
| NothingToSync                 (* no pending deltas *)
| SyncedDeltas (n : nat)        (* the aggregate of n deltas was delivered *)
| Rejected (n : nat)            (* client error: n deltas failed *)
| WillRetry (n : nat).          (* server or transport error *)

(** Modelled from the spec: the result of [sync] (the syncer is not among
    the files verified here), without [processorResults], about whose content
    the specification is silent. *)
Record SyncResult : Type := {
  sync_success : bool;
  sync_message : SyncMessage
}.

(** The queue files, by session id. *)
Abbreviation Store := (gmap string (list MetricDelta)) (only parsing).

Definition queue_of (st : Store) (sid : string) : Queue :=
  default [] (st !! sid).

(** What one invocation of [sync] leaves behind: its result, the queue
    files, and the metrics it handed to the transport, in order. *)
Record SyncOutcome : Type := {
  result : SyncResult;
  store : gmap string (list MetricDelta);
  calls : list SessionMetric
}.

(** Modelled from the spec: the retry ceiling of the syncer (not among the
    files verified here).  After a retryable failure the records that
    reached the ceiling fail. *)
Definition retire_exhausted (recordIds : list string) (q : Queue) : Queue :=
  update_matching recordIds
    (λ d, if MAX_SYNC_ATTEMPTS <=? syncAttempts d
          then with_sync d Failed (syncAttempts d) (syncedAt d) else d) q.

(** Modelled from the spec: [sync(sessionId, context)] of the session syncer
    (its source is not among the files verified here, only its integration
    test is).  Nothing pending: success, no call.  Otherwise one call with the
    aggregate of the pending deltas, through the remote transport or, in a
    dry run, through a no-op transport that reports success; then the queue
    is reconciled: 2xx marks the contributing deltas synced, 4xx marks them
    failed, 5xx or a transport failure counts the attempt and fails the
    deltas that reached the ceiling.  Every attempt is counted.  The success
    flag of a failed attempt is not fixed by the specification and is
    [false] here. *)
Definition sync (transport : SessionMetric → Response) (clock : Z)
    (st : Store) (sid : string) (context : ProcessingContext) : SyncOutcome :=
  let q := queue_of st sid in
  let pending := listPending q in
  match pending with
  | [] =>
      {| result := {| sync_success := true; sync_message := NothingToSync |};
         store := st; calls := [] |}
  | _ =>
      let metric := aggregate pending in
      let send := if dryRun context then (λ _, Status2xx) else transport in
      let ids := recordId <$> pending in
      let n := length pending in
      match send metric with
      | Status2xx =>
          {| result := {| sync_success := true; sync_message := SyncedDeltas n |};
             store := <[sid := markSynced ids clock q]> st;
             calls := [metric] |}
      | Status4xx =>
          {| result := {| sync_success := false; sync_message := Rejected n |};
             store := <[sid := markFailed ids (markRetry ids q)]> st;
             calls := [metric] |}
      | Status5xx | TransportFailure =>
          {| result := {| sync_success := false; sync_message := WillRetry n |};
             store := <[sid := retire_exhausted ids (markRetry ids q)]> st;
             calls := [metric] |}
      end
  end.

(** One move of a queue store: a delta is appended to a session's queue, or
    a session is synced. *)
Inductive store_step : Store → Store → Prop :=
| step_append st sid delta :
    store_step st (<[sid := append delta (queue_of st sid)]> st)
| step_sync transport clock st sid context :
    store_step st (store (sync transport clock st sid context)).

(** The stores that the pipeline can build from no queue at all. *)
Definition reachable (st : Store) : Prop := rtc store_step ∅ st.

(** The data-model rule on one record: [syncedAt] is there exactly when the
    record is synced. *)
Definition syncedAt_iff_synced (d : MetricDelta) : Prop :=
  is_Some (syncedAt d) ↔ syncStatus d = Synced.

(** The invariant of a queue store: in every queue the record ids are
    pairwise distinct and every record obeys the rule on [syncedAt]. *)
Definition store_ok (st : Store) : Prop :=
  ∀ sid q, st !! sid = Some q →
    NoDup (recordId <$> q) ∧ Forall syncedAt_iff_synced q.

(** *** A sample session: two deltas with 500 and 300 input tokens *)

Definition sample_delta (rid : string) (time : Z) (tok_in tok_out : N)
    (tool : string) : MetricDelta :=
  {| recordId := rid; sessionId := "test-syncer-metrics";
     agentSessionId := "test-session-1"; timestamp := time;
     tokens := {| input := tok_in; output := tok_out;
                  cacheRead := 0; cacheCreation := 0 |};
     tools := {[ tool := 1 ]};
     toolStatus := {[ tool := {| success := 1; failure := 0 |} ]};
     fileOperations := [];
     models := ["anthropic/claude-sonnet-4-6"];
     userPrompts := [];
     syncStatus := Pending; syncAttempts := 0; syncedAt := None |}.

Definition sample_store_1 : Store :=
  <["test-syncer-metrics" :=
      append (sample_delta "delta-1" 1700000000000 500 250 "write")
             (queue_of ∅ "test-syncer-metrics")]> ∅.

Definition sample_store : Store :=
  <["test-syncer-metrics" :=
      append (sample_delta "delta-2" 1700000001000 300 150 "read")
             (queue_of sample_store_1 "test-syncer-metrics")]> sample_store_1.

Definition sample_context : ProcessingContext :=
  {| ctx_sessionId := "test-syncer-metrics";
     ctx_agentSessionId := "test-session-1"; dryRun := false |}.

(** A remote end that accepts every metric. *)
Definition accepting : SessionMetric → Response := λ _, Status2xx.

End Sync.

(** ** String methods of the language used by the plugins *)
Module JSString.

(** [s.startsWith(p)]. *)
Fixpoint startsWith (s p : string) : bool :=
  match p, s with
  | EmptyString, _ => true
  | String a p', String b s' => Ascii.eqb a b && startsWith s' p'
  | String _ _, EmptyString => false
  end.

(** [s.includes(sub)]: [sub] starts at some position of [s]. *)
Fixpoint includes (s sub : string) : bool :=
  startsWith s sub
  || match s with
     | String _ s' => includes s' sub
     | EmptyString => false
     end.

(** [s.endsWith(suf)]: [suf] is [s] from some position on. *)
Fixpoint endsWith (s suf : string) : bool :=
  String.eqb s suf
  || match s with
     | String _ s' => endsWith s' suf
     | EmptyString => false
     end.

(** [s.replace(/\/$/, '')]: one slash at the very end is removed. *)
Fixpoint drop_final_slash (s : string) : string :=
  match s with
  | EmptyString => EmptyString
  | String a EmptyString => if Ascii.eqb a "/" then EmptyString else s
  | String a s' => String a (drop_final_slash s')
  end.

(** [s.split(sep)] for a one-character separator; the empty string splits
    into one empty piece. *)
Fixpoint split (sep : ascii) (s : string) : list string :=
  match s with
  | EmptyString => [EmptyString]
  | String a s' =>
      if Ascii.eqb a sep then EmptyString :: split sep s'
      else match split sep s' with
           | piece :: pieces => String a piece :: pieces
           | [] => [String a EmptyString]
           end
  end.

(** [l.join(sep)]. *)
Definition join (sep : string) (l : list string) : string := String.concat sep l.

(** [l.indexOf(x)]; [None] is [-1]. *)
Definition indexOf (l : list string) (x : string) : option nat :=
  fst <$> list_find (λ y, y = x) l.

(** [l.filter((x, i) => keep i x)], the index counted from [i]. *)
Fixpoint filter_from {A} (i : nat) (keep : nat → A → bool) (l : list A) : list A :=
  match l with
  | [] => []
  | x :: l' =>
      if keep i x then x :: filter_from (S i) keep l'
      else filter_from (S i) keep l'
  end.

Definition filteri {A} (keep : nat → A → bool) (l : list A) : list A :=
  filter_from 0 keep l.

(** [l.some((x, i) => p i x)], the index counted from [i]. *)
Fixpoint some_from {A} (i : nat) (p : nat → A → bool) (l : list A) : bool :=
  match l with
  | [] => false
  | x :: l' => p i x || some_from (S i) p l'
  end.

End JSString.


(** ** codemie-code.plugin.ts: the helpers of the lifecycle hooks *)
Module CodeMiePlugin.
Import JS JSString.

Definition OPENCODE_SUBCOMMANDS : list string :=
  ["run"; "chat"; "config"; "init"; "help"; "version"].

(** [region?.startsWith(p)]. *)
Definition region_startsWith (region : option string) (p : string) : bool :=
  match region with
  | Some r => startsWith r p
  | None => false
  end.

Definition toBedrockModelId (modelId : string) (region : option string) : string :=
  if includes modelId "anthropic." then modelId
  else
    let regionPrefix :=
      if region_startsWith region "eu" then "eu"
      else if region_startsWith region "ap" then "ap"
      else "us" in
    regionPrefix +:+ ".anthropic." +:+ modelId +:+ "-v1:0".

Definition determineActiveProvider (provider : option string) : string :=
  if bool_decide (provider = Some "ollama") then "ollama"
  else if bool_decide (provider = Some "bedrock") then "amazon-bedrock"
  else "codemie-proxy".

Definition resolveOllamaBaseUrl (baseUrl : string) (provider : option string)
  : string :=
  if negb (bool_decide (provider = Some "ollama")) then "http://localhost:11434/v1"
  else if endsWith baseUrl "/v1" || includes baseUrl "/v1/" then baseUrl
  else drop_final_slash baseUrl +:+ "/v1".

(** The argument of [buildOpenCodeConfig]; [timeout] is a number of
    milliseconds, [providerOptions] is untyped in the source. *)
Record ConfigParams : Type := {
  proxyBaseUrl : option string;
  ollamaBaseUrl : string;
  activeProvider : string;
  modelId : string;
  timeout : Z;
  providerOptions : option json;
  allModels : gmap string json
}.

(** [...(cond && { key: value })] inside an object literal. *)
Definition spread_if (cond : bool) (key : string) (value : json)
  : gmap string json :=
  if cond then {[ key := value ]} else ∅.

Definition option_truthy (v : option json) : bool :=
  match v with
  | Some x => truthy x
  | None => false
  end.

Definition buildOpenCodeConfig (params : ConfigParams) : json :=
  JObj {[
    "enabled_providers" :=
      JArr [JStr "codemie-proxy"; JStr "ollama"; JStr "amazon-bedrock"];
    "share" := JStr "disabled";
    "provider" :=
      JObj (<["ollama" :=
               JObj {[ "npm" := JStr "@ai-sdk/openai-compatible";
                       "name" := JStr "Ollama";
                       "options" :=
                         JObj {[ "baseURL" := JStr (ollamaBaseUrl params +:+ "/");
                                 "apiKey" := JStr "ollama";
                                 "timeout" := JNum (timeout params) ]} ]}]>
              (spread_if (truthy_str (proxyBaseUrl params)) "codemie-proxy"
                 (JObj {[ "npm" := JStr "@ai-sdk/openai-compatible";
                          "name" := JStr "CodeMie SSO";
                          "options" :=
                            JObj (spread_if
                                    (option_truthy
                                       (opt_chain (providerOptions params) "headers"))
                                    "headers"
                                    (default JNull
                                       (opt_chain (providerOptions params) "headers"))
                                  ∪ {[ "baseURL" :=
                                         JStr (default EmptyString (proxyBaseUrl params)
                                               +:+ "/");
                                       "apiKey" := JStr "proxy-handled";
                                       "timeout" := JNum (timeout params) ]});
                          "models" := JObj (allModels params) ]})));
    "model" := JStr (activeProvider params +:+ "/" +:+ modelId params)
  ]}.

(** The part of [beforeRun] that derives the configuration from the
    provider, the proxy URL and the model: [baseUrl] is
    [env.CODEMIE_BASE_URL], which [beforeRun] has found non-empty, [region]
    is [env.AWS_REGION || env.CODEMIE_AWS_REGION], [modelConfigId] is the
    [id] of the model configuration selected. *)
Definition beforeRun_config (provider : option string) (baseUrl : string)
    (modelConfigId : string) (region : option string) (timeout : Z)
    (providerOptions : option json) (allModels : gmap string json) : json :=
  let isBedrock := bool_decide (provider = Some "bedrock") in
  let proxyBaseUrl :=
    if negb (bool_decide (provider = Some "ollama")) && negb isBedrock
    then Some baseUrl else None in
  let ollamaBaseUrl := resolveOllamaBaseUrl baseUrl provider in
  let activeProvider := determineActiveProvider provider in
  let modelId :=
    if isBedrock then toBedrockModelId modelConfigId region else modelConfigId in
  buildOpenCodeConfig
    {| proxyBaseUrl := proxyBaseUrl; ollamaBaseUrl := ollamaBaseUrl;
       activeProvider := activeProvider; modelId := modelId;
       timeout := timeout; providerOptions := providerOptions;
       allModels := allModels |}.

(** The filter of [enrichArgs]: the task flag and its value go, and so do
    [-m], [--message] and the argument that follows either. *)
Definition keep_other_arg (args : list string) (taskIndex : nat)
    (i : nat) (arg : string) : bool :=
  if (i =? taskIndex)%nat || (i =? taskIndex + 1)%nat then false
  else if String.eqb arg "-m" || String.eqb arg "--message" then false
  else if (0 <? i)%nat
          && bool_decide (args !! (i - 1)%nat = Some "-m"
                          ∨ args !! (i - 1)%nat = Some "--message") then false
  else true.

(** [lifecycle.enrichArgs]. *)
Definition enrichArgs (args : list string) : list string :=
  if match args with
     | first :: _ => bool_decide (first ∈ OPENCODE_SUBCOMMANDS)
     | [] => false
     end
  then args
  else
    match indexOf args "--task" with
    | Some taskIndex =>
        if (taskIndex + 1 <? length args)%nat then
          let taskValue := default EmptyString (args !! (taskIndex + 1)%nat) in
          let otherArgs := filteri (keep_other_arg args taskIndex) args in
          "run" :: (otherArgs ++ [taskValue])%list
        else args
    | None => args
    end.

(** [getOpenCodeStorageBase]; [codemieHome] is what [getCodemieHome()]
    returns. *)
Definition getOpenCodeStorageBase (h : Paths.Host) (codemieHome : string)
  : string :=
  Paths.path_join h [codemieHome; "opencode-storage"].

(** The host with one environment variable set, as
    [env.XDG_DATA_HOME = ...] in [beforeRun] and
    [process.env.OPENCODE_STORAGE_PATH = ...] in [onSessionEnd] do. *)
Definition with_env (h : Paths.Host) (name value : string) : Paths.Host :=
  {| Paths.path_join := Paths.path_join h;
     Paths.path_dirname := Paths.path_dirname h;
     Paths.existsSync := Paths.existsSync h;
     Paths.readFile := Paths.readFile h;
     Paths.env := λ k, if String.eqb k name then Some value else Paths.env h k;
     Paths.platform := Paths.platform h;
     Paths.homedir := Paths.homedir h |}.

(** The storage path [onSessionEnd] expects. *)
Definition expectedStoragePath (h : Paths.Host) (codemieHome : string) : string :=
  Paths.path_join h [getOpenCodeStorageBase h codemieHome; "opencode"; "storage"].

(** The URL carries the [/v1] segment [resolveOllamaBaseUrl] looks for. *)
Definition has_v1 (url : string) : bool :=
  endsWith url "/v1" || includes url "/v1/".

(** The first argument is one of the subcommands OpenCode owns. *)
Definition starts_with_subcommand (args : list string) : bool :=
  match args with
  | first :: _ => bool_decide (first ∈ OPENCODE_SUBCOMMANDS)
  | [] => false
  end.

End CodeMiePlugin.

(** ** gemini.plugin.ts *)
Module GeminiPlugin.
Import JS JSString.

(** [args.some((arg, idx) => (arg === '-m' || arg === '--model') && idx < args.length - 1)]. *)
Definition hasModelArg (args : list string) : bool :=
  some_from 0
    (λ idx arg, (String.eqb arg "-m" || String.eqb arg "--model")
                && (idx + 1 <? length args)%nat) args.

(** [lifecycle.enrichArgs]; [model] is [config.model]. *)
Definition enrichArgs (args : list string) (model : option string) : list string :=
  if negb (hasModelArg args) && truthy_str model
  then "-m" :: default EmptyString model :: args
  else args.

End GeminiPlugin.


(** ** Nested reads in a JSON value *)
Module JsonPath.
Import JS.

(** [v.k1.k2...] through own keys of objects; [None] when a step is missing
    or meets a value that is not an object. *)
Fixpoint path_get (v : json) (keys : list string) : option json :=
  match keys with
  | [] => Some v
  | k :: rest =>
      match v with
      | JObj m => m !! k ≫= λ v', path_get v' rest
      | _ => None
      end
  end.

End JsonPath.


(** ** Sample hosts for the storage paths *)
Module StorageSamples.
Import JS Paths.

(** A Linux host with the default storage root, its three trees and the
    database beside it. *)
Definition default_root_host : Host :=
  linux_host ["/home/dev/.local/share/opencode/storage";
              "/home/dev/.local/share/opencode/storage/session";
              "/home/dev/.local/share/opencode/storage/message";
              "/home/dev/.local/share/opencode/storage/part";
              "/home/dev/.local/share/opencode/opencode.db"] [].

(** A Linux host on which only the storage root configured for the
    whitelabel binary exists. *)
Definition codemie_root_host : Host :=
  linux_host ["/home/dev/.codemie/opencode-storage/opencode/storage"] [].

End StorageSamples.


(** ** The readers: what the loops keep, and a sample session table *)
Module ReaderSamples.
Import JS SqliteReader.

(** The message is the assistant variant. *)
Definition is_assistant (m : OpenCodeMessage) : bool :=
  match m with
  | AssistantMessage _ _ _ _ _ _ _ => true
  | UserMessage _ _ _ => false
  end.

(** The parts that the rows filed under the message id [k] give, in row
    order: a row counts when its payload parses. *)
Definition parts_for (rt : Runtime) (k : string) (rows : list PartRow)
  : list (gmap string json) :=
  omap (λ row, if bool_decide (prow_message_id row = k)
               then part_of_row row <$> value (JSON_parse rt (prow_data row))
               else None) rows.

(** Three rows of the [session] table: a recent session in [/work/app/], a
    session without creation time and directory, and a session older than
    thirty days. *)
Definition sample_session_rows : list SessionRow :=
  [ {| srow_id := "ses_new"; srow_project_id := "prj_1"; srow_slug := "new";
       srow_directory := Some "/work/app/"; srow_title := "New";
       srow_version := "1.0.0";
       srow_time_created := Some 1699999000000;
       srow_time_updated := Some 1699999500000 |};
    {| srow_id := "ses_bare"; srow_project_id := "prj_1"; srow_slug := "bare";
       srow_directory := None; srow_title := "Bare";
       srow_version := "1.0.0";
       srow_time_created := None; srow_time_updated := None |};
    {| srow_id := "ses_old"; srow_project_id := "prj_1"; srow_slug := "old";
       srow_directory := Some "/work/app"; srow_title := "Old";
       srow_version := "1.0.0";
       srow_time_created := Some 1600000000000;
       srow_time_updated := Some 1600000000000 |} ].

(** The sample run time with that session table. *)
Definition session_runtime : Runtime :=
  {| exec := exec sample_runtime;
     JSON_parse := JSON_parse sample_runtime;
     session_rows := λ _, Ok sample_session_rows;
     message_rows := message_rows sample_runtime;
     part_rows := part_rows sample_runtime;
     CoerceToNumber := CoerceToNumber sample_runtime;
     now := now sample_runtime |}.

(** A [part] table with a row whose message id is a member name of
    [Object.prototype] and whose payload is well formed. *)
Definition prototype_part_rows : list PartRow :=
  [ {| prow_id := "prt_1"; prow_message_id := "msg_1";
       prow_session_id := "ses_1"; prow_data := payload_part_text |};
    {| prow_id := "prt_9"; prow_message_id := "constructor";
       prow_session_id := "ses_1"; prow_data := payload_part_text |} ].

Definition prototype_runtime : Runtime :=
  {| exec := exec sample_runtime;
     JSON_parse := JSON_parse sample_runtime;
     session_rows := session_rows sample_runtime;
     message_rows := message_rows sample_runtime;
     part_rows := λ _, Ok prototype_part_rows;
     CoerceToNumber := CoerceToNumber sample_runtime;
     now := now sample_runtime |}.

End ReaderSamples.


(** ** request-sanitizer.plugin.ts *)
Module Sanitizer.
Import JS JSString.

(** [JSON.parse], [JSON.stringify] on a value that was parsed, and the
    conversions between a [Buffer], held as its bytes, and text in UTF-8. *)
Record Codec : Type := {
  JSON_parse : string → Res json;
  JSON_stringify : json → string;
  Buffer_toString : string → string;     (* buf.toString('utf-8') *)
  Buffer_from : string → string          (* Buffer.from(text, 'utf-8') *)
}.

(** The fields of [ProxyContext] that [onRequest] reads and writes: the
    body, [null] or a [Buffer], and the headers, with strings as values. *)
Record ProxyContext : Type := {
  requestBody : option string;
  headers : gmap string string
}.

Definition UNSUPPORTED_PARAMS : list string :=
  ["reasoningSummary"; "reasoning_summary"; "reasoning"].

Definition ALLOWED_AGENTS : list string := ["codemie-code"; "codemie-opencode"].

(** [createInterceptor]: the interceptor is built for the allowed agents
    only; [`${undefined}`] reads [undefined]. *)
Definition createInterceptor (clientType : option string) : Res unit :=
  if negb (truthy_str clientType)
     || negb (bool_decide (default EmptyString clientType ∈ ALLOWED_AGENTS))
  then Throw ("Plugin disabled for agent: " +:+ default "undefined" clientType)
  else Ok tt.

(** [param in body] for a name that is neither an index, nor [length], nor
    a method of [Array.prototype]: an object answers for its own keys and
    for the names it inherits, an array has no such name, and any other
    value makes the operator throw a [TypeError]. *)
Definition js_in (param : string) (body : json) : Res bool :=
  match body with
  | JObj m =>
      Ok (bool_decide (is_Some (m !! param)) || bool_decide (param ∈ Object_prototype_keys))
  | JArr _ => Ok (bool_decide (param ∈ Object_prototype_keys))
  | _ => Throw "TypeError: Cannot use 'in' operator"
  end.

(** [delete body[param]]. *)
Definition js_delete (body : json) (param : string) : json :=
  match body with
  | JObj m => JObj (delete param m)
  | _ => body
  end.

(** The body of the loop over [UNSUPPORTED_PARAMS], on the parsed body and
    the names stripped so far. *)
Definition strip_param (param : string) (st : json * list string)
  : M (json * list string) :=
  present ← lift (js_in param st.1);
  if present : bool then mret (js_delete st.1 param, (st.2 ++ [param])%list)
  else mret st.

Definition has_json_content_type (context : ProxyContext) : bool :=
  match headers context !! "content-type" with
  | Some v => includes v "application/json"
  | None => false
  end.

(** [onRequest]; the context it leaves is returned. *)
Definition onRequest (c : Codec) (context : ProxyContext) : M ProxyContext :=
  match requestBody context with
  | None => mret context
  | Some requestBody0 =>
      if negb (has_json_content_type context) then mret context
      else
        try_catch
          (let bodyStr := Buffer_toString c requestBody0 in
           body ← lift (JSON_parse c bodyStr);
           st ← for_of UNSUPPORTED_PARAMS strip_param (body, []);
           if (0 <? length st.2)%nat then
             let newBodyStr := JSON_stringify c st.1 in
             let newBody := Buffer_from c newBodyStr in
             _ ← debug ("[request-sanitizer] Stripped unsupported params: "
                         +:+ join ", " st.2);
             mret {| requestBody := Some newBody;
                     headers := <["content-length" := pretty (String.length newBody)]>
                                  (headers context) |}
           else mret context)
          (λ _, mret context)
  end.

(** The names of [UNSUPPORTED_PARAMS] that are keys of an object, in the
    order of that list. *)
Definition present_params (m : gmap string json) : list string :=
  filter (λ p, is_Some (m !! p)) UNSUPPORTED_PARAMS.

(** An object without the keys of [UNSUPPORTED_PARAMS]. *)
Definition stripped (m : gmap string json) : gmap string json :=
  foldl (λ m' p, delete p m') m UNSUPPORTED_PARAMS.

(** What is parsed from the text of a buffer made from the serialisation
    of [v] is [v]. *)
Definition round_trip_on (c : Codec) (v : json) : Prop :=
  JSON_parse c (Buffer_toString c (Buffer_from c (JSON_stringify c v))) = Ok v.

(** A codec for worked examples: buffers hold their text, four texts are
    understood, and the objects written are those of the examples. *)
Definition body_with_reasoning : string :=
  "{" +:+ SqliteReader.quoted "model" +:+ ":" +:+ SqliteReader.quoted "gpt-5" +:+ ","
      +:+ SqliteReader.quoted "reasoning" +:+ ":{},"
      +:+ SqliteReader.quoted "reasoningSummary" +:+ ":" +:+ SqliteReader.quoted "auto" +:+ "}".

Definition body_plain : string :=
  "{" +:+ SqliteReader.quoted "model" +:+ ":" +:+ SqliteReader.quoted "gpt-5" +:+ "}".

Definition sample_codec : Codec :=
  {| JSON_parse := λ s,
       if String.eqb s body_with_reasoning then
         Ok (JObj {[ "model" := JStr "gpt-5"; "reasoning" := JObj ∅;
                     "reasoningSummary" := JStr "auto" ]})
       else if String.eqb s body_plain then
         Ok (JObj {[ "model" := JStr "gpt-5" ]})
       else if String.eqb s "[]" then Ok (JArr [])
       else if String.eqb s "42" then Ok (JNum 42)
       else Throw "SyntaxError: Unexpected token";
     JSON_stringify := λ v,
       match v with
       | JObj m => if bool_decide (is_Some (m !! "model")) then body_plain else "{}"
       | JArr _ => "[]"
       | _ => "null"
       end;
     Buffer_toString := id;
     Buffer_from := id |}.

Definition sample_request : ProxyContext :=
  {| requestBody := Some body_with_reasoning;
     headers := {[ "content-type" := "application/json; charset=utf-8";
                   "content-length" := "58" ]} |}.

(** A request whose body is the number 42. *)
Definition number_request : ProxyContext :=
  {| requestBody := Some "42";
     headers := {[ "content-type" := "application/json" ]} |}.

End Sanitizer.




(** ** The shell hooks plugin held in [SHELL_HOOKS_PLUGIN_SOURCE] *)
Module ShellHooks.
Import JS JSString.

Inductive HookEventName : Type :=
| PreToolUse | PostToolUse | UserPromptSubmit | PermissionRequest
| PreCompact | SessionStart | SessionEnd | Stop | Notification.

#[global] Instance HookEventName_eq_dec : EqDecision HookEventName.
Proof. solve_decision. Defined.

(** [HookConfig], [HookMatcherEntry] and [HooksConfig]; an optional field
    that is absent is [None], and [HooksConfig] answers
    [config.hooks?.[event]]. *)
Record HookConfig : Type := {
  hook_type : string;
  hook_command : option string;
  hook_timeout : option Z;       (* seconds *)
  hook_async : option bool
}.

Record HookMatcherEntry : Type := {
  matcher : option string;
  hooks : list HookConfig
}.

Definition HooksConfig : Type := HookEventName → option (list HookMatcherEntry).

(** The characters of the class [[|[\]{}()]]. *)
Definition regex_chars : list ascii :=
  ["|"; "["; "]"; "{"; "}"; "("; ")"]%char.

Fixpoint has_regex_char (s : string) : bool :=
  match s with
  | EmptyString => false
  | String a s' => bool_decide (a ∈ regex_chars) || has_regex_char s'
  end.

(** [matchesPattern]; [RegExp_test source text] is
    [new RegExp(source).test(text)], which throws when [source] is no
    regular expression.  Nothing else in the body throws, so the outer
    [catch] never runs. *)
Definition matchesPattern (RegExp_test : string → string → Res bool)
    (pattern toolName : string) : bool :=
  if negb (truthy_str (Some pattern)) || String.eqb pattern "*" then true
  else if has_regex_char pattern then
    match RegExp_test ("^(" +:+ pattern +:+ ")$") toolName with
    | Ok b => b
    | Throw _ => String.eqb pattern toolName
    end
  else String.eqb pattern toolName.

(** An element of the array [getMatchingCommands] returns; [timeout] is in
    milliseconds. *)
Record Command : Type := {
  command : string;
  timeout : Z;
  isAsync : bool
}.

(** [n || 60] on an optional number. *)
Definition or_60 (n : option Z) : Z :=
  match n with
  | Some 0 | None => 60
  | Some t => t
  end.

(** The body of the inner loop of [getMatchingCommands]. *)
Definition push_hook (result : list Command) (hook : HookConfig) : list Command :=
  if negb (String.eqb (hook_type hook) "command")
     || negb (truthy_str (hook_command hook))
  then result
  else (result ++ [{| command := default EmptyString (hook_command hook);
                      timeout := or_60 (hook_timeout hook) * 1000;
                      isAsync := bool_decide (hook_async hook = Some true) |}])%list.

Definition shouldMatch (RegExp_test : string → string → Res bool)
    (toolName : option string) (entry : HookMatcherEntry) : bool :=
  let pattern := if truthy_str (matcher entry)
                 then default EmptyString (matcher entry) else "*" in
  negb (truthy_str toolName)
  || matchesPattern RegExp_test pattern (default EmptyString toolName).

Definition getMatchingCommands (RegExp_test : string → string → Res bool)
    (config : HooksConfig) (event : HookEventName) (toolName : option string)
  : list Command :=
  match config event with
  | None | Some [] => []
  | Some matchers =>
      foldl (λ result entry,
               if negb (shouldMatch RegExp_test toolName entry) then result
               else foldl push_hook result (hooks entry))
            [] matchers
  end.

(** What [execCommand] returns. *)
Record ExecResult : Type := {
  stdout : string;
  stderr : string;
  exitCode : Z
}.

Record ParsedResponse : Type := {
  blocked : bool;
  reason : option string;
  updatedInput : option json;
  permissionDecision : option string;
  additionalContext : option string
}.

(** [{ blocked: false }]. *)
Definition not_blocked : ParsedResponse :=
  {| blocked := false; reason := None; updatedInput := None;
     permissionDecision := None; additionalContext := None |}.

(** [a || b] on values that may be [undefined]. *)
Definition or_undefined (a b : option json) : option json :=
  match a with
  | Some v => if truthy v then a else b
  | None => b
  end.

(** [typeof v === "object"]. *)
Definition typeof_object (v : json) : bool :=
  match v with
  | JNull | JArr _ | JObj _ => true
  | _ => false
  end.

Definition option_truthy (v : option json) : bool :=
  match v with
  | Some x => truthy x
  | None => false
  end.

Definition decisions : list string := ["allow"; "deny"; "ask"].

(** [decision && ["allow", "deny", "ask"].includes(decision)], with the
    decision when the test holds. *)
Definition known_decision (v : option json) : option string :=
  match v with
  | Some (JStr s) =>
      if truthy (JStr s) && bool_decide (s ∈ decisions) then Some s else None
  | _ => None
  end.

(** The line feed. *)
Definition LF : string := String (ascii_of_nat 10) EmptyString.

(** The body of the [try] block of [parseResponse], after [JSON.parse]; an
    [if] whose event does not apply is skipped. *)
Definition response_of_json (event : HookEventName) (json : json)
  : Res ParsedResponse :=
  r1 ← (if bool_decide (event = PreToolUse) then
          hookSpecificOutput ← get json "hookSpecificOutput";
          updatedInput0 ← get json "updatedInput";
          let updated :=
            or_undefined (opt_chain hookSpecificOutput "updatedInput") updatedInput0 in
          if option_truthy updated && typeof_object (default JNull updated) then
            mret (Some {| blocked := false; reason := None; updatedInput := updated;
                          permissionDecision := None; additionalContext := None |})
          else
            decision ← get json "decision";
            if typeof_object json && negb (option_truthy hookSpecificOutput)
               && negb (option_truthy decision) then
              mret (Some {| blocked := false; reason := None;
                            updatedInput := Some json;
                            permissionDecision := None; additionalContext := None |})
            else mret None
        else mret None);
  match r1 with
  | Some r => mret r
  | None =>
      r2 ← (if bool_decide (event = PermissionRequest) then
              hookSpecificOutput ← get json "hookSpecificOutput";
              permissionDecision0 ← get json "permissionDecision";
              let decision :=
                or_undefined (opt_chain hookSpecificOutput "permissionDecision")
                             permissionDecision0 in
              match known_decision decision with
              | Some d =>
                  mret (Some {| blocked := false; reason := None; updatedInput := None;
                                permissionDecision := Some d;
                                additionalContext := None |})
              | None =>
                  match json with
                  | JStr s =>
                      if bool_decide (s ∈ decisions) then
                        mret (Some {| blocked := false; reason := None;
                                      updatedInput := None;
                                      permissionDecision := Some s;
                                      additionalContext := None |})
                      else mret None
                  | _ => mret None
                  end
              end
            else mret None);
      match r2 with
      | Some r => mret r
      | None =>
          if bool_decide (event = PreCompact) then
            additionalContext0 ← get json "additionalContext";
            context0 ← get json "context";
            match or_undefined additionalContext0 context0 with
            | Some (JStr context) =>
                mret {| blocked := false; reason := None; updatedInput := None;
                        permissionDecision := None;
                        additionalContext := Some context |}
            | _ => mret not_blocked
            end
          else mret not_blocked
      end
  end.

Definition parseResponse (JSON_parse : string → Res json)
    (result : ExecResult) (event : HookEventName) : ParsedResponse :=
  if exitCode result =? 2 then
    let reason :=
      join LF (filter (λ s, s ≠ EmptyString) [stderr result; trim (stdout result)]) in
    {| blocked := true;
       reason := Some (if truthy_str (Some reason) then reason
                       else "Hook blocked execution (exit code 2)");
       updatedInput := None; permissionDecision := None;
       additionalContext := None |}
  else if negb (exitCode result =? 0) then not_blocked
  else
    let trimmed := trim (stdout result) in
    if negb (truthy_str (Some trimmed)) then not_blocked
    else
      match JSON_parse trimmed ≫= response_of_json event with
      | Ok r => r
      | Throw _ => not_blocked
      end.

(** The input of [tool.execute.before]: the tool and its arguments. *)
Record ToolInput : Type := {
  tool : string;
  args : json
}.

(** The loop of [tool.execute.before]; [run cmd] is what [execCommand]
    returns for the command, the payload and the environment of the call.
    With the outcome come the commands started, in order. *)
Fixpoint before_loop (JSON_parse : string → Res json) (run : Command → ExecResult)
    (commands : list Command) (mergedInput : ToolInput)
  : Res ToolInput * list string :=
  match commands with
  | [] => (Ok mergedInput, [])
  | cmd :: rest =>
      if isAsync cmd then
        let r := before_loop JSON_parse run rest mergedInput in
        (r.1, command cmd :: r.2)
      else
        let parsed := parseResponse JSON_parse (run cmd) PreToolUse in
        if blocked parsed then
          (Throw (if truthy_str (reason parsed)
                  then default EmptyString (reason parsed)
                  else "Hook blocked tool execution"),
           [command cmd])
        else
          let mergedInput' :=
            if option_truthy (updatedInput parsed) then
              {| tool := tool mergedInput;
                 args := JObj (own_props (default JNull (updatedInput parsed))
                               ∪ own_props (args mergedInput)) |}
            else mergedInput in
          let r := before_loop JSON_parse run rest mergedInput' in
          (r.1, command cmd :: r.2)
  end.

(** [tool.execute.before]. *)
Definition before (RegExp_test : string → string → Res bool)
    (JSON_parse : string → Res json) (config : HooksConfig)
    (run : Command → ExecResult) (input : ToolInput)
  : Res ToolInput * list string :=
  match getMatchingCommands RegExp_test config PreToolUse (Some (tool input)) with
  | [] => (Ok input, [])
  | commands => before_loop JSON_parse run commands input
  end.

(** The loop of [permission.ask]: [Some b] stands for
    [{ ...input, allowed: b }], [None] for the input returned as it came. *)
Fixpoint ask_loop (JSON_parse : string → Res json) (run : Command → ExecResult)
    (commands : list Command) : option bool * list string :=
  match commands with
  | [] => (None, [])
  | cmd :: rest =>
      if isAsync cmd then
        let r := ask_loop JSON_parse run rest in (r.1, command cmd :: r.2)
      else
        let parsed := parseResponse JSON_parse (run cmd) PermissionRequest in
        if bool_decide (permissionDecision parsed = Some "allow")
        then (Some true, [command cmd])
        else if bool_decide (permissionDecision parsed = Some "deny")
        then (Some false, [command cmd])
        else let r := ask_loop JSON_parse run rest in (r.1, command cmd :: r.2)
  end.

(** [permission.ask]. *)
Definition ask (RegExp_test : string → string → Res bool)
    (JSON_parse : string → Res json) (config : HooksConfig)
    (run : Command → ExecResult) (input : ToolInput)
  : option bool * list string :=
  match getMatchingCommands RegExp_test config PermissionRequest (Some (tool input)) with
  | [] => (None, [])
  | commands => ask_loop JSON_parse run commands
  end.

(** *** A sample configuration *)

(** Two entries for [PreToolUse]: a guard for [bash] and [edit], and a
    logger for every tool that runs detached. *)
Definition sample_hooks : HooksConfig :=
  λ event,
    match event with
    | PreToolUse =>
        Some [ {| matcher := Some "bash|edit";
                  hooks := [ {| hook_type := "command";
                                hook_command := Some "guard.sh";
                                hook_timeout := Some 5; hook_async := None |};
                             {| hook_type := "prompt";
                                hook_command := None;
                                hook_timeout := None; hook_async := None |} ] |};
               {| matcher := None;
                  hooks := [ {| hook_type := "command";
                                hook_command := Some "log.sh";
                                hook_timeout := None;
                                hook_async := Some true |} ] |} ]
    | PermissionRequest =>
        Some [ {| matcher := None;
                  hooks := [ {| hook_type := "command";
                                hook_command := Some "guard.sh";
                                hook_timeout := None; hook_async := None |} ] |} ]
    | _ => None
    end.

(** A regular-expression engine that knows the one expression of the
    sample. *)
Definition sample_regexp (source text : string) : Res bool :=
  if String.eqb source "^(bash|edit)$"
  then Ok (String.eqb text "bash" || String.eqb text "edit")
  else Throw "SyntaxError: Invalid regular expression".

(** A guard that refuses with exit code 2. *)
Definition refusing (cmd : Command) : ExecResult :=
  if String.eqb (command cmd) "guard.sh"
  then {| stdout := EmptyString; stderr := "rm is not allowed"; exitCode := 2 |}
  else {| stdout := EmptyString; stderr := EmptyString; exitCode := 0 |}.

(** Commands that all end with exit code 1. *)
Definition failing (cmd : Command) : ExecResult :=
  {| stdout := EmptyString; stderr := "boom"; exitCode := 1 |}.

Definition no_json (s : string) : Res json := Throw "SyntaxError".

End ShellHooks.


(** ** opencode-model-configs.ts *)
Module ModelConfigs.
Import JS JSString.

Section configs.
(** The type of the prices, decimal numbers of which the code writes zero
    only. *)
Context {Price : Type} (zero : Price).

Record Modalities : Type := { input : list string; output : list string }.

Record Cost : Type := {
  cost_input : Price;
  cost_output : Price;
  cost_cache_read : option Price
}.

Record Limit : Type := { context : Z; limit_output : Z }.

Record ProviderOptions : Type := {
  headers : option (gmap string string);
  timeout : option Z
}.

Record OpenCodeModelConfig : Type := {
  id : string;
  name : string;
  displayName : option string;
  family : string;
  tool_call : bool;
  reasoning : bool;
  attachment : bool;
  temperature : bool;
  structured_output : option bool;
  modalities : Modalities;
  knowledge : string;
  release_date : string;
  last_updated : string;
  open_weights : bool;
  cost : Cost;
  limit : Limit;
  providerOptions : option ProviderOptions
}.

(** The fields a [Partial<OpenCodeModelConfig>] of [MODEL_FAMILY_DEFAULTS]
    may hold. *)
Record FamilyDefaults : Type := {
  fd_family : option string;
  fd_reasoning : option bool;
  fd_attachment : option bool;
  fd_temperature : option bool;
  fd_structured_output : option bool;
  fd_modalities : option Modalities;
  fd_limit : option Limit
}.

(** [{}]. *)
Definition no_defaults : FamilyDefaults :=
  {| fd_family := None; fd_reasoning := None; fd_attachment := None;
     fd_temperature := None; fd_structured_output := None;
     fd_modalities := None; fd_limit := None |}.

(** The entries of [MODEL_FAMILY_DEFAULTS], in the order of its keys. *)
Definition MODEL_FAMILY_DEFAULTS : list (string * FamilyDefaults) :=
  [ ("claude",
     {| fd_family := Some "claude-4"; fd_reasoning := Some true;
        fd_attachment := Some true; fd_temperature := Some true;
        fd_structured_output := Some true;
        fd_modalities := Some {| input := ["text"; "image"]; output := ["text"] |};
        fd_limit := Some {| context := 200000; limit_output := 16384 |} |});
    ("gemini",
     {| fd_family := Some "gemini-2"; fd_reasoning := Some true;
        fd_attachment := Some true; fd_temperature := Some true;
        fd_structured_output := Some true;
        fd_modalities :=
          Some {| input := ["text"; "image"; "audio"; "video"]; output := ["text"] |};
        fd_limit := Some {| context := 1048576; limit_output := 65536 |} |});
    ("gpt",
     {| fd_family := Some "gpt-5"; fd_reasoning := Some true;
        fd_attachment := Some true; fd_temperature := Some false;
        fd_structured_output := None;
        fd_modalities := Some {| input := ["text"; "image"]; output := ["text"] |};
        fd_limit := Some {| context := 400000; limit_output := 128000 |} |});
    ("qwen",
     {| fd_family := Some "qwen3"; fd_reasoning := Some true;
        fd_attachment := Some false; fd_temperature := Some true;
        fd_structured_output := None;
        fd_modalities := Some {| input := ["text"]; output := ["text"] |};
        fd_limit := Some {| context := 262000; limit_output := 65536 |} |}) ].

(** [Object.keys(MODEL_FAMILY_DEFAULTS).find(prefix => modelId.startsWith(prefix))]
    and the entry read under the key found, [{}] when none is. *)
Definition familyDefaults_of (modelId : string) : FamilyDefaults :=
  match list_find (λ kv, startsWith modelId kv.1 = true) MODEL_FAMILY_DEFAULTS with
  | Some (_, (familyPrefix, defaults)) =>
      if truthy_str (Some familyPrefix) then defaults else no_defaults
  | None => no_defaults
  end.

(** [familyDefaults.family || modelId.split('-').slice(0, 2).join('-') || modelId]. *)
Definition family_of (familyDefaults : FamilyDefaults) (modelId : string) : string :=
  if truthy_str (fd_family familyDefaults)
  then default EmptyString (fd_family familyDefaults)
  else
    let twoSegments := join "-" (take 2 (split "-" modelId)) in
    if truthy_str (Some twoSegments) then twoSegments else modelId.

(** [getModelConfig]; [table] is [OPENCODE_MODEL_CONFIGS], [today] the date
    of the day.  The table is a plain object: for a name it inherits from
    [Object.prototype] the inherited member is returned in place of a
    configuration, which [None] stands for. *)
Definition getModelConfig (table : gmap string OpenCodeModelConfig)
    (today : string) (modelId : string) : option OpenCodeModelConfig :=
  match table !! modelId with
  | Some config => Some config
  | None =>
      if bool_decide (modelId ∈ Object_prototype_keys) then None
      else
        let familyDefaults := familyDefaults_of modelId in
        let family := family_of familyDefaults modelId in
        Some {| id := modelId;
                name := modelId;
                displayName := Some modelId;
                family := family;
                tool_call := true;
                reasoning := default false (fd_reasoning familyDefaults);
                attachment := default false (fd_attachment familyDefaults);
                temperature := default true (fd_temperature familyDefaults);
                structured_output := fd_structured_output familyDefaults;
                modalities :=
                  default {| input := ["text"]; output := ["text"] |}
                          (fd_modalities familyDefaults);
                knowledge := today;
                release_date := today;
                last_updated := today;
                open_weights := false;
                cost := {| cost_input := zero; cost_output := zero;
                           cost_cache_read := None |};
                limit := default {| context := 128000; limit_output := 4096 |}
                                 (fd_limit familyDefaults);
                providerOptions := None |}
  end.

End configs.

End ModelConfigs.


(** * Properties *)

(** ** The log-and-exception monad *)
Module MonadFacts.
Import JS.

Lemma writes_ret {A} (a : A) : writes (mret a) (Ok a) [].
Proof. intros lg. by rewrite app_nil_r. Qed.

Lemma writes_lift {A} (r : Res A) : writes (lift r) r [].
Proof. intros lg. by rewrite app_nil_r. Qed.

Lemma writes_debug msg : writes (debug msg) (Ok tt) [msg].
Proof. by intros lg. Qed.

Lemma writes_throw {A} e : writes (@throw A e) (Throw e) [].
Proof. intros lg. by rewrite app_nil_r. Qed.

Lemma writes_bind {A B} (m : M A) (k : A → M B) a r w1 w2 :
  writes m (Ok a) w1 → writes (k a) r w2 →
  writes (m ≫= k) r (w1 ++ w2)%list.
Proof.
  intros Hm Hk lg. unfold mbind, M_bind, bind.
  by rewrite Hm, Hk, app_assoc.
Qed.

Lemma writes_bind_throw {A B} (m : M A) (k : A → M B) e w :
  writes m (Throw e) w → writes (m ≫= k) (Throw e) w.
Proof. intros Hm lg. unfold mbind, M_bind, bind. by rewrite Hm. Qed.

Lemma writes_try_ok {A} (body : M A) handler a w :
  writes body (Ok a) w → writes (try_catch body handler) (Ok a) w.
Proof. intros Hb lg. unfold try_catch. by rewrite Hb. Qed.

Lemma writes_try_throw {A} (body : M A) handler e r w1 w2 :
  writes body (Throw e) w1 → writes (handler e) r w2 →
  writes (try_catch body handler) r (w1 ++ w2)%list.
Proof.
  intros Hb Hh lg. unfold try_catch. by rewrite Hb, Hh, app_assoc.
Qed.

(** An outcome and its entries are determined by the computation. *)
Lemma writes_inj {A} (m : M A) r1 r2 w1 w2 :
  writes m r1 w1 → writes m r2 w2 → r1 = r2 ∧ w1 = w2.
Proof.
  intros H1 H2. specialize (H1 []). specialize (H2 []).
  rewrite H1 in H2. by inversion H2.
Qed.

End MonadFacts.

(** ** Storage layout detection and storage paths *)
Module PathsFacts.
Import JS Paths MonadFacts.

(** Reading the marker never throws and leaves the log alone. *)
Lemma readMigrationVersion_total (h : Host) (sp : string) :
  ∃ v, writes (readMigrationVersion h sp) (Ok v) [].
Proof.
  unfold readMigrationVersion.
  destruct (existsSync h _); [|eexists; apply writes_ret].
  destruct (readFile h (path_join h [sp; "migration"])) as [c|e] eqn:Hread.
  - eexists. apply writes_try_ok.
    apply (writes_bind _ _ c _ [] []); [apply writes_lift|apply writes_ret].
  - eexists. apply (writes_try_throw _ _ e _ [] []); [|apply writes_ret].
    apply writes_bind_throw, writes_lift.
Qed.

(** The layout the branches of [detectStorageLayout] select for a marker
    version and the three probes. *)
Lemma detectStorageLayout_writes (h : Host) (sp : string) v :
  writes (readMigrationVersion h sp) (Ok v) [] →
  ∃ r, writes (detectStorageLayout h sp) (Ok r) [] ∧ migrationVersion r = v ∧
    layout r =
      (if hasPostMigration h sp then
         if (1 <=? v) then PostMigration
         else if hasLegacy h sp then Mixed else PostMigration
       else if hasSqlite h sp then Sqlite
       else if hasLegacy h sp then Legacy else Unknown).
Proof.
  intros Hv. unfold detectStorageLayout.
  destruct (hasPostMigration h sp) eqn:Hpm, (1 <=? v) eqn:Hle,
    (hasLegacy h sp) eqn:Hleg, (hasSqlite h sp) eqn:Hdb; simpl;
    eexists; (split; [apply (writes_bind _ _ v _ [] []); [exact Hv|];
                      rewrite ?Hle; simpl; apply writes_ret | by simpl]).
Qed.

(** C4 (as amended).  [detectStorageLayout] always returns, and its layout
    follows the order of its branches: with a complete post-migration tree
    ([session/], [message/] and [part/]) the layout is [mixed] exactly when
    the legacy project directory is there too and the marker version is
    below 1, and [post-migration] otherwise, marker or not; without that
    tree the database file one directory above the root gives [sqlite],
    whether or not the legacy project directory is there; without both, the
    legacy project directory gives [legacy]; nothing found gives [unknown]. *)
Theorem detectStorageLayout_priority (h : Host) (sp : string) :
  ∃ r, writes (detectStorageLayout h sp) (Ok r) [] ∧
    (layout r = PostMigration ↔
       hasPostMigration h sp = true ∧
       (1 ≤ migrationVersion r ∨ hasLegacy h sp = false)) ∧
    (layout r = Mixed ↔
       hasPostMigration h sp = true ∧ hasLegacy h sp = true ∧
       migrationVersion r < 1) ∧
    (layout r = Sqlite ↔
       hasPostMigration h sp = false ∧ hasSqlite h sp = true) ∧
    (layout r = Legacy ↔
       hasPostMigration h sp = false ∧ hasSqlite h sp = false ∧
       hasLegacy h sp = true) ∧
    (layout r = Unknown ↔
       hasPostMigration h sp = false ∧ hasSqlite h sp = false ∧
       hasLegacy h sp = false).
Proof.
  destruct (readMigrationVersion_total h sp) as [v Hv].
  destruct (detectStorageLayout_writes h sp v Hv) as (r & Hr & Hver & Hlay).
  exists r. split; [exact Hr|]. rewrite Hlay, Hver. clear Hr Hlay Hver.
  destruct (hasPostMigration h sp), (hasLegacy h sp), (hasSqlite h sp),
    (Z.leb_spec 1 v); repeat split; intros; try discriminate;
    destruct_and?; try discriminate; try lia; auto;
    match goal with H : _ ∨ _ |- _ => destruct H; (lia || discriminate) end.
Qed.

(** C4 (as stated) fails.  Read as the decision list it gives, the stated
    order answers [legacy] for a root with the database file and the legacy
    project directory (its [sqlite] rule wants the legacy tree absent) and
    [unknown] for a complete post-migration tree without marker; the code
    answers [sqlite] and [post-migration]. *)
Lemma detectStorageLayout_stated_priority_fails :
  (∃ r, detectStorageLayout db_beside_legacy "/data/opencode/storage" [] = (Ok r, [])
        ∧ layout r = Sqlite
        ∧ layout_by_stated_priority (migrationVersion r)
            (hasPostMigration db_beside_legacy "/data/opencode/storage")
            (hasLegacy db_beside_legacy "/data/opencode/storage")
            (hasSqlite db_beside_legacy "/data/opencode/storage") = Legacy)
  ∧ (∃ r, detectStorageLayout bare_post_migration "/data/opencode/storage" [] = (Ok r, [])
        ∧ layout r = PostMigration
        ∧ layout_by_stated_priority (migrationVersion r)
            (hasPostMigration bare_post_migration "/data/opencode/storage")
            (hasLegacy bare_post_migration "/data/opencode/storage")
            (hasSqlite bare_post_migration "/data/opencode/storage") = Unknown).
Proof. split; eexists; (split; [vm_compute; reflexivity|]); by vm_compute. Qed.

(** C5.  With a marker file that cannot be read, or whose content does not
    parse as an integer, [detectStorageLayout] does not throw: it returns a
    classification whose migration version is 0, the layout being the one of
    a root without marker. *)
Theorem detectStorageLayout_marker_unusable (h : Host) (sp : string) :
  marker_unusable h sp →
  ∃ r, writes (detectStorageLayout h sp) (Ok r) [] ∧
    migrationVersion r = 0 ∧
    layout r =
      (if hasPostMigration h sp then
         if hasLegacy h sp then Mixed else PostMigration
       else if hasSqlite h sp then Sqlite
       else if hasLegacy h sp then Legacy else Unknown).
Proof.
  intros Hbad.
  assert (writes (readMigrationVersion h sp) (Ok 0) []) as Hv.
  { unfold readMigrationVersion, marker_unusable in *.
    destruct (existsSync h _); [|apply writes_ret].
    destruct (readFile h (path_join h [sp; "migration"])) as [c|e].
    - apply writes_try_ok.
      apply (writes_bind _ _ c _ [] []); [apply writes_lift|].
      rewrite Hbad. apply writes_ret.
    - apply (writes_try_throw _ _ e _ [] []); [|apply writes_ret].
      apply writes_bind_throw, writes_lift. }
  destruct (detectStorageLayout_writes h sp 0 Hv) as (r & Hr & Hver & Hlay).
  exists r. by rewrite Hlay.
Qed.

Lemma detectStorageLayout_marker_unusable_witness :
  ∃ r, writes (detectStorageLayout garbled_marker "/data/opencode/storage") (Ok r) [] ∧
    migrationVersion r = 0 ∧ layout r = PostMigration.
Proof.
  apply (detectStorageLayout_marker_unusable garbled_marker "/data/opencode/storage").
  vm_compute. reflexivity.
Defined.

(** White space is the language's, not ASCII's alone: a marker that holds a
    byte order mark, the version 1, a no-break space and a line feed is a
    marker of use, read as version 1, and its root is post-migration though
    a legacy tree lies beside it. *)
Example marker_with_bom_is_read :
  trim (byte_order_mark +:+ "1" +:+ no_break_space +:+ String "010" EmptyString)
  = "1" ∧
  ¬ marker_unusable marker_with_bom "/data/opencode/storage" ∧
  ∃ r, detectStorageLayout marker_with_bom "/data/opencode/storage" []
       = (Ok r, []) ∧
       migrationVersion r = 1 ∧ layout r = PostMigration ∧
       hasLegacy marker_with_bom "/data/opencode/storage" = true.
Proof.
  split; [by vm_compute|]. split; [by vm_compute|].
  eexists. split; [vm_compute; reflexivity|]. by vm_compute.
Qed.

(** [getOpenCodeStoragePath] never throws, and a path it returns exists. *)
Lemma getOpenCodeStoragePath_exists (h : Host) :
  ∃ o w, writes (getOpenCodeStoragePath h) (Ok o) w ∧
    ∀ p, o = Some p → existsSync h p = true.
Proof.
  unfold getOpenCodeStoragePath.
  destruct (truthy_str (env h "OPENCODE_STORAGE_PATH")).
  - eexists _, _. split.
    + eapply writes_bind; [apply writes_debug|apply writes_ret].
    + intros p. destruct (existsSync h _) eqn:He; congruence.
  - match goal with |- context [negb (existsSync h ?p)] =>
      destruct (existsSync h p) eqn:He end; simpl.
    + eexists _, _. split; [apply writes_ret|]. congruence.
    + eexists _, _. split; [apply writes_ret|]. congruence.
Qed.

End PathsFacts.

(** ** The stable sort *)
Module SortFacts.
Import JS.

Section stable_sort.
Context {A : Type} (cmp : A → A → Z) (key : A → Z).

#[local] Abbreviation by_key := (by_key cmp key).

Lemma sort_insert_perm x l : sort_insert cmp x l ≡ₚ x :: l.
Proof.
  induction l as [|y l IH]; simpl; [done|].
  destruct (cmp x y <=? 0); [done|].
  rewrite IH. apply Permutation_swap.
Qed.

Lemma sort_cons x l : sort cmp (x :: l) = sort_insert cmp x (sort cmp l).
Proof. reflexivity. Qed.

Lemma sort_perm l : sort cmp l ≡ₚ l.
Proof.
  induction l as [|x l IH]; [done|].
  by rewrite sort_cons, sort_insert_perm, IH.
Qed.

Lemma by_key_cons x l : by_key (x :: l) → by_key l.
Proof. intros H a b Ha Hb. apply H; by right. Qed.

Lemma by_key_perm l l' : l ≡ₚ l' → by_key l → by_key l'.
Proof. intros Hp H a b Ha Hb. apply H; by rewrite Hp. Qed.

Lemma sort_insert_sorted x l :
  by_key (x :: l) →
  StronglySorted (λ a b, key a ≤ key b) l →
  StronglySorted (λ a b, key a ≤ key b) (sort_insert cmp x l).
Proof.
  intros Hk Hs. induction Hs as [|y l Hs IH Hy]; simpl.
  - repeat constructor.
  - assert (cmp x y = key x - key y) as Hxy.
    { apply Hk; [by left|by right; left]. }
    destruct (Z.leb_spec (cmp x y) 0) as [Hle|Hgt].
    + constructor; [by constructor|].
      constructor; [lia|].
      eapply Forall_impl; [exact Hy|]. simpl. intros; lia.
    + constructor.
      * apply IH. intros a b Ha Hb. apply Hk.
        -- apply elem_of_cons in Ha as [->|Ha]; [by left|by right; right].
        -- apply elem_of_cons in Hb as [->|Hb]; [by left|by right; right].
      * rewrite sort_insert_perm. constructor; [lia|done].
Qed.

Lemma sort_sorted l :
  by_key l → StronglySorted (λ a b, key a ≤ key b) (sort cmp l).
Proof.
  induction l as [|x l IH]; intros Hk; [constructor|].
  rewrite sort_cons. apply sort_insert_sorted.
  - eapply by_key_perm; [|exact Hk]. by rewrite sort_perm.
  - apply IH. by eapply by_key_cons.
Qed.

(** Inserting keeps, for every key, the elements of that key in their
    order, the new element first. *)
Lemma sort_insert_stable x l t :
  by_key (x :: l) →
  filter (λ a, key a = t) (sort_insert cmp x l)
  = filter (λ a, key a = t) (x :: l).
Proof.
  intros Hk. induction l as [|y l IH]; simpl; [done|].
  assert (cmp x y = key x - key y) as Hxy.
  { apply Hk; [by left|by right; left]. }
  destruct (Z.leb_spec (cmp x y) 0) as [Hle|Hgt]; [done|].
  assert (by_key (x :: l)) as Hk'.
  { intros a b Ha Hb. apply Hk.
    - apply elem_of_cons in Ha as [->|Ha]; [by left|by right; right].
    - apply elem_of_cons in Hb as [->|Hb]; [by left|by right; right]. }
  specialize (IH Hk').
  rewrite (filter_cons _ y (sort_insert cmp x l)), IH.
  rewrite (filter_cons _ x (y :: l)), (filter_cons _ x l), (filter_cons _ y l).
  repeat case_decide; done || lia.
Qed.

Lemma sort_stable l t :
  by_key l →
  filter (λ a, key a = t) (sort cmp l) = filter (λ a, key a = t) l.
Proof.
  induction l as [|x l IH]; intros Hk; [done|].
  rewrite sort_cons, sort_insert_stable.
  - rewrite !filter_cons, IH; [done|by eapply by_key_cons].
  - eapply by_key_perm; [|exact Hk]. by rewrite sort_perm.
Qed.
End stable_sort.

(** A comparator that does not throw on the elements compared sorts as its
    values do. *)
Lemma sort_insert_res_pure {A} (cmp : A → A → Res Z) (f : A → A → Z) x l :
  (∀ y, y ∈ l → cmp x y = Ok (f x y)) →
  sort_insert_res cmp x l = Ok (sort_insert f x l).
Proof.
  induction l as [|y l IH]; intros Hcmp; [done|].
  cbn [sort_insert_res sort_insert].
  rewrite (Hcmp y) by (by left). cbn [mbind Res_bind].
  destruct (f x y <=? 0); [done|].
  rewrite IH by (intros z Hz; apply Hcmp; by right). done.
Qed.

Lemma sort_res_pure {A} (cmp : A → A → Res Z) (f : A → A → Z) l :
  (∀ x y, x ∈ l → y ∈ l → cmp x y = Ok (f x y)) →
  sort_res cmp l = Ok (sort f l).
Proof.
  induction l as [|x l IH]; intros Hcmp; [done|].
  cbn [sort_res]. rewrite IH by (intros y z Hy Hz; apply Hcmp; by right).
  cbn [mbind Res_bind]. rewrite (sort_cons f).
  apply sort_insert_res_pure. intros y Hy. apply Hcmp; [by left|].
  right. by rewrite (sort_perm f) in Hy.
Qed.

(** What the sort returns is a rearrangement of the list. *)
Lemma sort_insert_res_perm {A} (cmp : A → A → Res Z) x l l' :
  sort_insert_res cmp x l = Ok l' → l' ≡ₚ x :: l.
Proof.
  revert l'. induction l as [|y l IH]; intros l'; cbn [sort_insert_res].
  { by intros [= <-]. }
  destruct (cmp x y) as [c|e]; cbn [mbind Res_bind]; [|done].
  destruct (c <=? 0); [by intros [= <-]|].
  destruct (sort_insert_res cmp x l) as [l''|e]; cbn [mbind Res_bind]; [|done].
  intros [= <-]. rewrite (IH l'') by done. apply Permutation_swap.
Qed.

Lemma sort_res_perm {A} (cmp : A → A → Res Z) l l' :
  sort_res cmp l = Ok l' → l' ≡ₚ l.
Proof.
  revert l'. induction l as [|x l IH]; intros l'; cbn [sort_res].
  { by intros [= <-]. }
  destruct (sort_res cmp l) as [sorted|e]; cbn [mbind Res_bind]; [|done].
  intros Hins. apply sort_insert_res_perm in Hins. by rewrite Hins, (IH sorted).
Qed.

(** Without two elements there is nothing to compare, so nothing throws. *)
Lemma sort_res_throw {A} (cmp : A → A → Res Z) l e :
  sort_res cmp l = Throw e → (2 ≤ length l)%nat.
Proof.
  destruct l as [|x [|y l]]; [done|done|]. cbn [length]. lia.
Qed.

End SortFacts.

(** ** The SQLite reader *)
Module SqliteReaderFacts.
Import JS SqliteReader MonadFacts SortFacts.

(** [queryDb] catches everything: it always returns rows. *)
Lemma queryDb_total {T} (rt : Runtime) (rows : string → Res (list T)) db sql :
  ∃ l w, writes (queryDb rt rows db sql) (Ok l) w.
Proof.
  unfold queryDb.
  destruct (exec rt "sqlite3" ["-json"; "-readonly"; db; sql] 10000)
    as [res|e] eqn:Hexec.
  - destruct (negb (code res =? 0)) eqn:Hcode.
    + eexists _, _. apply writes_try_ok.
      eapply writes_bind; [apply writes_lift|]. rewrite Hcode.
      eapply writes_bind; [apply writes_debug|apply writes_ret].
    + destruct (is_empty (trim (stdout res)) || String.eqb (trim (stdout res)) "[]")
        eqn:Hout.
      * eexists _, _. apply writes_try_ok.
        eapply writes_bind; [apply writes_lift|]. rewrite Hcode. simpl.
        rewrite Hout. apply writes_ret.
      * destruct (rows (trim (stdout res))) as [l|e] eqn:Hrows.
        -- eexists _, _. apply writes_try_ok.
           eapply writes_bind; [apply writes_lift|]. rewrite Hcode. simpl.
           rewrite Hout, Hrows. apply writes_lift.
        -- eexists _, _. eapply writes_try_throw.
           ++ eapply writes_bind; [apply writes_lift|]. rewrite Hcode. simpl.
              rewrite Hout, Hrows. apply writes_lift.
           ++ eapply writes_bind; [apply writes_debug|apply writes_ret].
  - eexists _, _. eapply writes_try_throw.
    + apply writes_bind_throw, writes_lift.
    + eapply writes_bind; [apply writes_debug|apply writes_ret].
Qed.

(** When [sqlite3] gives nothing to read, [queryDb] returns no row. *)
Lemma queryDb_no_rows {T} (rt : Runtime) (rows : string → Res (list T)) db sql :
  no_rows (exec rt "sqlite3" (sqlite3_args db sql) 10000) →
  ∃ w, writes (queryDb rt rows db sql) (Ok []) w.
Proof.
  unfold queryDb, no_rows, sqlite3_args.
  destruct (exec rt "sqlite3" ["-json"; "-readonly"; db; sql] 10000)
    as [res|e] eqn:Hexec.
  - intros Hno. destruct (code res =? 0) eqn:Hcode.
    + apply Z.eqb_eq in Hcode.
      destruct Hno as [Hne|Hout]; [done|].
      eexists. apply writes_try_ok.
      eapply writes_bind; [apply writes_lift|].
      replace (negb (code res =? 0)) with false
        by (symmetry; apply negb_false_iff, Z.eqb_eq, Hcode).
      simpl. destruct Hout as [->| ->]; simpl; apply writes_ret.
    + eexists. apply writes_try_ok.
      eapply writes_bind; [apply writes_lift|]. rewrite Hcode. simpl.
      eapply writes_bind; [apply writes_debug|apply writes_ret].
  - intros _. eexists. eapply writes_try_throw.
    + apply writes_bind_throw, writes_lift.
    + eapply writes_bind; [apply writes_debug|apply writes_ret].
Qed.

Lemma for_of_cons {A S} (x : A) xs (body : A → S → M S) s :
  for_of (x :: xs) body s = body x s ≫= λ s', for_of xs body s'.
Proof. reflexivity. Qed.

Lemma parsed_messages_cons rt row rows :
  parsed_messages rt (row :: rows)
  = match message_of_row rt row with
    | Ok m => m :: parsed_messages rt rows
    | Throw _ => parsed_messages rt rows
    end.
Proof. unfold parsed_messages. simpl. by destruct (message_of_row rt row). Qed.

Lemma skipped_messages_log_cons rt row rows :
  skipped_messages_log rt (row :: rows)
  = match message_of_row rt row with
    | Ok _ => skipped_messages_log rt rows
    | Throw _ => ("[sqlite-reader] Failed to parse message row: " +:+ mrow_id row)
                 :: skipped_messages_log rt rows
    end.
Proof. unfold skipped_messages_log. simpl. by destruct (message_of_row rt row). Qed.

(** The loop over message rows keeps the rows that parse, in row order, and
    logs the others. *)
Lemma collect_messages_from (rt : Runtime) (rows : list MessageRow) acc :
  writes
    (for_of rows
       (λ row messages,
          try_catch
            (msg ← lift (message_of_row rt row);
             mret (messages ++ [msg])%list)
            (λ _, _ ← debug ("[sqlite-reader] Failed to parse message row: "
                              +:+ mrow_id row);
                  mret messages))
       acc)
    (Ok (acc ++ parsed_messages rt rows)%list) (skipped_messages_log rt rows).
Proof.
  revert acc. induction rows as [|row rows IH]; intros acc.
  - simpl. rewrite app_nil_r. apply writes_ret.
  - rewrite for_of_cons, parsed_messages_cons, skipped_messages_log_cons.
    destruct (message_of_row rt row) as [m|e] eqn:Hrow.
    + replace (acc ++ m :: parsed_messages rt rows)%list
        with ((acc ++ [m]) ++ parsed_messages rt rows)%list
        by (by rewrite <- app_assoc).
      eapply (writes_bind _ _ _ _ []); [|apply IH].
      apply writes_try_ok.
      eapply (writes_bind _ _ _ _ [] []); [apply writes_lift|apply writes_ret].
    + eapply (writes_bind _ _ _ _ [_]); [|apply IH].
      eapply (writes_try_throw _ _ _ _ []).
      * apply writes_bind_throw, writes_lift.
      * eapply (writes_bind _ _ _ _ [_] []); [apply writes_debug|apply writes_ret].
Qed.

Lemma collect_messages_writes (rt : Runtime) (rows : list MessageRow) :
  writes (collect_messages rt rows) (Ok (parsed_messages rt rows))
    (skipped_messages_log rt rows).
Proof. apply (collect_messages_from rt rows []). Qed.

(** The outcome of [readMessagesFromDb] is the outcome of the sort of the
    messages read; the rows skipped are logged before the sort. *)
Lemma readMessagesFromDb_writes (rt : Runtime) db sid rows w :
  writes (queryDb rt (message_rows rt) db (messages_sql sid)) (Ok rows) w →
  writes (readMessagesFromDb rt db sid)
    (sort_res (compare_created rt) (parsed_messages rt rows))
    (w ++ skipped_messages_log rt rows)%list.
Proof.
  intros Hq. unfold readMessagesFromDb.
  eapply writes_bind; [exact Hq|].
  rewrite <- (app_nil_r (skipped_messages_log rt rows)).
  eapply writes_bind; [apply collect_messages_writes|apply writes_lift].
Qed.

(** The loop over part rows folds [part_step] and logs the rows whose block
    throws. *)
Lemma collect_parts_from (rt : Runtime) (rows : list PartRow) pm :
  writes
    (for_of rows
       (λ row partsMap,
          try_catch
            (data ← lift (JSON_parse rt (prow_data row));
             lift (push_part partsMap (prow_message_id row) (part_of_row row data)))
            (λ _, _ ← debug ("[sqlite-reader] Failed to parse part row: "
                              +:+ prow_id row);
                  mret partsMap))
       pm)
    (Ok (foldl (part_step rt) pm rows)) (skipped_parts_log rt pm rows).
Proof.
  revert pm. induction rows as [|row rows IH]; intros pm.
  - simpl. apply writes_ret.
  - rewrite for_of_cons. cbn [foldl skipped_parts_log].
    eapply writes_bind; [|apply IH].
    unfold part_step, try_part.
    destruct (JSON_parse rt (prow_data row)) as [data|e] eqn:Hparse; simpl.
    + destruct (push_part pm (prow_message_id row) (part_of_row row data))
        as [pm'|e] eqn:Hpush; simpl.
      * apply writes_try_ok.
        eapply (writes_bind _ _ _ _ [] []); [apply writes_lift|].
        rewrite Hpush. apply writes_lift.
      * eapply (writes_try_throw _ _ _ _ []).
        -- eapply (writes_bind _ _ _ _ [] []); [apply writes_lift|].
           rewrite Hpush. apply writes_lift.
        -- eapply (writes_bind _ _ _ _ [_] []); [apply writes_debug|apply writes_ret].
    + eapply (writes_try_throw _ _ _ _ []).
      * apply writes_bind_throw, writes_lift.
      * eapply (writes_bind _ _ _ _ [_] []); [apply writes_debug|apply writes_ret].
Qed.

Lemma readAllPartsForSessionFromDb_writes (rt : Runtime) db sid rows w :
  writes (queryDb rt (part_rows rt) db (parts_sql sid)) (Ok rows) w →
  writes (readAllPartsForSessionFromDb rt db sid)
    (Ok (parts_of rt rows)) (w ++ skipped_parts_log rt ∅ rows)%list.
Proof.
  intros Hq. unfold readAllPartsForSessionFromDb.
  eapply writes_bind; [exact Hq|]. apply collect_parts_from.
Qed.

(** The rows [queryDb] returns when [sqlite3] ends well and prints rows. *)
Lemma queryDb_rows {T} (rt : Runtime) (rows : string → Res (list T)) db sql res l :
  exec rt "sqlite3" (sqlite3_args db sql) 10000 = Ok res →
  code res = 0 →
  is_empty (trim (stdout res)) || String.eqb (trim (stdout res)) "[]" = false →
  rows (trim (stdout res)) = Ok l →
  writes (queryDb rt rows db sql) (Ok l) [].
Proof.
  unfold queryDb, sqlite3_args. intros Hexec Hcode Hout Hrows.
  rewrite Hexec. apply writes_try_ok.
  eapply (writes_bind _ _ _ _ [] []); [apply writes_lift|].
  rewrite Hcode. simpl. rewrite Hout, Hrows. apply writes_lift.
Qed.

(** On a message whose creation time is a number the sort key is that
    number. *)
Lemma sort_key_numeric (rt : Runtime) m :
  numeric_created m →
  to_number rt (or_else (msg_created (base_of m)) (JNum 0))
  = Ok (Some (created_num m)).
Proof.
  intros [z Hz]. unfold created_num, or_else. rewrite Hz.
  by destruct z.
Qed.

Lemma compare_created_numeric (rt : Runtime) a b :
  numeric_created a → numeric_created b →
  compare_created rt a b = Ok (created_diff a b).
Proof.
  intros Ha Hb. unfold compare_created.
  by rewrite (sort_key_numeric rt a), (sort_key_numeric rt b).
Qed.

(** On creation times that are numbers the comparator does not throw, and
    the sort is the stable sort by their difference. *)
Lemma sort_numeric (rt : Runtime) l :
  Forall numeric_created l →
  sort_res (compare_created rt) l = Ok (sort created_diff l).
Proof.
  intros Hnum. rewrite Forall_forall in Hnum.
  apply sort_res_pure. intros a b Ha Hb. apply compare_created_numeric; auto.
Qed.

(** C6 (as amended).  Whatever rows the query returns, if the creation
    times of the messages read from them are numbers, as the message types
    declare them, [readMessagesFromDb] returns those messages sorted by
    creation time, ascending; messages with the same creation time keep
    their row order (the sort is stable); and the list returned does not
    depend on anything but the data, so that two reads return the same
    list. *)
Theorem readMessagesFromDb_sorted_stable (rt : Runtime) (db sid : string)
    (rows : list MessageRow) (w : Log) :
  writes (queryDb rt (message_rows rt) db (messages_sql sid)) (Ok rows) w →
  Forall numeric_created (parsed_messages rt rows) →
  ∃ msgs w',
    writes (readMessagesFromDb rt db sid) (Ok msgs) w' ∧
    msgs ≡ₚ parsed_messages rt rows ∧
    StronglySorted (λ a b, created_num a ≤ created_num b) msgs ∧
    (∀ t, filter (λ m, created_num m = t) msgs
          = filter (λ m, created_num m = t) (parsed_messages rt rows)) ∧
    (∀ lg lg', (readMessagesFromDb rt db sid lg).1
               = (readMessagesFromDb rt db sid lg').1).
Proof.
  intros Hq Hnum.
  pose proof (readMessagesFromDb_writes rt db sid rows w Hq) as Hread.
  rewrite (sort_numeric rt _ Hnum) in Hread.
  assert (by_key created_diff created_num (parsed_messages rt rows)) as Hkey
    by (by intros a b _ _).
  eexists _, _. split; [exact Hread|].
  split; [apply sort_perm|].
  split; [by apply sort_sorted|].
  split; [intros t; by apply sort_stable|].
  intros lg lg'. by rewrite !Hread.
Qed.

Lemma sample_query_messages sid :
  writes (queryDb sample_runtime (message_rows sample_runtime) "/data/opencode/opencode.db"
            (messages_sql sid)) (Ok sample_message_rows) [].
Proof. by eapply queryDb_rows. Qed.

Lemma sample_query_parts sid :
  writes (queryDb sample_runtime (part_rows sample_runtime) "/data/opencode/opencode.db"
            (parts_sql sid)) (Ok sample_part_rows) [].
Proof. by eapply queryDb_rows. Qed.

Lemma readMessagesFromDb_sorted_stable_witness :
  ∃ msgs w',
    writes (readMessagesFromDb sample_runtime "/data/opencode/opencode.db" "ses_1")
      (Ok msgs) w' ∧
    msgs ≡ₚ parsed_messages sample_runtime sample_message_rows ∧
    StronglySorted (λ a b, created_num a ≤ created_num b) msgs ∧
    (∀ t, filter (λ m, created_num m = t) msgs
          = filter (λ m, created_num m = t)
              (parsed_messages sample_runtime sample_message_rows)) ∧
    (∀ lg lg',
       (readMessagesFromDb sample_runtime "/data/opencode/opencode.db" "ses_1" lg).1
       = (readMessagesFromDb sample_runtime "/data/opencode/opencode.db" "ses_1" lg').1).
Proof.
  apply (readMessagesFromDb_sorted_stable sample_runtime
           "/data/opencode/opencode.db" "ses_1" sample_message_rows []).
  - apply sample_query_messages.
  - vm_compute. repeat constructor; eexists; reflexivity.
Defined.

(** On the sample the two messages created at 10 come first, in row order,
    and the truncated row is left out. *)
Example readMessagesFromDb_sample :
  (readMessagesFromDb sample_runtime "/data/opencode/opencode.db" "ses_1" []).1
  = Ok [ UserMessage {| msg_id := "msg_2"; msg_sessionID := "ses_1";
                        msg_created := JNum 10 |} None None;
         UserMessage {| msg_id := "msg_4"; msg_sessionID := "ses_1";
                        msg_created := JNum 10 |} None None;
         AssistantMessage {| msg_id := "msg_1"; msg_sessionID := "ses_1";
                             msg_created := JNum 30 |}
           None None None None None None ].
Proof. vm_compute. reflexivity. Qed.

(** C6 (as stated) fails.  In a database whose creation times are written
    as text (dates in ISO form), the difference of two of them is [NaN],
    which the sort reads as a tie: the messages come back in row order,
    whatever their times.  With the message of noon of the 2nd stored before
    the message of noon of the 1st, the later message is returned first, and
    with the rows the other way round so is the list; the first list is not
    ascending for any order of times that puts noon of the 1st before noon
    of the 2nd and not after it. *)
Lemma readMessagesFromDb_text_times_in_row_order :
  ∃ of_2nd of_1st,
    msg_created (base_of of_2nd) = JStr noon_2nd ∧
    msg_created (base_of of_1st) = JStr noon_1st ∧
    (readMessagesFromDb (runtime_over [row_of_2nd; row_of_1st] [])
       "/data/opencode/opencode.db" "ses_1" []).1 = Ok [of_2nd; of_1st] ∧
    (readMessagesFromDb (runtime_over [row_of_1st; row_of_2nd] [])
       "/data/opencode/opencode.db" "ses_1" []).1 = Ok [of_1st; of_2nd] ∧
    (∀ earlier : json → json → Prop,
       earlier (JStr noon_1st) (JStr noon_2nd) →
       ¬ earlier (JStr noon_2nd) (JStr noon_1st) →
       ¬ ascending earlier [of_2nd; of_1st]).
Proof.
  exists (UserMessage {| msg_id := "msg_b"; msg_sessionID := "ses_1";
                         msg_created := JStr noon_2nd |} None None),
         (UserMessage {| msg_id := "msg_a"; msg_sessionID := "ses_1";
                         msg_created := JStr noon_1st |} None None).
  split; [done|]. split; [done|].
  split; [vm_compute; reflexivity|]. split; [vm_compute; reflexivity|].
  intros earlier _ Hnot Hsorted. apply Hnot.
  inversion Hsorted as [|? ? _ Hall]; subst.
  by inversion Hall.
Qed.

(** The merge of a payload with the columns of its row: the three column
    keys hold the column values, every other key holds what the payload
    holds. *)
Lemma part_of_row_lookup (row : PartRow) (data : json) :
  part_of_row row data !! "id" = Some (JStr (prow_id row)) ∧
  part_of_row row data !! "messageID" = Some (JStr (prow_message_id row)) ∧
  part_of_row row data !! "sessionID" = Some (JStr (prow_session_id row)) ∧
  ∀ key, key ≠ "id" → key ≠ "messageID" → key ≠ "sessionID" →
         part_of_row row data !! key = own_props data !! key.
Proof.
  unfold part_of_row. repeat split.
  - rewrite !lookup_insert_ne by done. by rewrite lookup_insert_eq.
  - rewrite lookup_insert_ne by done. by rewrite lookup_insert_eq.
  - by rewrite lookup_insert_eq.
  - intros key H1 H2 H3. by rewrite !lookup_insert_ne by done.
Qed.

(** What a turn of the loop does to the map: nothing, or one part more at
    the end of the list under the message id of the row. *)
Lemma part_step_cases rt pm row :
  part_step rt pm row = pm ∨
  ∃ data, JSON_parse rt (prow_data row) = Ok data ∧
    part_step rt pm row
    = <[prow_message_id row :=
          (default [] (pm !! prow_message_id row) ++ [part_of_row row data])%list]> pm.
Proof.
  unfold part_step, try_part, push_part.
  destruct (JSON_parse rt (prow_data row)) as [data|e]; [|by left]. simpl.
  destruct (pm !! prow_message_id row) as [l|] eqn:Hl.
  - right. by exists data.
  - case_bool_decide; [by left|]. right. by exists data.
Qed.

(** Every part in the map comes from a row read so far. *)
Lemma parts_sound rt rows : ∀ pm seen,
  (∀ k parts part, pm !! k = Some parts → part ∈ parts →
     ∃ row, row ∈ seen ∧ part_from_row rt row k part) →
  ∀ k parts part,
    foldl (part_step rt) pm rows !! k = Some parts → part ∈ parts →
    ∃ row, row ∈ (seen ++ rows)%list ∧ part_from_row rt row k part.
Proof.
  induction rows as [|row rows IH]; intros pm seen Hpm k parts part Hk Hin.
  - rewrite app_nil_r. eauto.
  - simpl in Hk. rewrite (cons_middle row seen rows), app_assoc.
    eapply (IH (part_step rt pm row) (seen ++ [row])%list); [|exact Hk|exact Hin].
    clear k parts part Hk Hin. intros k parts part Hk Hin.
    destruct (part_step_cases rt pm row) as [Heq|(data & Hparse & Heq)];
      rewrite Heq in Hk.
    + destruct (Hpm k parts part Hk Hin) as (r & Hr & Hfrom).
      exists r. split; [|done]. apply elem_of_app. by left.
    + destruct (decide (k = prow_message_id row)) as [->|Hne].
      * rewrite lookup_insert_eq in Hk. injection Hk as <-.
        apply elem_of_app in Hin as [Hin|Hin].
        -- destruct (pm !! prow_message_id row) as [l|] eqn:Hl; simpl in Hin.
           ++ destruct (Hpm _ l part Hl Hin) as (r & Hr & Hfrom).
              exists r. split; [|done]. apply elem_of_app. by left.
           ++ by apply elem_of_nil in Hin.
        -- apply list_elem_of_singleton in Hin as ->.
           exists row. split; [apply elem_of_app; right; by left|].
           by exists data.
      * rewrite lookup_insert_ne in Hk by done.
        destruct (Hpm k parts part Hk Hin) as (r & Hr & Hfrom).
        exists r. split; [|done]. apply elem_of_app. by left.
Qed.

(** A part in the map stays in the map. *)
Lemma part_step_keeps rt pm row k parts part :
  pm !! k = Some parts → part ∈ parts →
  ∃ parts', part_step rt pm row !! k = Some parts' ∧ part ∈ parts'.
Proof.
  intros Hk Hin.
  destruct (part_step_cases rt pm row) as [->|(data & _ & ->)]; [eauto|].
  destruct (decide (k = prow_message_id row)) as [->|Hne].
  - rewrite lookup_insert_eq, Hk. eexists. split; [done|].
    apply elem_of_app. by left.
  - rewrite lookup_insert_ne by done. eauto.
Qed.

Lemma parts_keep rt rows : ∀ pm k parts part,
  pm !! k = Some parts → part ∈ parts →
  ∃ parts', foldl (part_step rt) pm rows !! k = Some parts' ∧ part ∈ parts'.
Proof.
  induction rows as [|row rows IH]; intros pm k parts part Hk Hin; [eauto|].
  simpl. destruct (part_step_keeps rt pm row k parts part Hk Hin)
    as (parts' & Hk' & Hin'). eauto.
Qed.

(** A row that parses, under a message id that is not a name inherited from
    [Object.prototype], puts its part in the map. *)
Lemma part_step_adds rt pm row data :
  JSON_parse rt (prow_data row) = Ok data →
  prow_message_id row ∉ Object_prototype_keys →
  ∃ parts, part_step rt pm row !! prow_message_id row = Some parts ∧
           part_of_row row data ∈ parts.
Proof.
  intros Hparse Hkey. unfold part_step, try_part, push_part.
  rewrite Hparse. simpl.
  destruct (pm !! prow_message_id row) as [l|] eqn:Hl.
  - simpl. rewrite lookup_insert_eq. eexists. split; [done|].
    apply elem_of_app. right. by left.
  - rewrite bool_decide_eq_false_2 by done. simpl.
    rewrite lookup_insert_eq. eexists. split; [done|]. by left.
Qed.

Lemma parts_complete rt rows : ∀ pm row data,
  row ∈ rows → JSON_parse rt (prow_data row) = Ok data →
  prow_message_id row ∉ Object_prototype_keys →
  ∃ parts, foldl (part_step rt) pm rows !! prow_message_id row = Some parts ∧
           part_of_row row data ∈ parts.
Proof.
  induction rows as [|r rows IH]; intros pm row data Hin Hparse Hkey.
  - by apply elem_of_nil in Hin.
  - simpl. apply elem_of_cons in Hin as [->|Hin].
    + destruct (part_step_adds rt pm r data Hparse Hkey) as (parts & Hk & Hp).
      by eapply parts_keep.
    + by apply IH.
Qed.

(** C9.  Every part that [readAllPartsForSessionFromDb] returns comes from
    a part row whose payload parses, sits under the [message_id] of that
    row, and carries the row's [id], [message_id] and [session_id] under
    [id], [messageID] and [sessionID], whatever the payload holds under
    these names; under every other name it carries what the payload holds.
    Conversely each row whose payload parses is returned so (a message id
    that is a name inherited from [Object.prototype] apart). *)
Theorem part_columns_win (rt : Runtime) (db sid : string)
    (rows : list PartRow) (w : Log) :
  writes (queryDb rt (part_rows rt) db (parts_sql sid)) (Ok rows) w →
  ∃ partsMap w',
    writes (readAllPartsForSessionFromDb rt db sid) (Ok partsMap) w' ∧
    (∀ k parts part, partsMap !! k = Some parts → part ∈ parts →
       ∃ row data,
         row ∈ rows ∧ JSON_parse rt (prow_data row) = Ok data ∧
         k = prow_message_id row ∧
         part !! "id" = Some (JStr (prow_id row)) ∧
         part !! "messageID" = Some (JStr (prow_message_id row)) ∧
         part !! "sessionID" = Some (JStr (prow_session_id row)) ∧
         ∀ key, key ≠ "id" → key ≠ "messageID" → key ≠ "sessionID" →
                part !! key = own_props data !! key) ∧
    (∀ row data,
       row ∈ rows → JSON_parse rt (prow_data row) = Ok data →
       prow_message_id row ∉ Object_prototype_keys →
       ∃ parts, partsMap !! prow_message_id row = Some parts ∧
                part_of_row row data ∈ parts).
Proof.
  intros Hq. exists (parts_of rt rows), (w ++ skipped_parts_log rt ∅ rows)%list.
  split; [by apply readAllPartsForSessionFromDb_writes|]. split.
  - intros k parts part Hk Hin.
    destruct (parts_sound rt rows ∅ [] (λ k parts part H, ltac:(by rewrite lookup_empty in H))
                k parts part Hk Hin) as (row & Hrow & data & Hparse & -> & ->).
    exists row, data. destruct (part_of_row_lookup row data) as (?&?&?&?).
    by repeat split.
  - intros row data Hin Hparse Hkey. by apply parts_complete.
Qed.

Lemma part_columns_win_witness :
  ∃ partsMap w',
    writes (readAllPartsForSessionFromDb sample_runtime "/data/opencode/opencode.db" "ses_1")
      (Ok partsMap) w' ∧
    (∀ k parts part, partsMap !! k = Some parts → part ∈ parts →
       ∃ row data,
         row ∈ sample_part_rows ∧ JSON_parse sample_runtime (prow_data row) = Ok data ∧
         k = prow_message_id row ∧
         part !! "id" = Some (JStr (prow_id row)) ∧
         part !! "messageID" = Some (JStr (prow_message_id row)) ∧
         part !! "sessionID" = Some (JStr (prow_session_id row)) ∧
         ∀ key, key ≠ "id" → key ≠ "messageID" → key ≠ "sessionID" →
                part !! key = own_props data !! key) ∧
    (∀ row data,
       row ∈ sample_part_rows → JSON_parse sample_runtime (prow_data row) = Ok data →
       prow_message_id row ∉ Object_prototype_keys →
       ∃ parts, partsMap !! prow_message_id row = Some parts ∧
                part_of_row row data ∈ parts).
Proof.
  apply (part_columns_win sample_runtime "/data/opencode/opencode.db" "ses_1"
           sample_part_rows []).
  apply sample_query_parts.
Defined.

(** On the sample the payload of the first part row names another id and
    another session; the part returned carries those of the row. *)
Example sample_part_carries_columns :
  ∃ partsMap part,
    (readAllPartsForSessionFromDb sample_runtime "/data/opencode/opencode.db" "ses_1" []).1
      = Ok partsMap ∧
    partsMap !! "msg_1" = Some [part] ∧
    sample_parse payload_part_text
      = Ok (JObj {[ "id" := JStr "prt_payload"; "sessionID" := JStr "ses_payload";
                    "type" := JStr "text" ]}) ∧
    part !! "id" = Some (JStr "prt_1") ∧
    part !! "messageID" = Some (JStr "msg_1") ∧
    part !! "sessionID" = Some (JStr "ses_1") ∧
    part !! "type" = Some (JStr "text").
Proof. eexists _, _. repeat split; by vm_compute. Qed.

(** A row whose payload does not parse is left out of the messages and
    logged. *)
Lemma parsed_messages_skip rt r1 bad r2 :
  value (JSON_parse rt (mrow_data bad)) = None →
  parsed_messages rt (r1 ++ bad :: r2) = parsed_messages rt (r1 ++ r2) ∧
  ("[sqlite-reader] Failed to parse message row: " +:+ mrow_id bad)
    ∈ skipped_messages_log rt (r1 ++ bad :: r2).
Proof.
  intros Hbad.
  assert (∃ e, message_of_row rt bad = Throw e) as [e He].
  { unfold message_of_row. destruct (JSON_parse rt (mrow_data bad)); [done|].
    by eexists. }
  split.
  - unfold parsed_messages. rewrite !omap_app. simpl. by rewrite He.
  - unfold skipped_messages_log. rewrite omap_app. simpl. rewrite He.
    apply elem_of_app. right. by left.
Qed.

Lemma parts_skip rt r1 bad r2 :
  value (JSON_parse rt (prow_data bad)) = None →
  parts_of rt (r1 ++ bad :: r2) = parts_of rt (r1 ++ r2) ∧
  ("[sqlite-reader] Failed to parse part row: " +:+ prow_id bad)
    ∈ skipped_parts_log rt ∅ (r1 ++ bad :: r2).
Proof.
  intros Hbad.
  assert (∀ pm, ∃ e, try_part rt pm bad = Throw e) as Hthrow.
  { intros pm. unfold try_part.
    destruct (JSON_parse rt (prow_data bad)); [done|]. by eexists. }
  split.
  - unfold parts_of. rewrite !foldl_app. simpl.
    unfold part_step at 2.
    destruct (Hthrow (foldl (part_step rt) ∅ r1)) as [e ->]. done.
  - generalize (∅ : gmap string (list (gmap string json))).
    induction r1 as [|row r1 IH]; intros pm; simpl.
    + destruct (Hthrow pm) as [e ->]. by left.
    + apply elem_of_app. right. apply IH.
Qed.

(** What [message_of_row] builds: a message exactly for a blob that parses
    to a value other than [null], with the ids of the row and the creation
    time of the payload. *)
Lemma message_of_row_base (rt : Runtime) (row : MessageRow) m :
  message_of_row rt row = Ok m →
  ∃ data, JSON_parse rt (mrow_data row) = Ok data ∧ data ≠ JNull ∧
    msg_id (base_of m) = mrow_id row ∧
    msg_sessionID (base_of m) = mrow_session_id row ∧
    msg_created (base_of m) = created_of data.
Proof.
  unfold message_of_row, created_of.
  destruct (JSON_parse rt (mrow_data row)) as [data|e]; [|done].
  cbn [mbind Res_bind].
  destruct data as [|b|z|s|l|obj]; cbn [get mbind Res_bind mret Res_ret];
    try done;
    repeat match goal with
           | |- context [match ?x with _ => _ end] => destruct x eqn:?
           end;
    intros [= <-]; eexists; (split; [done|]); by repeat split.
Qed.

Lemma message_of_row_total (rt : Runtime) (row : MessageRow) data :
  JSON_parse rt (mrow_data row) = Ok data → data ≠ JNull →
  ∃ m, message_of_row rt row = Ok m.
Proof.
  intros Hparse Hnull. unfold message_of_row. rewrite Hparse.
  cbn [mbind Res_bind].
  destruct data as [|b|z|s|l|obj]; cbn [get mbind Res_bind mret Res_ret];
    try done; try by eexists.
  repeat match goal with
         | |- context [match ?x with _ => _ end] => destruct x
         end; by eexists.
Qed.

(** Run times that read blobs and coerce values alike build the same
    messages and parts and compare them alike. *)
Lemma same_payloads_readers (rt rt' : Runtime) :
  same_payloads rt rt' →
  parsed_messages rt' = parsed_messages rt ∧
  compare_created rt' = compare_created rt ∧
  parts_of rt' = parts_of rt.
Proof.
  destruct rt, rt'. unfold same_payloads. cbn [JSON_parse CoerceToNumber].
  by intros [-> ->].
Qed.

(** Creation times that are numbers in the payloads are numbers in the
    messages. *)
Lemma numeric_times_created (rt : Runtime) (rows : list MessageRow) :
  numeric_times rt rows → Forall numeric_created (parsed_messages rt rows).
Proof.
  intros Hnum. apply Forall_forall. intros m Hm.
  apply list_elem_of_omap in Hm as (row & Hrow & Hm).
  destruct (message_of_row rt row) as [m'|e] eqn:Hmsg; [|done].
  injection Hm as ->.
  apply message_of_row_base in Hmsg as (data & Hparse & _ & _ & _ & Hcreated).
  destruct (Hnum row data Hrow Hparse) as [z Hz].
  exists z. by rewrite Hcreated.
Qed.

(** C7 (as amended).  A message row whose [data] blob fails to parse is
    skipped and logged, and [readMessagesFromDb] ends as it does on the same
    rows without that one: it returns when the creation times of the other
    rows are numbers, and what it returns holds, under the ids of its row, a
    message for every other row whose blob parses to a value other than
    [null].  A part row whose blob fails to parse is skipped and logged,
    and [readAllPartsForSessionFromDb], which never throws, returns what it
    returns on the same rows without that one, with the part of every other
    row whose blob parses, under a message id that is not a name inherited
    from [Object.prototype]. *)
Theorem malformed_row_is_skipped (rt : Runtime) (db sid : string) :
  (∀ (mr1 : list MessageRow) (badm : MessageRow) (mr2 : list MessageRow)
     (wm : Log),
     writes (queryDb rt (message_rows rt) db (messages_sql sid))
       (Ok (mr1 ++ badm :: mr2)%list) wm →
     value (JSON_parse rt (mrow_data badm)) = None →
     ∃ r w,
       writes (readMessagesFromDb rt db sid) r (wm ++ w)%list ∧
       ("[sqlite-reader] Failed to parse message row: " +:+ mrow_id badm) ∈ w ∧
       (∀ rt' wm', same_payloads rt rt' →
          writes (queryDb rt' (message_rows rt') db (messages_sql sid))
            (Ok (mr1 ++ mr2)%list) wm' →
          ∃ w', writes (readMessagesFromDb rt' db sid) r (wm' ++ w')%list) ∧
       (numeric_times rt (mr1 ++ mr2) → ∃ msgs, r = Ok msgs) ∧
       (∀ msgs, r = Ok msgs →
          ∀ row data, row ∈ (mr1 ++ mr2)%list →
            JSON_parse rt (mrow_data row) = Ok data → data ≠ JNull →
            ∃ m, m ∈ msgs ∧ msg_id (base_of m) = mrow_id row ∧
                 msg_sessionID (base_of m) = mrow_session_id row ∧
                 msg_created (base_of m) = created_of data)) ∧
  (∀ (pr1 : list PartRow) (badp : PartRow) (pr2 : list PartRow) (wp : Log),
     writes (queryDb rt (part_rows rt) db (parts_sql sid))
       (Ok (pr1 ++ badp :: pr2)%list) wp →
     value (JSON_parse rt (prow_data badp)) = None →
     ∃ partsMap w,
       writes (readAllPartsForSessionFromDb rt db sid) (Ok partsMap)
         (wp ++ w)%list ∧
       ("[sqlite-reader] Failed to parse part row: " +:+ prow_id badp) ∈ w ∧
       (∀ rt' wp', same_payloads rt rt' →
          writes (queryDb rt' (part_rows rt') db (parts_sql sid))
            (Ok (pr1 ++ pr2)%list) wp' →
          ∃ w', writes (readAllPartsForSessionFromDb rt' db sid) (Ok partsMap)
                  (wp' ++ w')%list) ∧
       (∀ row data, row ∈ (pr1 ++ pr2)%list →
          JSON_parse rt (prow_data row) = Ok data →
          prow_message_id row ∉ Object_prototype_keys →
          ∃ l, partsMap !! prow_message_id row = Some l ∧
               part_of_row row data ∈ l)).
Proof.
  split.
  - intros mr1 badm mr2 wm Hq Hbad.
    destruct (parsed_messages_skip rt mr1 badm mr2 Hbad) as [Heq Hlog].
    pose proof (readMessagesFromDb_writes rt db sid _ wm Hq) as Hread.
    rewrite Heq in Hread.
    eexists _, _. split; [exact Hread|]. split; [exact Hlog|].
    split; [|split].
    + intros rt' wm' Hsame Hq'.
      destruct (same_payloads_readers rt rt' Hsame) as (Hparsed & Hcmp & _).
      pose proof (readMessagesFromDb_writes rt' db sid _ wm' Hq') as Hread'.
      rewrite Hparsed, Hcmp in Hread'. by eexists.
    + intros Hnum. rewrite (sort_numeric rt) by (by apply numeric_times_created).
      by eexists.
    + intros msgs Hmsgs row data Hrow Hparse Hnull.
      destruct (message_of_row_total rt row data Hparse Hnull) as [m Hm].
      exists m. split.
      * rewrite (sort_res_perm _ _ _ Hmsgs).
        apply list_elem_of_omap. exists row. by rewrite Hm.
      * destruct (message_of_row_base rt row m Hm)
          as (data' & Hparse' & _ & Hid & Hsid & Hcreated).
        rewrite Hparse in Hparse'. by injection Hparse' as <-.
  - intros pr1 badp pr2 wp Hq Hbad.
    destruct (parts_skip rt pr1 badp pr2 Hbad) as [Heq Hlog].
    pose proof (readAllPartsForSessionFromDb_writes rt db sid _ wp Hq) as Hread.
    rewrite Heq in Hread.
    eexists _, _. split; [exact Hread|]. split; [exact Hlog|]. split.
    + intros rt' wp' Hsame Hq'.
      destruct (same_payloads_readers rt rt' Hsame) as (_ & _ & Hparts).
      pose proof (readAllPartsForSessionFromDb_writes rt' db sid _ wp' Hq')
        as Hread'.
      rewrite Hparts in Hread'. by eexists.
    + intros row data Hin Hparse Hkey. by apply parts_complete.
Qed.

Lemma malformed_row_is_skipped_witness :
  (∃ r w,
     writes (readMessagesFromDb sample_runtime "/data/opencode/opencode.db" "ses_1")
       r ([] ++ w)%list ∧
     "[sqlite-reader] Failed to parse message row: msg_3" ∈ w ∧
     (∃ msgs, r = Ok msgs ∧
        ∃ m, m ∈ msgs ∧ msg_id (base_of m) = "msg_1" ∧
             msg_created (base_of m) = JNum 30)) ∧
  (∃ partsMap w,
     writes (readAllPartsForSessionFromDb sample_runtime
               "/data/opencode/opencode.db" "ses_1") (Ok partsMap) ([] ++ w)%list ∧
     "[sqlite-reader] Failed to parse part row: prt_2" ∈ w ∧
     ∃ l part, partsMap !! "msg_2" = Some l ∧ part ∈ l ∧
               part !! "id" = Some (JStr "prt_3")).
Proof.
  destruct (malformed_row_is_skipped sample_runtime
              "/data/opencode/opencode.db" "ses_1") as [Hmessages Hparts].
  split.
  - destruct (Hmessages (take 2 sample_message_rows)
                {| mrow_id := "msg_3"; mrow_session_id := "ses_1";
                   mrow_data := payload_truncated |}
                (drop 3 sample_message_rows) [])
      as (r & w & Hread & Hlog & _ & Hreturns & Hall).
    + apply sample_query_messages.
    + vm_compute. reflexivity.
    + exists r, w. split; [exact Hread|]. split; [exact Hlog|].
      destruct Hreturns as [msgs ->].
      { intros row data Hrow Hparse.
        repeat (apply elem_of_cons in Hrow as [->|Hrow];
                [vm_compute in Hparse; injection Hparse as <-;
                 eexists; vm_compute; reflexivity|]).
        by apply elem_of_nil in Hrow. }
      exists msgs. split; [done|].
      destruct (Hall msgs eq_refl
                  {| mrow_id := "msg_1"; mrow_session_id := "ses_1";
                     mrow_data := payload_assistant_30 |}
                  (JObj {[ "role" := JStr "assistant";
                           "time" := JObj {[ "created" := JNum 30 ]} ]}))
        as (m & Hm & Hid & _ & Hcreated); [by left|by vm_compute|done|].
      exists m. split; [done|]. split; [done|]. rewrite Hcreated. by vm_compute.
  - destruct (Hparts (take 1 sample_part_rows)
                {| prow_id := "prt_2"; prow_message_id := "msg_1";
                   prow_session_id := "ses_1"; prow_data := payload_truncated |}
                (drop 2 sample_part_rows) [])
      as (partsMap & w & Hread & Hlog & _ & Hall).
    + apply sample_query_parts.
    + vm_compute. reflexivity.
    + exists partsMap, w. split; [exact Hread|]. split; [exact Hlog|].
      destruct (Hall {| prow_id := "prt_3"; prow_message_id := "msg_2";
                        prow_session_id := "ses_1"; prow_data := payload_part_text |}
                  (JObj {[ "id" := JStr "prt_payload";
                           "sessionID" := JStr "ses_payload";
                           "type" := JStr "text" ]}))
        as (l & Hl & Hin).
      * right. by left.
      * by vm_compute.
      * unfold Object_prototype_keys. intros Hk. cbn [prow_message_id] in Hk.
        repeat (apply elem_of_cons in Hk as [Hk|Hk]; [discriminate Hk|]).
        by apply elem_of_nil in Hk.
      * eexists l, _. split; [exact Hl|]. split; [exact Hin|].
        apply part_of_row_lookup.
Defined.

(** C7 (as stated) fails.  A row whose blob parses is not always returned:
    beside a truncated part row, the well-formed part of a message whose id
    is [constructor] is logged as failed and left out, since the map of the
    reader is a plain object whose [constructor] is inherited and has no
    [push]; and beside a truncated message row, the message row whose blob
    is [null] is logged as failed and left out, since reading [role] from
    [null] throws inside the [try] block. *)
Lemma well_formed_rows_left_out :
  (∃ partsMap,
     readAllPartsForSessionFromDb (runtime_over [] part_rows_with_constructor)
       "/data/opencode/opencode.db" "ses_1" []
     = (Ok partsMap,
        ["[sqlite-reader] Failed to parse part row: prt_2";
         "[sqlite-reader] Failed to parse part row: prt_9"]) ∧
     partsMap = ∅ ∧
     ¬ parts_all_returned (runtime_over [] part_rows_with_constructor)
         (drop 1 part_rows_with_constructor) partsMap) ∧
  (∃ msgs,
     readMessagesFromDb (runtime_over message_rows_with_null [])
       "/data/opencode/opencode.db" "ses_1" []
     = (Ok msgs,
        ["[sqlite-reader] Failed to parse message row: msg_3";
         "[sqlite-reader] Failed to parse message row: msg_5"]) ∧
     msgs = [] ∧
     ¬ messages_all_returned (runtime_over message_rows_with_null [])
         (drop 1 message_rows_with_null) msgs).
Proof.
  split.
  - exists ∅. split; [vm_compute; reflexivity|]. split; [done|].
    intros Hall.
    destruct (Hall {| prow_id := "prt_9"; prow_message_id := "constructor";
                      prow_session_id := "ses_1"; prow_data := payload_part_text |}
                (JObj {[ "id" := JStr "prt_payload";
                         "sessionID" := JStr "ses_payload";
                         "type" := JStr "text" ]}))
      as (l & Hl & _); [by left|by vm_compute|].
    by rewrite lookup_empty in Hl.
  - exists []. split; [vm_compute; reflexivity|]. split; [done|].
    intros Hall.
    destruct (Hall {| mrow_id := "msg_5"; mrow_session_id := "ses_1";
                      mrow_data := "null" |} JNull)
      as (m & Hm & _); [by left|by vm_compute|].
    by apply elem_of_nil in Hm.
Qed.

(** The loop of [readSessionsFromDb] does not throw and does not log. *)
Lemma sessions_loop_writes cutoff cwd (rows : list SessionRow) acc :
  writes
    (for_of rows
       (λ row sessions,
          match session_of_row cutoff cwd row with
          | Some session => mret (sessions ++ [session])%list
          | None => mret sessions
          end)
       acc)
    (Ok (acc ++ omap (session_of_row cutoff cwd) rows)%list) [].
Proof.
  revert acc. induction rows as [|row rows IH]; intros acc.
  - simpl. rewrite app_nil_r. apply writes_ret.
  - rewrite for_of_cons.
    change (omap (session_of_row cutoff cwd) (row :: rows))
      with (match session_of_row cutoff cwd row with
            | Some y => y :: omap (session_of_row cutoff cwd) rows
            | None => omap (session_of_row cutoff cwd) rows
            end).
    destruct (session_of_row cutoff cwd row) as [s|].
    + replace (acc ++ s :: omap (session_of_row cutoff cwd) rows)%list
        with ((acc ++ [s]) ++ omap (session_of_row cutoff cwd) rows)%list
        by (by rewrite <- app_assoc).
      eapply (writes_bind _ _ _ _ [] []); [apply writes_ret|apply IH].
    + eapply (writes_bind _ _ _ _ [] []); [apply writes_ret|apply IH].
Qed.

(** C8.  When the database cannot be queried (the [sqlite3] process cannot
    be run or times out, it ends with a non-zero code as it does for a
    missing file, or it prints nothing or an empty array), the three readers
    return an empty result and do not throw; [getOpenCodeStoragePath] does
    not throw and returns no path that does not exist, and so does
    [getDbPathFromStorage]. *)
Theorem readers_empty_when_unavailable (rt : Runtime) (h : Paths.Host)
    (db sid : string) (options : option SessionOptions) :
  (∀ sql, no_rows (exec rt "sqlite3" (sqlite3_args db sql) 10000)) →
  (∃ w, writes (readSessionsFromDb rt db options) (Ok []) w) ∧
  (∃ w, writes (readMessagesFromDb rt db sid) (Ok []) w) ∧
  (∃ w, writes (readAllPartsForSessionFromDb rt db sid) (Ok ∅) w) ∧
  (∃ o w, writes (Paths.getOpenCodeStoragePath h) (Ok o) w ∧
          ∀ p, o = Some p → Paths.existsSync h p = true) ∧
  (∀ sp p, getDbPathFromStorage h sp = Some p → Paths.existsSync h p = true).
Proof.
  intros Hno. repeat split.
  - destruct (queryDb_no_rows rt (session_rows rt) db sessions_sql (Hno _)) as [w Hq].
    exists (w ++ [])%list. unfold readSessionsFromDb.
    eapply writes_bind; [exact Hq|]. apply (sessions_loop_writes _ _ [] []).
  - destruct (queryDb_no_rows rt (message_rows rt) db (messages_sql sid) (Hno _))
      as [w Hq].
    eexists. apply (readMessagesFromDb_writes rt db sid [] w Hq).
  - destruct (queryDb_no_rows rt (part_rows rt) db (parts_sql sid) (Hno _))
      as [w Hq].
    eexists. apply (readAllPartsForSessionFromDb_writes rt db sid [] w Hq).
  - apply PathsFacts.getOpenCodeStoragePath_exists.
  - intros sp p. unfold getDbPathFromStorage.
    destruct (Paths.existsSync h _) eqn:He; congruence.
Qed.

Lemma readers_empty_when_unavailable_witness :
  (∃ w, writes (readSessionsFromDb broken_runtime "/data/opencode/opencode.db" None)
          (Ok []) w) ∧
  (∃ w, writes (readMessagesFromDb broken_runtime "/data/opencode/opencode.db" "ses_1")
          (Ok []) w) ∧
  (∃ w, writes (readAllPartsForSessionFromDb broken_runtime "/data/opencode/opencode.db" "ses_1")
          (Ok ∅) w) ∧
  (∃ o w, writes (Paths.getOpenCodeStoragePath (Paths.linux_host [] [])) (Ok o) w ∧
          ∀ p, o = Some p → Paths.existsSync (Paths.linux_host [] []) p = true) ∧
  (∀ sp p, getDbPathFromStorage (Paths.linux_host [] []) sp = Some p →
           Paths.existsSync (Paths.linux_host [] []) p = true).
Proof.
  apply (readers_empty_when_unavailable broken_runtime (Paths.linux_host [] [])
           "/data/opencode/opencode.db" "ses_1" None).
  intros sql. simpl. left. lia.
Defined.

(** On a host without storage directory the storage path is [null], and a
    failing [sqlite3] leaves one entry in the log. *)
Example storage_missing_sample :
  Paths.getOpenCodeStoragePath (Paths.linux_host [] []) [] = (Ok None, []) ∧
  readMessagesFromDb broken_runtime "/data/opencode/opencode.db" "ses_1" []
  = (Ok [], ["[sqlite-reader] sqlite3 exited with code 1: Error: unable to open database file"]).
Proof. split; by vm_compute. Qed.






(** A session id that tries to close the literal stays inside it. *)
Example session_id_with_quotes :
  messages_sql "x' OR '1'='1"
  = "SELECT id, session_id, data FROM message WHERE session_id = 'x'' OR ''1''=''1'"
  ∧ scan_sql_literal (escapeSqlString "x' OR '1'='1" +:+ "'")
    = Some ("x' OR '1'='1", EmptyString).
Proof. split; reflexivity. Qed.

End SqliteReaderFacts.

(** ** The queue, the aggregator and the syncer *)
Module SyncFacts.
Import Sync.

#[local] Open Scope N_scope.

(** *** Aggregation *)

Lemma total_count_insert k n (m : gmap string N) :
  m !! k = None → total_count (<[k := n]> m) = n + total_count m.
Proof.
  intros Hk. unfold total_count.
  rewrite map_fold_insert_L; [done| |done]. intros; lia.
Qed.

Lemma total_count_delete k n (m : gmap string N) :
  m !! k = Some n → total_count m = n + total_count (delete k m).
Proof.
  intros Hk. unfold total_count.
  rewrite (map_fold_delete_L _ _ k n m); [done| |done]. intros; lia.
Qed.

(** Adding the count of a tool adds it to the total. *)
Lemma total_count_add k n (acc : gmap string N) :
  total_count (add_count k n acc) = total_count acc + n.
Proof.
  unfold add_count. destruct (acc !! k) as [v|] eqn:Hk; simpl.
  - rewrite <- insert_delete_eq.
    rewrite total_count_insert by apply lookup_delete_eq.
    rewrite (total_count_delete k v acc Hk). lia.
  - rewrite total_count_insert by done. lia.
Qed.

(** Merging a table of counts into the running table adds the totals. *)
Lemma total_count_merge (acc m : gmap string N) :
  total_count (map_fold add_count acc m) = total_count acc + total_count m.
Proof.
  apply (map_fold_weak_ind
           (λ r m, total_count r = total_count acc + total_count m)).
  - unfold total_count at 3. rewrite map_fold_empty. lia.
  - intros k n m' r Hk IH.
    rewrite total_count_add, IH, (total_count_insert k n m' Hk). lia.
Qed.

Lemma sumN_cons x l : sumN (x :: l) = x + sumN l.
Proof. reflexivity. Qed.

(** The summary of a list of deltas, started from any summary whose tool
    total agrees with its table. *)
Lemma fold_add_delta (l : list MetricDelta) : ∀ acc,
  total_tool_calls acc = total_count (tool_counts acc) →
  let m := foldl add_delta acc l in
  total_input_tokens m
    = total_input_tokens acc + sumN ((λ d, input (tokens d)) <$> l) ∧
  total_output_tokens m
    = total_output_tokens acc + sumN ((λ d, output (tokens d)) <$> l) ∧
  total_cache_read_input_tokens m
    = total_cache_read_input_tokens acc + sumN ((λ d, cacheRead (tokens d)) <$> l) ∧
  total_cache_creation_tokens m
    = total_cache_creation_tokens acc
      + sumN ((λ d, cacheCreation (tokens d)) <$> l) ∧
  total_tool_calls m
    = total_tool_calls acc + sumN ((λ d, total_count (tools d)) <$> l).
Proof.
  induction l as [|d l IH]; intros acc Hacc.
  - cbv zeta. cbn [foldl fmap list_fmap sumN foldr]. repeat split; lia.
  - cbv zeta. cbn [foldl fmap list_fmap]. rewrite !sumN_cons.
    destruct (IH (add_delta acc d)) as (H1 & H2 & H3 & H4 & H5); [done|].
    cbv zeta in *. rewrite H1, H2, H3, H4, H5. cbn [add_delta
      total_input_tokens total_output_tokens total_cache_read_input_tokens
      total_cache_creation_tokens total_tool_calls].
    rewrite total_count_merge, <- Hacc. repeat split; lia.
Qed.

(** The aggregate carries the exact sums. *)
Lemma aggregate_sums (pending : list MetricDelta) :
  total_input_tokens (aggregate pending)
    = sumN ((λ d, input (tokens d)) <$> pending) ∧
  total_output_tokens (aggregate pending)
    = sumN ((λ d, output (tokens d)) <$> pending) ∧
  total_cache_read_input_tokens (aggregate pending)
    = sumN ((λ d, cacheRead (tokens d)) <$> pending) ∧
  total_cache_creation_tokens (aggregate pending)
    = sumN ((λ d, cacheCreation (tokens d)) <$> pending) ∧
  total_tool_calls (aggregate pending)
    = sumN ((λ d, total_count (tools d)) <$> pending).
Proof.
  destruct (fold_add_delta pending empty_metric) as (H1 & H2 & H3 & H4 & H5).
  { unfold total_count. simpl. by rewrite map_fold_empty. }
  cbv zeta in *. unfold aggregate.
  rewrite H1, H2, H3, H4, H5. simpl. repeat split; lia.
Qed.

(** C1.  With at least one pending delta in the queue of a session, one
    invocation of [sync] hands exactly one metric to the transport, the
    aggregate of the pending deltas, whose [total_input_tokens] is the exact
    sum of their input tokens, and likewise for the output and cache tokens
    and, for [total_tool_calls], for their tool-call counts. *)
Theorem sync_posts_one_aggregate (transport : SessionMetric → Response)
    (clock : Z) (st : gmap string (list MetricDelta)) (sid : string)
    (context : ProcessingContext) :
  listPending (queue_of st sid) ≠ [] →
  ∃ metric,
    calls (sync transport clock st sid context) = [metric] ∧
    total_input_tokens metric
      = sumN ((λ d, input (tokens d)) <$> listPending (queue_of st sid)) ∧
    total_output_tokens metric
      = sumN ((λ d, output (tokens d)) <$> listPending (queue_of st sid)) ∧
    total_cache_read_input_tokens metric
      = sumN ((λ d, cacheRead (tokens d)) <$> listPending (queue_of st sid)) ∧
    total_cache_creation_tokens metric
      = sumN ((λ d, cacheCreation (tokens d)) <$> listPending (queue_of st sid)) ∧
    total_tool_calls metric
      = sumN ((λ d, total_count (tools d)) <$> listPending (queue_of st sid)).
Proof.
  intros Hpending. exists (aggregate (listPending (queue_of st sid))).
  split; [|apply aggregate_sums].
  unfold sync. destruct (listPending (queue_of st sid)) as [|d l]; [done|].
  by destruct (if dryRun context then _ else _).
Qed.

(** Two pending deltas with 500 and 300 input tokens, 250 and 150 output
    tokens and one tool call each: one call, with totals 800, 400 and 2. *)
Lemma sync_posts_one_aggregate_witness :
  ∃ metric,
    calls (sync accepting 1700000002000 sample_store "test-syncer-metrics"
             sample_context) = [metric] ∧
    total_input_tokens metric = 800 ∧
    total_output_tokens metric = 400 ∧
    total_tool_calls metric = 2.
Proof.
  destruct (sync_posts_one_aggregate accepting 1700000002000 sample_store
              "test-syncer-metrics" sample_context)
    as (metric & Hcalls & Hin & Hout & _ & _ & Htools).
  - vm_compute. discriminate.
  - exists metric. split; [exact Hcalls|]. clear Hcalls.
    rewrite Hin, Hout, Htools. vm_compute. repeat split; reflexivity.
Defined.

(** C2.  With no pending record in the queue of a session, [sync] succeeds
    with the nothing-to-sync message, hands nothing to the transport and
    leaves the queues as they are. *)
Theorem sync_nothing_pending (transport : SessionMetric → Response)
    (clock : Z) (st : gmap string (list MetricDelta)) (sid : string)
    (context : ProcessingContext) :
  (∀ d, d ∈ queue_of st sid → syncStatus d ≠ Pending) →
  sync_success (result (sync transport clock st sid context)) = true ∧
  sync_message (result (sync transport clock st sid context)) = NothingToSync ∧
  calls (sync transport clock st sid context) = [] ∧
  store (sync transport clock st sid context) = st.
Proof.
  intros Hnone.
  assert (listPending (queue_of st sid) = []) as Hempty.
  { destruct (listPending (queue_of st sid)) as [|d l] eqn:Hl; [done|].
    assert (d ∈ listPending (queue_of st sid)) as Hd by (rewrite Hl; by left).
    apply list_elem_of_filter in Hd as [Hp Hd]. by destruct (Hnone d Hd). }
  unfold sync. by rewrite Hempty.
Qed.

(** A store whose only session has nothing pending: the sample after a
    sync that the remote end accepted. *)
Lemma sync_nothing_pending_witness :
  let st := store (sync accepting 1700000002000 sample_store
                     "test-syncer-metrics" sample_context) in
  sync_success (result (sync accepting 1700000003000 st "test-syncer-metrics"
                          sample_context)) = true ∧
  sync_message (result (sync accepting 1700000003000 st "test-syncer-metrics"
                          sample_context)) = NothingToSync ∧
  calls (sync accepting 1700000003000 st "test-syncer-metrics" sample_context) = [] ∧
  store (sync accepting 1700000003000 st "test-syncer-metrics" sample_context) = st.
Proof.
  apply (sync_nothing_pending accepting 1700000003000
           (store (sync accepting 1700000002000 sample_store
                     "test-syncer-metrics" sample_context))
           "test-syncer-metrics" sample_context).
  intros d Hd. vm_compute in Hd.
  apply elem_of_cons in Hd as [->|Hd]; [discriminate|].
  apply elem_of_cons in Hd as [->|Hd]; [discriminate|].
  by apply elem_of_nil in Hd.
Defined.

(** *** The queue invariant *)

Lemma update_matching_ids ids f (q : list MetricDelta) :
  (∀ d, recordId (f d) = recordId d) →
  recordId <$> update_matching ids f q = recordId <$> q.
Proof.
  intros Hf. unfold update_matching. rewrite <- list_fmap_compose.
  apply list_fmap_ext. intros i d _. simpl. by case_bool_decide.
Qed.

Lemma update_matching_compose ids f g (q : list MetricDelta) :
  (∀ d, recordId (g d) = recordId d) →
  update_matching ids f (update_matching ids g q)
  = update_matching ids (f ∘ g) q.
Proof.
  intros Hg. unfold update_matching. rewrite <- list_fmap_compose.
  apply list_fmap_ext. intros i d _. simpl.
  destruct (bool_decide (recordId d ∈ ids)) eqn:Hd.
  - by rewrite Hg, Hd.
  - by rewrite Hd.
Qed.

(** With distinct record ids, a record whose id is that of a pending record
    is that record. *)
Lemma pending_of_id (q : list MetricDelta) d :
  NoDup (recordId <$> q) → d ∈ q →
  recordId d ∈ recordId <$> listPending q → syncStatus d = Pending.
Proof.
  intros Hnd Hd Hid.
  apply list_elem_of_fmap in Hid as (d' & Heq & Hd').
  apply list_elem_of_filter in Hd' as [Hp Hd'].
  apply list_elem_of_lookup in Hd as [i Hi].
  apply list_elem_of_lookup in Hd' as [j Hj].
  assert (i = j) as ->.
  { eapply NoDup_lookup; [exact Hnd| |]; rewrite list_lookup_fmap.
    - by rewrite Hi.
    - rewrite Hj. simpl. by rewrite Heq. }
  congruence.
Qed.

(** An update of the pending records that keeps the ids and leaves each
    record obeying the rule on [syncedAt] keeps the invariant of the queue. *)
Lemma update_pending_ok (q : list MetricDelta) f :
  NoDup (recordId <$> q) → Forall syncedAt_iff_synced q →
  (∀ d, recordId (f d) = recordId d) →
  (∀ d, syncStatus d = Pending → syncedAt d = None → syncedAt_iff_synced (f d)) →
  NoDup (recordId <$> update_matching (recordId <$> listPending q) f q) ∧
  Forall syncedAt_iff_synced (update_matching (recordId <$> listPending q) f q).
Proof.
  intros Hnd Hwf Hid Hf. split; [by rewrite update_matching_ids|].
  unfold update_matching. apply Forall_fmap, Forall_forall. intros d Hd. simpl.
  rewrite Forall_forall in Hwf. case_bool_decide as Hin; [|by apply Hwf].
  pose proof (pending_of_id q d Hnd Hd Hin) as Hp. apply Hf; [done|].
  destruct (syncedAt d) eqn:Hat; [|done].
  assert (syncStatus d = Synced) by (apply (Hwf d Hd); rewrite Hat; eauto).
  congruence.
Qed.

Lemma append_ok delta (q : list MetricDelta) :
  NoDup (recordId <$> q) → Forall syncedAt_iff_synced q →
  NoDup (recordId <$> append delta q) ∧ Forall syncedAt_iff_synced (append delta q).
Proof.
  intros Hnd Hwf. unfold append, has_record. case_bool_decide as Hin; [done|].
  split.
  - rewrite fmap_app. apply NoDup_app. split; [done|]. split.
    + intros x Hx Hx'. apply list_elem_of_singleton in Hx'. simpl in Hx'.
      by subst.
    + apply NoDup_singleton.
  - apply Forall_app. split; [done|]. apply Forall_singleton.
    unfold syncedAt_iff_synced. simpl. split; [by intros [? ?]|done].
Qed.

Lemma sync_ok transport clock (st : gmap string (list MetricDelta)) sid context :
  store_ok st → store_ok (store (sync transport clock st sid context)).
Proof.
  intros Hok. unfold sync.
  destruct (listPending (queue_of st sid)) as [|p ps] eqn:Hpending; [done|].
  assert (∃ q, st !! sid = Some q ∧ queue_of st sid = q) as (q & Hq & Hqueue).
  { unfold queue_of in *. destruct (st !! sid) as [q|]; [eauto|done]. }
  rewrite Hqueue in *. destruct (Hok sid q Hq) as [Hnd Hwf].
  rewrite <- Hpending.
  assert (∀ q', NoDup (recordId <$> q') ∧ Forall syncedAt_iff_synced q' →
                store_ok (<[sid := q']> st)) as Hins.
  { intros q' Hq' sid' q'' Hlook.
    destruct (decide (sid = sid')) as [<-|Hne].
    - rewrite lookup_insert_eq in Hlook. by injection Hlook as <-.
    - rewrite lookup_insert_ne in Hlook by done. apply (Hok _ _ Hlook). }
  destruct (if dryRun context then _ else _); simpl; apply Hins.
  - apply update_pending_ok; try done.
    all: intros d _ _; unfold syncedAt_iff_synced; simpl; split; [done|eauto].
  - unfold markFailed, markRetry. rewrite update_matching_compose by done.
    apply update_pending_ok; try done.
    all: intros d _ Hat; unfold syncedAt_iff_synced; simpl; rewrite Hat;
      (split; [by intros [? ?]|done]).
  - unfold retire_exhausted, markRetry. rewrite update_matching_compose by done.
    apply update_pending_ok; try done.
    + intros d. simpl. by destruct (MAX_SYNC_ATTEMPTS <=? _).
    + intros d Hp Hat. unfold syncedAt_iff_synced. simpl.
      destruct (MAX_SYNC_ATTEMPTS <=? _); simpl; rewrite Hat, ?Hp;
        (split; [by intros [? ?]|done]).
  - unfold retire_exhausted, markRetry. rewrite update_matching_compose by done.
    apply update_pending_ok; try done.
    + intros d. simpl. by destruct (MAX_SYNC_ATTEMPTS <=? _).
    + intros d Hp Hat. unfold syncedAt_iff_synced. simpl.
      destruct (MAX_SYNC_ATTEMPTS <=? _); simpl; rewrite Hat, ?Hp;
        (split; [by intros [? ?]|done]).
Qed.

Lemma store_step_ok (st st' : gmap string (list MetricDelta)) :
  store_step st st' → store_ok st → store_ok st'.
Proof.
  intros Hstep Hok. destruct Hstep as [st sid delta|transport clock st sid context].
  - intros sid' q Hlook. destruct (decide (sid = sid')) as [<-|Hne].
    + rewrite lookup_insert_eq in Hlook. injection Hlook as <-.
      unfold queue_of. destruct (st !! sid) as [q|] eqn:Hq.
      * destruct (Hok sid q Hq). by apply (append_ok delta q).
      * apply (append_ok delta []); constructor.
    + rewrite lookup_insert_ne in Hlook by done. apply (Hok _ _ Hlook).
  - by apply sync_ok.
Qed.

(** Every store the pipeline can build obeys the invariant. *)
Lemma reachable_ok (st : gmap string (list MetricDelta)) :
  reachable st → store_ok st.
Proof.
  intros Hreach.
  apply (rtc_ind_r (R := store_step) (λ st, store_ok st) ∅); [| |exact Hreach].
  - intros sid q Hlook. by rewrite lookup_empty in Hlook.
  - intros y z _ Hstep IH. by eapply store_step_ok.
Qed.

(** What a successful delivery leaves in the queue of the session. *)
Lemma sync_delivered transport clock (st : gmap string (list MetricDelta)) sid context :
  listPending (queue_of st sid) ≠ [] →
  (dryRun context = true
   ∨ transport (aggregate (listPending (queue_of st sid))) = Status2xx) →
  queue_of (store (sync transport clock st sid context)) sid
  = markSynced (recordId <$> listPending (queue_of st sid)) clock (queue_of st sid).
Proof.
  intros Hne Hsend. unfold sync.
  destruct (listPending (queue_of st sid)) as [|p ps] eqn:Hpending; [done|].
  assert ((if dryRun context then λ _, Status2xx else transport)
            (aggregate (p :: ps)) = Status2xx) as ->.
  { destruct Hsend as [->| Ht]; [done|]. by destruct (dryRun context). }
  simpl. unfold queue_of at 1. by rewrite lookup_insert_eq.
Qed.

(** C3.  In a store that the pipeline built, a pending delta on which no
    attempt was made and whose aggregate the transport delivers (a 2xx
    response, or a dry run) is persisted as synced, with one attempt and
    with [syncedAt] set; and after the sync, as before, [syncedAt] is
    present on a record exactly when the record is synced. *)
Theorem sync_marks_synced (transport : SessionMetric → Response) (clock : Z)
    (st : gmap string (list MetricDelta)) (sid : string)
    (context : ProcessingContext) (i : nat) (d : MetricDelta) :
  reachable st →
  queue_of st sid !! i = Some d →
  syncStatus d = Pending →
  syncAttempts d = 0 →
  (dryRun context = true
   ∨ transport (aggregate (listPending (queue_of st sid))) = Status2xx) →
  (∃ d', queue_of (store (sync transport clock st sid context)) sid !! i = Some d' ∧
         recordId d' = recordId d ∧ tokens d' = tokens d ∧
         syncStatus d' = Synced ∧ syncAttempts d' = 1 ∧
         syncedAt d' = Some clock) ∧
  (∀ sid' r, r ∈ queue_of (store (sync transport clock st sid context)) sid' →
             (is_Some (syncedAt r) ↔ syncStatus r = Synced)).
Proof.
  intros Hreach Hi Hp Hatt Hsend.
  assert (d ∈ listPending (queue_of st sid)) as Hd.
  { apply list_elem_of_filter. split; [done|].
    apply list_elem_of_lookup. eauto. }
  split.
  - rewrite sync_delivered; [|by intros Heq; rewrite Heq in Hd; apply elem_of_nil in Hd|done].
    exists (with_sync d Synced (syncAttempts d + 1) (Some clock)).
    split; [|by rewrite Hatt].
    unfold markSynced, update_matching. rewrite list_lookup_fmap, Hi. simpl.
    rewrite bool_decide_eq_true_2; [done|].
    apply list_elem_of_fmap. eauto.
  - assert (store_ok (store (sync transport clock st sid context))) as Hok.
    { apply reachable_ok. eapply rtc_r; [exact Hreach|]. constructor. }
    intros sid' r Hr. unfold queue_of in Hr.
    destruct (store (sync transport clock st sid context) !! sid') as [q|] eqn:Hq;
      simpl in Hr; [|by apply elem_of_nil in Hr].
    destruct (Hok sid' q Hq) as [_ Hwf]. rewrite Forall_forall in Hwf.
    by apply Hwf.
Qed.

Lemma sample_store_reachable : reachable sample_store.
Proof.
  eapply rtc_l; [apply (step_append ∅)|].
  eapply rtc_l; [apply (step_append sample_store_1)|]. apply rtc_refl.
Qed.

(** The first delta of the sample, synced at [1700000002000]. *)
Lemma sync_marks_synced_witness :
  (∃ d', queue_of (store (sync accepting 1700000002000 sample_store
                            "test-syncer-metrics" sample_context))
           "test-syncer-metrics" !! 0%nat = Some d' ∧
         recordId d' = "delta-1" ∧
         tokens d' = {| input := 500; output := 250; cacheRead := 0; cacheCreation := 0 |} ∧
         syncStatus d' = Synced ∧ syncAttempts d' = 1 ∧
         syncedAt d' = Some 1700000002000%Z) ∧
  (∀ sid' r, r ∈ queue_of (store (sync accepting 1700000002000 sample_store
                                    "test-syncer-metrics" sample_context)) sid' →
             (is_Some (syncedAt r) ↔ syncStatus r = Synced)).
Proof.
  apply (sync_marks_synced accepting 1700000002000 sample_store
           "test-syncer-metrics" sample_context 0
           (sample_delta "delta-1" 1700000000000 500 250 "write")).
  - apply sample_store_reachable.
  - vm_compute. reflexivity.
  - reflexivity.
  - reflexivity.
  - right. reflexivity.
Defined.

End SyncFacts.

(** ** String methods *)
Module JSStringFacts.
Import JSString.

Lemma startsWith_app (p rest : string) : startsWith (p +:+ rest) p = true.
Proof.
  induction p as [|a p IH]; [by destruct rest|].
  change (String a p +:+ rest) with (String a (p +:+ rest)).
  cbn [startsWith]. by rewrite Ascii.eqb_refl, IH.
Qed.

Lemma includes_cons a (s sub : string) :
  includes s sub = true → includes (String a s) sub = true.
Proof. intros H. cbn [includes]. rewrite H. apply orb_true_r. Qed.

(** A string includes what was put in its middle. *)
Lemma includes_app (before sub after : string) :
  includes (before +:+ sub +:+ after) sub = true.
Proof.
  induction before as [|a before IH].
  - change (includes (sub +:+ after) sub = true).
    destruct (sub +:+ after) eqn:Heq; cbn [includes];
      rewrite <- Heq, startsWith_app; done.
  - apply includes_cons, IH.
Qed.

(** A string ends with what was put at its end. *)
Lemma endsWith_app (s suf : string) : endsWith (s +:+ suf) suf = true.
Proof.
  induction s as [|a s IH].
  - change (endsWith suf suf = true).
    destruct suf; cbn [endsWith]; by rewrite String.eqb_refl.
  - change (String a s +:+ suf) with (String a (s +:+ suf)).
    cbn [endsWith]. rewrite IH. apply orb_true_r.
Qed.

Lemma filter_from_sublist {A} (keep : nat → A → bool) (l : list A) : ∀ i,
  sublist (filter_from i keep l) l.
Proof.
  induction l as [|x l IH]; intros i; [constructor|].
  cbn [filter_from]. destruct (keep i x).
  - by apply sublist_skip.
  - by apply sublist_cons.
Qed.

(** What the indexed filter keeps passed the test at its index. *)
Lemma filter_from_elem {A} (keep : nat → A → bool) (l : list A) : ∀ i x,
  x ∈ filter_from i keep l → ∃ j, l !! j = Some x ∧ keep (i + j)%nat x = true.
Proof.
  induction l as [|y l IH]; intros i x Hx; [by apply elem_of_nil in Hx|].
  cbn [filter_from] in Hx. destruct (keep i y) eqn:Hkeep.
  - apply elem_of_cons in Hx as [->|Hx].
    + exists 0%nat. by rewrite Nat.add_0_r.
    + destruct (IH _ _ Hx) as (j & Hj & Hk). exists (S j).
      split; [done|]. by replace (i + S j)%nat with (S i + j)%nat by lia.
  - destruct (IH _ _ Hx) as (j & Hj & Hk). exists (S j).
    split; [done|]. by replace (i + S j)%nat with (S i + j)%nat by lia.
Qed.

End JSStringFacts.

(** ** The helpers of the codemie-code plugin *)
Module CodeMiePluginFacts.
Import JS JSString JSStringFacts CodeMiePlugin JsonPath.

Lemma toBedrockModelId_includes (modelId : string) (region : option string) :
  includes (toBedrockModelId modelId region) "anthropic." = true.
Proof.
  unfold toBedrockModelId.
  destruct (includes modelId "anthropic.") eqn:Hm; [done|].
  destruct (region_startsWith region "eu"); [|destruct (region_startsWith region "ap")].
  - apply (includes_app "eu." "anthropic." (modelId +:+ "-v1:0")).
  - apply (includes_app "ap." "anthropic." (modelId +:+ "-v1:0")).
  - apply (includes_app "us." "anthropic." (modelId +:+ "-v1:0")).
Qed.

Lemma resolveOllamaBaseUrl_v1 (baseUrl : string) (provider : option string) :
  has_v1 (resolveOllamaBaseUrl baseUrl provider) = true.
Proof.
  unfold resolveOllamaBaseUrl, has_v1.
  destruct (negb (bool_decide (provider = Some "ollama"))); [done|].
  destruct (endsWith baseUrl "/v1" || includes baseUrl "/v1/") eqn:Hb; [done|].
  by rewrite endsWith_app.
Qed.

(** X1.  [toBedrockModelId] always returns an id that contains [anthropic.], and
    applying it again, for any region, changes nothing. *)
Theorem toBedrockModelId_idempotent (modelId : string) (region region' : option string) :
  includes (toBedrockModelId modelId region) "anthropic." = true ∧
  toBedrockModelId (toBedrockModelId modelId region) region'
  = toBedrockModelId modelId region.
Proof.
  split; [apply toBedrockModelId_includes|].
  unfold toBedrockModelId at 1. by rewrite toBedrockModelId_includes.
Qed.

(** X2.  Whatever the base URL and the provider, the URL that
    [resolveOllamaBaseUrl] returns ends with [/v1] or contains [/v1/], and
    resolving it again returns it unchanged. *)
Theorem resolveOllamaBaseUrl_has_v1 (baseUrl : string) (provider : option string) :
  has_v1 (resolveOllamaBaseUrl baseUrl provider) = true ∧
  resolveOllamaBaseUrl (resolveOllamaBaseUrl baseUrl provider) provider
  = resolveOllamaBaseUrl baseUrl provider.
Proof.
  pose proof (resolveOllamaBaseUrl_v1 baseUrl provider) as Hv1.
  split; [done|].
  unfold resolveOllamaBaseUrl at 1.
  destruct (negb (bool_decide (provider = Some "ollama"))) eqn:Hp.
  - unfold resolveOllamaBaseUrl. by rewrite Hp.
  - unfold has_v1 in Hv1. by rewrite Hv1.
Qed.

(** X3.  [enrichArgs] is idempotent: enriching arguments that were enriched
    returns them as they are. *)
Theorem enrichArgs_idempotent (args : list string) :
  enrichArgs (enrichArgs args) = enrichArgs args.
Proof.
  unfold enrichArgs at 2.
  destruct (match args with
            | first :: _ => bool_decide (first ∈ OPENCODE_SUBCOMMANDS)
            | [] => false
            end) eqn:Hsub.
  { unfold enrichArgs. by rewrite Hsub. }
  destruct (indexOf args "--task") as [i|] eqn:Hidx.
  - destruct (i + 1 <? length args)%nat eqn:Hlt.
    + unfold enrichArgs. rewrite Hsub, Hidx, Hlt.
      by replace (bool_decide ("run" ∈ OPENCODE_SUBCOMMANDS)) with true
        by (by vm_compute).
    + unfold enrichArgs. by rewrite Hsub, Hidx, Hlt.
  - unfold enrichArgs. by rewrite Hsub, Hidx.
Qed.

(** X4.  When the arguments do not start with a subcommand and [--task] is
    followed by a value, [enrichArgs] returns [run], then arguments taken in
    order from the original ones, none of which is [-m] or [--message],
    then the task value. *)
Theorem enrichArgs_task (args : list string) (taskIndex : nat) (taskValue : string) :
  starts_with_subcommand args = false →
  indexOf args "--task" = Some taskIndex →
  args !! (taskIndex + 1)%nat = Some taskValue →
  ∃ otherArgs,
    enrichArgs args = "run" :: (otherArgs ++ [taskValue])%list ∧
    sublist otherArgs args ∧
    ("-m" ∉ otherArgs) ∧ ("--message" ∉ otherArgs).
Proof.
  intros Hsub Hidx Hval.
  exists (filteri (keep_other_arg args taskIndex) args).
  split; [|split; [apply filter_from_sublist|]].
  - unfold enrichArgs. unfold starts_with_subcommand in Hsub.
    rewrite Hsub, Hidx, Hval.
    apply lookup_lt_Some in Hval.
    by replace (taskIndex + 1 <? length args)%nat with true
      by (symmetry; apply Nat.ltb_lt; lia).
  - split; intros Hin; apply filter_from_elem in Hin as (j & _ & Hkeep);
      unfold keep_other_arg in Hkeep;
      (destruct ((0 + j =? taskIndex)%nat || (0 + j =? taskIndex + 1)%nat);
       [done|]); vm_compute in Hkeep; done.
Qed.

Lemma enrichArgs_task_witness :
  ∃ otherArgs,
    enrichArgs ["--debug"; "--task"; "fix the bug"; "-m"; "hello"]
    = "run" :: (otherArgs ++ ["fix the bug"])%list ∧
    sublist otherArgs ["--debug"; "--task"; "fix the bug"; "-m"; "hello"] ∧
    ("-m" ∉ otherArgs) ∧ ("--message" ∉ otherArgs).
Proof.
  apply (enrichArgs_task ["--debug"; "--task"; "fix the bug"; "-m"; "hello"]
           1 "fix the bug"); reflexivity.
Defined.

(** X5.  Without a usable [--task], [enrichArgs] hands the arguments back: when
    they start with a subcommand, when [--task] is absent, and when [--task]
    is the last argument. *)
Theorem enrichArgs_unchanged (args : list string) :
  starts_with_subcommand args = true
  ∨ "--task" ∉ args
  ∨ last args = Some "--task" ∧ "--task" ∉ removelast args →
  enrichArgs args = args.
Proof.
  unfold enrichArgs, starts_with_subcommand.
  intros [Hsub|[Hno|[Hlast Hbefore]]].
  - by rewrite Hsub.
  - destruct (match args with [] => false | _ => _ end); [done|].
    unfold indexOf.
    destruct (list_find (λ y, y = "--task") args) as [[i y]|] eqn:Hfind; [|done].
    apply list_find_Some in Hfind as (Hi & -> & _).
    by apply list_elem_of_lookup_2 in Hi.
  - destruct (match args with [] => false | _ => _ end); [done|].
    unfold indexOf.
    destruct (list_find (λ y, y = "--task") args) as [[i y]|] eqn:Hfind; [|done].
    apply list_find_Some in Hfind as (Hi & -> & _).
    cbn [fmap option_fmap option_map fst].
    destruct (i + 1 <? length args)%nat eqn:Hlt; [|done].
    apply Nat.ltb_lt in Hlt. exfalso. apply Hbefore.
    destruct args as [|a args] using rev_ind; [done|].
    rewrite removelast_last.
    rewrite length_app in Hlt. cbn [length] in Hlt.
    rewrite lookup_app_l in Hi by lia.
    by apply list_elem_of_lookup_2 in Hi.
Qed.

Lemma enrichArgs_unchanged_witness :
  enrichArgs ["--verbose"; "--task"] = ["--verbose"; "--task"].
Proof.
  apply (enrichArgs_unchanged ["--verbose"; "--task"]).
  right; right. split; [reflexivity|].
  simpl. by intros ?%list_elem_of_singleton.
Defined.

(** X6.  For a non-empty proxy URL, the configuration [beforeRun] builds names as
    model the active provider followed by the model id; the [codemie-proxy]
    block is there exactly when that provider is active, and then points at
    the proxy URL; the [ollama] block is always there, at a URL that carries
    [/v1]; no block is written for [amazon-bedrock], whose model id always
    contains [anthropic.]. *)
Theorem beforeRun_config_providers (provider : option string) (baseUrl : string)
    (modelConfigId : string) (region : option string) (timeout : Z)
    (providerOptions : option json) (allModels : gmap string json) :
  baseUrl ≠ EmptyString →
  let cfg := beforeRun_config provider baseUrl modelConfigId region timeout
               providerOptions allModels in
  let active := determineActiveProvider provider in
  (∃ modelId, path_get cfg ["model"] = Some (JStr (active +:+ "/" +:+ modelId)) ∧
     (active = "amazon-bedrock" → includes modelId "anthropic." = true) ∧
     (active ≠ "amazon-bedrock" → modelId = modelConfigId)) ∧
  (is_Some (path_get cfg ["provider"; "codemie-proxy"]) ↔ active = "codemie-proxy") ∧
  (active = "codemie-proxy" →
     path_get cfg ["provider"; "codemie-proxy"; "options"; "baseURL"]
     = Some (JStr (baseUrl +:+ "/"))) ∧
  (∃ url, path_get cfg ["provider"; "ollama"; "options"; "baseURL"]
          = Some (JStr (url +:+ "/")) ∧ has_v1 url = true) ∧
  path_get cfg ["provider"; "amazon-bedrock"] = None.
Proof.
  intros Hbase cfg active. subst cfg active.
  unfold beforeRun_config, determineActiveProvider, buildOpenCodeConfig.
  assert (truthy_str (Some baseUrl) = true) as Htruthy by (by destruct baseUrl).
  pose proof (resolveOllamaBaseUrl_v1 baseUrl provider) as Hv1.
  pose proof (toBedrockModelId_includes modelConfigId region) as Hbed.
  assert (∀ (c : bool) (v : json),
            ((if c then {["headers" := v]} else ∅)
             ∪ ({["baseURL" := JStr (baseUrl +:+ "/");
                 "apiKey" := JStr "proxy-handled";
                 "timeout" := JNum timeout]} : gmap string json)) !! "baseURL"
            = Some (JStr (baseUrl +:+ "/"))) as Hopt.
  { intros [] v; by simplify_map_eq. }
  case_bool_decide as Hollama; [subst provider|];
    case_bool_decide as Hbedrock; try done; try subst provider;
    cbn [negb andb path_get proxyBaseUrl ollamaBaseUrl activeProvider modelId
         CodeMiePlugin.timeout CodeMiePlugin.providerOptions
         CodeMiePlugin.allModels];
    rewrite ?Htruthy; unfold spread_if; cbn [truthy_str];
    (split; [eexists; split; [by simplify_map_eq|by split]|]);
    (split; [split; [intros [? H]; by simplify_map_eq|intros H; by simplify_map_eq]|]);
    (split; [intros H; simplify_map_eq; cbn [mbind option_bind path_get];
             rewrite ?Hopt; try done |]).
  all: split;
    [eexists; split;
       [simplify_map_eq; cbn [mbind option_bind path_get]; by simplify_map_eq|done]
    |by simplify_map_eq].
Qed.

Lemma beforeRun_config_providers_witness :
  path_get (beforeRun_config (Some "bedrock") "http://localhost:4001"
              "claude-opus-4-6" (Some "eu-west-1") 600000 None ∅)
    ["provider"; "amazon-bedrock"] = None.
Proof.
  assert ("http://localhost:4001" ≠ EmptyString) as Hbase by discriminate.
  exact (proj2 (proj2 (proj2 (proj2
    (beforeRun_config_providers (Some "bedrock") "http://localhost:4001"
       "claude-opus-4-6" (Some "eu-west-1") 600000 None ∅ Hbase))))).
Defined.

End CodeMiePluginFacts.

(** ** Storage paths: the fields of a layout, and the getters against it *)
Module StorageFacts.
Import JS Paths MonadFacts PathsFacts SqliteReader CodeMiePlugin StorageSamples.

(** The record the branches of [detectStorageLayout] build for a marker
    version and the three probes. *)
Lemma detectStorageLayout_record (h : Host) (sp : string) v :
  writes (readMigrationVersion h sp) (Ok v) [] →
  ∃ r, writes (detectStorageLayout h sp) (Ok r) [] ∧
    layout r =
      (if hasPostMigration h sp then
         if (1 <=? v) then PostMigration
         else if hasLegacy h sp then Mixed else PostMigration
       else if hasSqlite h sp then Sqlite
       else if hasLegacy h sp then Legacy else Unknown) ∧
    postMigrationPath r = spread_when (hasPostMigration h sp) sp ∧
    dbPath r = spread_when (hasSqlite h sp) (dbPathOf h sp) ∧
    legacyPaths r =
      spread_when
        (hasLegacy h sp
         && (if hasPostMigration h sp then negb (1 <=? v) else negb (hasSqlite h sp)))
        [projectDirOf h sp].
Proof.
  intros Hv. unfold detectStorageLayout.
  destruct (hasPostMigration h sp) eqn:Hpm, (1 <=? v) eqn:Hle,
    (hasLegacy h sp) eqn:Hleg, (hasSqlite h sp) eqn:Hdb; simpl;
    eexists; (split; [apply (writes_bind _ _ v _ [] []); [exact Hv|];
                      rewrite ?Hle; simpl; apply writes_ret | by simpl]).
Qed.

(** X7.  [detectStorageLayout] fills the optional fields of its result by the
    layout: [postMigrationPath] is the storage root exactly for the layouts
    [post-migration] and [mixed]; [legacyPaths] is the one project directory
    exactly for [mixed] and [legacy]; [dbPath] is what
    [getDbPathFromStorage] returns for the root, so it is absent for
    [legacy] and [unknown] and present for [sqlite]. *)
Theorem detectStorageLayout_fields (h : Host) (sp : string) :
  ∃ r, writes (detectStorageLayout h sp) (Ok r) [] ∧
    postMigrationPath r
      = (if bool_decide (layout r = PostMigration ∨ layout r = Mixed)
         then Some sp else None) ∧
    legacyPaths r
      = (if bool_decide (layout r = Mixed ∨ layout r = Legacy)
         then Some [projectDirOf h sp] else None) ∧
    dbPath r = getDbPathFromStorage h sp ∧
    (layout r = Legacy ∨ layout r = Unknown → dbPath r = None) ∧
    (layout r = Sqlite → dbPath r = Some (dbPathOf h sp)).
Proof.
  destruct (readMigrationVersion_total h sp) as [v Hv].
  destruct (detectStorageLayout_record h sp v Hv)
    as (r & Hr & Hlay & Hpost & Hdb & Hleg).
  exists r. split; [exact Hr|].
  rewrite Hlay, Hpost, Hdb, Hleg. clear Hr Hlay Hpost Hdb Hleg.
  unfold getDbPathFromStorage, hasSqlite, dbPathOf, spread_when.
  destruct (hasPostMigration h sp), (1 <=? v), (hasLegacy h sp),
    (existsSync h (path_join h [path_dirname h sp; "opencode.db"]));
    cbn [andb negb]; repeat split; try done;
    try (by intros [?|?]);
    repeat case_bool_decide; try done; naive_solver.
Qed.

(** X8.  Once the storage root is found, the getters of the session, message and
    part directories all return their directory exactly when the layout
    detected at that root is [post-migration] or [mixed]. *)
Theorem subpaths_iff_post_migration (h : Host) (sp : string) (w : Log) :
  writes (getOpenCodeStoragePath h) (Ok (Some sp)) w →
  ∃ r, writes (detectStorageLayout h sp) (Ok r) [] ∧
    ((layout r = PostMigration ∨ layout r = Mixed) ↔
     ∀ sub, sub ∈ ["session"; "message"; "part"] →
       writes (getOpenCodeSubPath h sub) (Ok (Some (path_join h [sp; sub]))) w).
Proof.
  intros Hsp.
  assert (∀ sub, writes (getOpenCodeSubPath h sub)
            (Ok (if existsSync h (path_join h [sp; sub])
                 then Some (path_join h [sp; sub]) else None)) w) as Hsub.
  { intros sub. unfold getOpenCodeSubPath.
    replace w with (w ++ [])%list by apply app_nil_r.
    eapply writes_bind; [exact Hsp|apply writes_ret]. }
  destruct (readMigrationVersion_total h sp) as [v Hv].
  destruct (detectStorageLayout_record h sp v Hv) as (r & Hr & Hlay & _).
  exists r. split; [exact Hr|]. rewrite Hlay. clear Hr Hlay.
  unfold hasPostMigration. split.
  - intros Hpm sub Hin.
    assert (existsSync h (path_join h [sp; sub]) = true) as He.
    { destruct (existsSync h (path_join h [sp; "session"])) eqn:H1,
        (existsSync h (path_join h [sp; "message"])) eqn:H2,
        (existsSync h (path_join h [sp; "part"])) eqn:H3;
        cbn [andb] in Hpm;
        try (destruct (hasSqlite h sp), (hasLegacy h sp); by destruct Hpm).
      apply elem_of_cons in Hin as [->|Hin]; [done|].
      apply elem_of_cons in Hin as [->|Hin]; [done|].
      by apply list_elem_of_singleton in Hin as ->. }
    specialize (Hsub sub). by rewrite He in Hsub.
  - intros Hall.
    assert (∀ sub, sub ∈ ["session"; "message"; "part"] →
              existsSync h (path_join h [sp; sub]) = true) as He.
    { intros sub Hin. specialize (Hall sub Hin). specialize (Hsub sub).
      destruct (writes_inj _ _ _ _ _ Hall Hsub) as [Heq _].
      destruct (existsSync h (path_join h [sp; sub])); [done|discriminate]. }
    rewrite !He by (repeat constructor). cbn [andb].
    destruct (1 <=? v), (hasLegacy h sp); auto.
Qed.

Lemma subpaths_iff_post_migration_witness :
  ∃ r, writes (detectStorageLayout default_root_host
                 "/home/dev/.local/share/opencode/storage") (Ok r) [] ∧
    ((layout r = PostMigration ∨ layout r = Mixed) ↔
     ∀ sub, sub ∈ ["session"; "message"; "part"] →
       writes (getOpenCodeSubPath default_root_host sub)
         (Ok (Some (path_join default_root_host
                      ["/home/dev/.local/share/opencode/storage"; sub]))) []).
Proof.
  apply (subpaths_iff_post_migration default_root_host
           "/home/dev/.local/share/opencode/storage" []).
  intros lg. rewrite app_nil_r. reflexivity.
Defined.

(** X9.  Once the storage root is found, [getOpenCodeDbPath] returns the
    [dbPath] of the layout detected at that root, which is also what
    [getDbPathFromStorage] returns; it logs one more entry exactly when it
    returns a path. *)
Theorem getOpenCodeDbPath_agrees (h : Host) (sp : string) (w : Log) :
  writes (getOpenCodeStoragePath h) (Ok (Some sp)) w →
  ∃ r w',
    writes (detectStorageLayout h sp) (Ok r) [] ∧
    writes (getOpenCodeDbPath h) (Ok (dbPath r)) (w ++ w')%list ∧
    dbPath r = getDbPathFromStorage h sp ∧
    length w' = (match dbPath r with Some _ => 1 | None => 0 end)%nat.
Proof.
  intros Hsp.
  destruct (readMigrationVersion_total h sp) as [v Hv].
  destruct (detectStorageLayout_record h sp v Hv) as (r & Hr & _ & _ & Hdb & _).
  exists r. rewrite Hdb.
  unfold getOpenCodeDbPath, getDbPathFromStorage, hasSqlite, dbPathOf, spread_when.
  destruct (existsSync h (path_join h [path_dirname h sp; "opencode.db"])) eqn:He.
  - exists ["[opencode-paths] Found SQLite DB: "
            +:+ path_join h [path_dirname h sp; "opencode.db"]].
    split; [exact Hr|]. split; [|done].
    eapply writes_bind; [exact Hsp|]. cbv beta iota zeta. rewrite He.
    apply (writes_bind _ _ tt _ [_] []); [apply writes_debug|apply writes_ret].
  - exists []. split; [exact Hr|]. split; [|done].
    eapply writes_bind; [exact Hsp|]. cbv beta iota zeta. rewrite He.
    apply writes_ret.
Qed.

Lemma getOpenCodeDbPath_agrees_witness :
  ∃ r w',
    writes (detectStorageLayout default_root_host
              "/home/dev/.local/share/opencode/storage") (Ok r) [] ∧
    writes (getOpenCodeDbPath default_root_host) (Ok (dbPath r)) ([] ++ w')%list ∧
    dbPath r = getDbPathFromStorage default_root_host
                 "/home/dev/.local/share/opencode/storage" ∧
    length w' = (match dbPath r with Some _ => 1 | None => 0 end)%nat.
Proof.
  apply (getOpenCodeDbPath_agrees default_root_host
           "/home/dev/.local/share/opencode/storage" []).
  intros lg. rewrite app_nil_r. reflexivity.
Defined.

(** X10.  The storage root is the same whether it is reached through
    [XDG_DATA_HOME], as [beforeRun] sets it, or through
    [OPENCODE_STORAGE_PATH], as [onSessionEnd] sets it: without an override
    in the environment, [getOpenCodeStoragePath] returns the same answer
    under both settings, and a path it returns is the expected one. *)
Theorem storage_root_same_for_run_and_hook (h : Host) (codemieHome : string) :
  truthy_str (env h "OPENCODE_STORAGE_PATH") = false →
  getOpenCodeStorageBase h codemieHome ≠ EmptyString →
  expectedStoragePath h codemieHome ≠ EmptyString →
  ∃ o w1 w2,
    writes (getOpenCodeStoragePath
              (with_env h "XDG_DATA_HOME" (getOpenCodeStorageBase h codemieHome)))
      (Ok o) w1 ∧
    writes (getOpenCodeStoragePath
              (with_env h "OPENCODE_STORAGE_PATH" (expectedStoragePath h codemieHome)))
      (Ok o) w2 ∧
    (∀ p, o = Some p → p = expectedStoragePath h codemieHome) ∧
    (is_Some o ↔ existsSync h (expectedStoragePath h codemieHome) = true).
Proof.
  intros Hno Hbase Hexp.
  exists (if existsSync h (expectedStoragePath h codemieHome)
          then Some (expectedStoragePath h codemieHome) else None).
  assert (∀ s, s ≠ EmptyString → truthy_str (Some s) = true) as Htr
    by (by intros []).
  eexists _, _. split; [|split; [|split]].
  - unfold getOpenCodeStoragePath.
    cbn [env with_env existsSync path_join homedir platform].
    change (String.eqb "OPENCODE_STORAGE_PATH" "XDG_DATA_HOME") with false.
    change (String.eqb "XDG_DATA_HOME" "XDG_DATA_HOME") with true.
    cbv iota. rewrite Hno, (Htr _ Hbase). cbn [from_option id].
    fold (expectedStoragePath h codemieHome).
    destruct (existsSync h (expectedStoragePath h codemieHome));
      cbn [negb]; apply writes_ret.
  - unfold getOpenCodeStoragePath.
    cbn [env with_env existsSync path_join homedir platform].
    change (String.eqb "OPENCODE_STORAGE_PATH" "OPENCODE_STORAGE_PATH") with true.
    cbv iota. rewrite (Htr _ Hexp). cbn [from_option id].
    eapply writes_bind; [apply writes_debug|apply writes_ret].
  - intros p. destruct (existsSync h _); congruence.
  - destruct (existsSync h _); split; intros H; try done; by destruct H.
Qed.

Lemma storage_root_same_for_run_and_hook_witness :
  ∃ o w1 w2,
    writes (getOpenCodeStoragePath
              (with_env codemie_root_host "XDG_DATA_HOME"
                 (getOpenCodeStorageBase codemie_root_host "/home/dev/.codemie")))
      (Ok o) w1 ∧
    writes (getOpenCodeStoragePath
              (with_env codemie_root_host "OPENCODE_STORAGE_PATH"
                 (expectedStoragePath codemie_root_host "/home/dev/.codemie")))
      (Ok o) w2 ∧
    (∀ p, o = Some p → p = expectedStoragePath codemie_root_host "/home/dev/.codemie") ∧
    (is_Some o ↔ existsSync codemie_root_host
                   (expectedStoragePath codemie_root_host "/home/dev/.codemie") = true).
Proof.
  apply (storage_root_same_for_run_and_hook codemie_root_host "/home/dev/.codemie");
    [reflexivity|vm_compute; discriminate|vm_compute; discriminate].
Defined.

End StorageFacts.

(** ** The readers: filters, accounting and grouping *)
Module ReaderFacts.
Import JS SqliteReader MonadFacts SortFacts SqliteReaderFacts ReaderSamples.

(** X11.  [queryDb] never throws and logs at most one entry; rows come only from a
    [sqlite3] run that ended with code 0, decoded from its trimmed output,
    and then nothing is logged. *)
Theorem queryDb_rows_only_from_success {T} (rt : Runtime)
    (rows : string → Res (list T)) (db sql : string) :
  ∃ l w, writes (queryDb rt rows db sql) (Ok l) w ∧
    (length w ≤ 1)%nat ∧
    (l ≠ [] →
     w = [] ∧
     ∃ res, exec rt "sqlite3" (sqlite3_args db sql) 10000 = Ok res ∧
            code res = 0 ∧ rows (trim (stdout res)) = Ok l).
Proof.
  unfold queryDb, sqlite3_args.
  destruct (exec rt "sqlite3" ["-json"; "-readonly"; db; sql] 10000)
    as [res|e] eqn:Hexec.
  - destruct (negb (code res =? 0)) eqn:Hcode.
    + eexists [], [_]. split; [|split; [simpl; lia|done]].
      apply writes_try_ok.
      apply (writes_bind _ _ res _ [] [_]); [apply writes_lift|]. rewrite Hcode.
      apply (writes_bind _ _ tt _ [_] []); [apply writes_debug|apply writes_ret].
    + destruct (is_empty (trim (stdout res)) || String.eqb (trim (stdout res)) "[]")
        eqn:Hout.
      * exists [], []. split; [|split; [simpl; lia|done]].
        apply writes_try_ok.
        apply (writes_bind _ _ res _ [] []); [apply writes_lift|].
        rewrite Hcode. simpl. rewrite Hout. apply writes_ret.
      * destruct (rows (trim (stdout res))) as [l|e] eqn:Hrows.
        -- exists l, []. split; [|split; [simpl; lia|]].
           ++ apply writes_try_ok.
              apply (writes_bind _ _ res _ [] []); [apply writes_lift|].
              rewrite Hcode. simpl. rewrite Hout, Hrows. apply writes_lift.
           ++ intros _. split; [done|]. exists res.
              apply negb_false_iff, Z.eqb_eq in Hcode. done.
        -- eexists [], [_]. split; [|split; [simpl; lia|done]].
           apply (writes_try_throw _ _ e _ [] [_]).
           ++ apply (writes_bind _ _ res _ [] []); [apply writes_lift|].
              rewrite Hcode. simpl. rewrite Hout, Hrows. apply writes_lift.
           ++ apply (writes_bind _ _ tt _ [_] []); [apply writes_debug|apply writes_ret].
  - eexists [], [_]. split; [|split; [simpl; lia|done]].
    apply (writes_try_throw _ _ e _ [] [_]).
    + apply writes_bind_throw, writes_lift.
    + apply (writes_bind _ _ tt _ [_] []); [apply writes_debug|apply writes_ret].
Qed.

(** What [session_of_row] keeps. *)
Lemma session_of_row_Some cutoff ncwd row s :
  session_of_row cutoff ncwd row = Some s →
  session_id s = srow_id row ∧
  (created (session_time s) = 0 ∨ cutoff ≤ created (session_time s)) ∧
  (∀ c, ncwd = Some c → c ≠ EmptyString → session_directory s ≠ EmptyString →
        strip_trailing_slashes (session_directory s) = c).
Proof.
  unfold session_of_row. cbn [session_time created session_directory].
  destruct (negb (default 0 (srow_time_created row) =? 0)
            && (default 0 (srow_time_created row) <? cutoff)) eqn:Hage; [done|].
  match goal with |- context [if ?b then None else Some _] =>
    destruct b eqn:Hcwd end; [done|].
  intros [= <-]. cbn [session_id session_time created session_directory].
  split; [done|]. split.
  - apply andb_false_iff in Hage as [Hz|Hlt].
    + left. by apply negb_false_iff, Z.eqb_eq in Hz.
    + right. by apply Z.ltb_ge in Hlt.
  - intros c -> Hc Hdir. cbn [truthy_str from_option id] in Hcwd.
    destruct c as [|a c]; [done|]. cbn [andb] in Hcwd.
    match type of Hdir with ?dir ≠ _ => destruct dir as [|b d] eqn:Hd end; [done|].
    cbn [is_empty negb andb] in Hcwd.
    by apply negb_false_iff, String.eqb_eq in Hcwd.
Qed.

(** Without creation time and without directory a row passes both filters. *)
Lemma session_of_row_bare cutoff ncwd row :
  srow_time_created row = None → srow_directory row = None →
  ∃ s, session_of_row cutoff ncwd row = Some s ∧ session_id s = srow_id row.
Proof.
  intros Ht Hd. unfold session_of_row. rewrite Ht, Hd.
  cbn [truthy_str from_option id session_time created session_directory
       is_empty negb andb Z.eqb].
  rewrite andb_false_r. cbn [andb]. by eexists.
Qed.

(** X12.  [readSessionsFromDb] returns sessions of the rows, in row order; each
    was created at the cut-off or later, or has no creation time; when a
    working directory is asked for, each has that directory up to trailing
    slashes, or none; a row without creation time and without directory is
    always returned. *)
Theorem readSessionsFromDb_filters (rt : Runtime) (db : string)
    (options : option SessionOptions) (rows : list SessionRow) (w : Log) :
  writes (queryDb rt (session_rows rt) db sessions_sql) (Ok rows) w →
  ∃ sessions,
    writes (readSessionsFromDb rt db options) (Ok sessions) w ∧
    sublist (session_id <$> sessions) (srow_id <$> rows) ∧
    (∀ s, s ∈ sessions →
       (created (session_time s) = 0
        ∨ now rt - default 30 (options ≫= maxAgeDays) * 24 * 60 * 60 * 1000
          ≤ created (session_time s)) ∧
       (∀ c, strip_trailing_slashes <$> (options ≫= cwd) = Some c →
             c ≠ EmptyString → session_directory s ≠ EmptyString →
             strip_trailing_slashes (session_directory s) = c)) ∧
    (∀ row, row ∈ rows →
       srow_time_created row = None → srow_directory row = None →
       srow_id row ∈ session_id <$> sessions).
Proof.
  intros Hq.
  set (cutoff := now rt - default 30 (options ≫= maxAgeDays) * 24 * 60 * 60 * 1000).
  set (ncwd := strip_trailing_slashes <$> (options ≫= cwd)).
  exists (omap (session_of_row cutoff ncwd) rows).
  split; [|split; [|split]].
  - unfold readSessionsFromDb.
    replace w with (w ++ [])%list by apply app_nil_r.
    eapply writes_bind; [exact Hq|].
    apply (sessions_loop_writes cutoff ncwd rows []).
  - clear Hq. induction rows as [|row rows IH]; [constructor|].
    cbn [omap list_omap fmap list_fmap].
    destruct (session_of_row cutoff ncwd row) as [s|] eqn:Hs.
    + apply session_of_row_Some in Hs as (<- & _).
      by apply sublist_skip.
    + by apply sublist_cons.
  - intros s Hin. apply list_elem_of_omap in Hin as (row & _ & Hs).
    apply session_of_row_Some in Hs as (_ & Hage & Hcwd). done.
  - intros row Hin Ht Hd.
    destruct (session_of_row_bare cutoff ncwd row Ht Hd) as (s & Hs & <-).
    apply list_elem_of_fmap. exists s. split; [done|].
    apply list_elem_of_omap. by exists row.
Qed.

Lemma sample_query_sessions :
  writes (queryDb session_runtime (session_rows session_runtime)
            "/data/opencode/opencode.db" sessions_sql)
    (Ok sample_session_rows) [].
Proof. by apply (queryDb_rows _ _ _ _ {| code := 0; stdout := "[{...}]"; stderr := EmptyString |}). Qed.

Lemma readSessionsFromDb_filters_witness :
  ∃ sessions,
    writes (readSessionsFromDb session_runtime "/data/opencode/opencode.db"
              (Some {| maxAgeDays := None; cwd := Some "/work/app" |}))
      (Ok sessions) [] ∧
    sublist (session_id <$> sessions) (srow_id <$> sample_session_rows) ∧
    (∀ s, s ∈ sessions →
       (created (session_time s) = 0
        ∨ now session_runtime
          - default 30 (Some {| maxAgeDays := None; cwd := Some "/work/app" |}
                        ≫= maxAgeDays) * 24 * 60 * 60 * 1000
          ≤ created (session_time s)) ∧
       (∀ c, strip_trailing_slashes
               <$> (Some {| maxAgeDays := None; cwd := Some "/work/app" |} ≫= cwd)
             = Some c →
             c ≠ EmptyString → session_directory s ≠ EmptyString →
             strip_trailing_slashes (session_directory s) = c)) ∧
    (∀ row, row ∈ sample_session_rows →
       srow_time_created row = None → srow_directory row = None →
       srow_id row ∈ session_id <$> sessions).
Proof.
  apply (readSessionsFromDb_filters session_runtime "/data/opencode/opencode.db"
           (Some {| maxAgeDays := None; cwd := Some "/work/app" |})
           sample_session_rows []).
  exact sample_query_sessions.
Defined.

(** A character of the kind dropped, put at the end, is dropped with the
    rest. *)
Lemma drop_end_while_snoc (p : ascii → bool) (s : string) (a : ascii) :
  p a = true →
  drop_end_while p (s +:+ String a EmptyString) = drop_end_while p s.
Proof.
  intros Ha. induction s as [|b s IH].
  - simpl. by rewrite Ha.
  - change (String b s +:+ String a EmptyString)
      with (String b (s +:+ String a EmptyString)).
    cbn [drop_end_while]. by rewrite IH.
Qed.

(** Two loop bodies that agree give the same loop. *)
Lemma for_of_ext {A S} (xs : list A) (body1 body2 : A → S → M S) :
  (∀ x s lg, body1 x s lg = body2 x s lg) →
  ∀ s lg, for_of xs body1 s lg = for_of xs body2 s lg.
Proof.
  intros Hbody. induction xs as [|x xs IH]; intros s lg; [done|].
  rewrite !for_of_cons. unfold mbind, M_bind, bind. rewrite Hbody.
  destruct (body2 x s lg) as [[s'|e] lg']; [apply IH|done].
Qed.

(** X13.  Trailing slashes on the working directory asked for make no difference
    to [readSessionsFromDb]; and a working directory made of slashes only,
    such as the root, filters nothing: the sessions are those returned
    when no directory is asked for. *)
Theorem readSessionsFromDb_cwd_slashes (rt : Runtime) (db : string)
    (age : option Z) (c : string) :
  readSessionsFromDb rt db (Some {| maxAgeDays := age; cwd := Some (c +:+ "/") |})
  = readSessionsFromDb rt db (Some {| maxAgeDays := age; cwd := Some c |}) ∧
  (strip_trailing_slashes c = EmptyString →
   ∀ lg, readSessionsFromDb rt db (Some {| maxAgeDays := age; cwd := Some c |}) lg
         = readSessionsFromDb rt db (Some {| maxAgeDays := age; cwd := None |}) lg).
Proof.
  split.
  - unfold readSessionsFromDb.
    cbn [mbind option_bind cwd maxAgeDays fmap option_fmap option_map].
    unfold strip_trailing_slashes at 1.
    rewrite (drop_end_while_snoc _ c "/") by done.
    reflexivity.
  - intros Hc lg. unfold readSessionsFromDb.
    cbn [mbind option_bind cwd maxAgeDays fmap option_fmap option_map].
    rewrite Hc. unfold mbind, M_bind, bind.
    destruct (queryDb rt (session_rows rt) db sessions_sql lg)
      as [[rows|e] lg']; [|done].
    apply for_of_ext. intros row s lg''.
    unfold session_of_row. by cbn [truthy_str andb].
Qed.

Lemma readSessionsFromDb_cwd_slashes_witness :
  readSessionsFromDb session_runtime "/data/opencode/opencode.db"
    (Some {| maxAgeDays := None; cwd := Some "//" |}) []
  = readSessionsFromDb session_runtime "/data/opencode/opencode.db"
      (Some {| maxAgeDays := None; cwd := None |}) [].
Proof.
  apply (readSessionsFromDb_cwd_slashes session_runtime
           "/data/opencode/opencode.db" None "//").
  reflexivity.
Defined.

Lemma parsed_skipped_length (rt : Runtime) (rows : list MessageRow) :
  (length (parsed_messages rt rows) + length (skipped_messages_log rt rows)
   = length rows)%nat.
Proof.
  induction rows as [|row rows IH]; [done|].
  rewrite parsed_messages_cons, skipped_messages_log_cons.
  destruct (message_of_row rt row); cbn [length]; lia.
Qed.

(** The ids of a message are the columns of its row, whatever the payload
    holds. *)
Lemma message_of_row_ids (rt : Runtime) (row : MessageRow) m :
  message_of_row rt row = Ok m →
  msg_id (base_of m) = mrow_id row ∧
  msg_sessionID (base_of m) = mrow_session_id row.
Proof.
  unfold message_of_row.
  destruct (JSON_parse rt (mrow_data row)) as [data|e]; [|done].
  cbn [mbind Res_bind].
  destruct data as [|b|z|s|l|obj]; cbn [get mbind Res_bind mret Res_ret];
    try done;
    repeat match goal with
           | |- context [match ?x with _ => _ end] => destruct x
           end;
    by intros [= <-].
Qed.

(** X14.  [readMessagesFromDb] accounts for every row.  Each row gives one
    message or one log entry, never both and never neither.  When the call
    returns, each message returned comes from a row, whose [id] and
    [session_id] columns it carries, and messages and log entries together
    are as many as the rows.  The call returns when the creation times of
    the payloads are numbers; it throws only from the comparator of the
    sort, which stands outside the [try] block, and so only when two rows or
    more were read into messages. *)
Theorem readMessagesFromDb_accounts_for_rows (rt : Runtime) (db sid : string)
    (rows : list MessageRow) (w : Log) :
  writes (queryDb rt (message_rows rt) db (messages_sql sid)) (Ok rows) w →
  ∃ r w',
    writes (readMessagesFromDb rt db sid) r (w ++ w')%list ∧
    (∀ msgs, r = Ok msgs →
       (length msgs + length w' = length rows)%nat ∧
       (∀ m, m ∈ msgs →
          ∃ row, row ∈ rows ∧ message_of_row rt row = Ok m ∧
                 msg_id (base_of m) = mrow_id row ∧
                 msg_sessionID (base_of m) = mrow_session_id row)) ∧
    (numeric_times rt rows → ∃ msgs, r = Ok msgs) ∧
    (∀ e, r = Throw e → (length w' + 2 ≤ length rows)%nat).
Proof.
  intros Hq. eexists _, _.
  split; [by apply readMessagesFromDb_writes|].
  split; [|split].
  - intros msgs Hmsgs. pose proof (sort_res_perm _ _ _ Hmsgs) as Hperm. split.
    + rewrite (Permutation_length Hperm). apply parsed_skipped_length.
    + intros m Hin. rewrite Hperm in Hin.
      apply list_elem_of_omap in Hin as (row & Hrow & Hm).
      exists row. split; [done|].
      destruct (message_of_row rt row) as [m'|e] eqn:Hmsg; [|done].
      injection Hm as ->. split; [done|].
      exact (message_of_row_ids rt row m Hmsg).
  - intros Hnum. rewrite (sort_numeric rt) by (by apply numeric_times_created).
    by eexists.
  - intros e Hthrow. apply sort_res_throw in Hthrow.
    pose proof (parsed_skipped_length rt rows). lia.
Qed.

Lemma readMessagesFromDb_accounts_for_rows_witness :
  ∃ r w',
    writes (readMessagesFromDb sample_runtime "/data/opencode/opencode.db" "ses_1")
      r ([] ++ w')%list ∧
    (∀ msgs, r = Ok msgs →
       (length msgs + length w' = length sample_message_rows)%nat ∧
       (∀ m, m ∈ msgs →
          ∃ row, row ∈ sample_message_rows ∧
                 message_of_row sample_runtime row = Ok m ∧
                 msg_id (base_of m) = mrow_id row ∧
                 msg_sessionID (base_of m) = mrow_session_id row)) ∧
    (numeric_times sample_runtime sample_message_rows → ∃ msgs, r = Ok msgs) ∧
    (∀ e, r = Throw e → (length w' + 2 ≤ length sample_message_rows)%nat).
Proof.
  apply (readMessagesFromDb_accounts_for_rows sample_runtime
           "/data/opencode/opencode.db" "ses_1" sample_message_rows []).
  apply sample_query_messages.
Defined.

(** X15.  A message row is turned into a message exactly when its payload parses
    to something other than [null]; the message is the assistant variant
    exactly when the payload is an object whose [role] is the string
    [assistant], so a payload without role, or one that is no object, gives
    a user message. *)
Theorem message_of_row_variant (rt : Runtime) (row : MessageRow) :
  (∀ m, message_of_row rt row = Ok m →
     ∃ data, JSON_parse rt (mrow_data row) = Ok data ∧ data ≠ JNull ∧
       (is_assistant m = true
        ↔ opt_chain (Some data) "role" = Some (JStr "assistant"))) ∧
  (∀ data, JSON_parse rt (mrow_data row) = Ok data → data ≠ JNull →
     ∃ m, message_of_row rt row = Ok m).
Proof.
  unfold message_of_row. split.
  - intros m.
    destruct (JSON_parse rt (mrow_data row)) as [data|e]; [|done].
    cbn [mbind Res_bind].
    destruct data as [|b|z|s|l|obj]; cbn [get mbind Res_bind mret Res_ret opt_chain];
      try done;
      try (intros [= <-]; eexists; split; [done|]; split; [done|];
           by cbn [is_assistant]).
    destruct (obj !! "role") as [[|b|z|role|l|m']|] eqn:Hrole;
      try (intros [= <-]; exists (JObj obj); split; [done|]; split; [done|];
           cbn [is_assistant opt_chain]; rewrite Hrole; by split).
    repeat (destruct role as [|[[] [] [] [] [] [] [] []] role];
            try (intros [= <-]; exists (JObj obj); split; [done|]; split; [done|];
                 cbn [is_assistant opt_chain]; rewrite Hrole;
                 split; intros H; (done || by injection H))).
  - intros data -> Hnull. cbn [mbind Res_bind].
    destruct data as [|b|z|s|l|obj]; cbn [get mbind Res_bind mret Res_ret];
      try done; try by eexists.
    repeat match goal with
           | |- context [match ?x with _ => _ end] => destruct x
           end; by eexists.
Qed.

(** A turn of the loop over part rows leaves the other keys alone. *)
Lemma part_step_other (rt : Runtime) pm row k :
  prow_message_id row ≠ k → part_step rt pm row !! k = pm !! k.
Proof.
  intros Hne. destruct (part_step_cases rt pm row) as [->|(data & _ & ->)]; [done|].
  by rewrite lookup_insert_ne.
Qed.

(** A turn of the loop appends the part of its row under the row's key. *)
Lemma part_step_same (rt : Runtime) pm row :
  prow_message_id row ∉ Object_prototype_keys →
  part_step rt pm row !! prow_message_id row
  = match value (JSON_parse rt (prow_data row)) with
    | Some data =>
        Some (default [] (pm !! prow_message_id row) ++ [part_of_row row data])%list
    | None => pm !! prow_message_id row
    end.
Proof.
  intros Hk. unfold part_step, try_part, push_part.
  destruct (JSON_parse rt (prow_data row)) as [data|e];
    cbn [mbind Res_bind value from_option id]; [|done].
  destruct (pm !! prow_message_id row) as [parts|] eqn:Hpm;
    cbn [value from_option id].
  - by rewrite lookup_insert_eq.
  - rewrite bool_decide_eq_false_2 by done. cbn [value from_option id].
    by rewrite lookup_insert_eq.
Qed.

(** A key named like a member of [Object.prototype] is never written. *)
Lemma part_step_prototype (rt : Runtime) pm row k :
  k ∈ Object_prototype_keys → pm !! k = None →
  part_step rt pm row !! k = None ∧
  (prow_message_id row = k → ∃ e, try_part rt pm row = Throw e).
Proof.
  intros Hk Hpm. unfold part_step, try_part, push_part.
  destruct (JSON_parse rt (prow_data row)) as [data|e];
    cbn [mbind Res_bind value from_option id]; [|by eauto].
  destruct (decide (prow_message_id row = k)) as [->|Hne].
  - rewrite Hpm, bool_decide_eq_true_2 by done.
    cbn [value from_option id]. by eauto.
  - split; [|done].
    destruct (pm !! prow_message_id row) as [parts|];
      [|case_bool_decide]; cbn [value from_option id];
      by rewrite ?lookup_insert_ne.
Qed.

Lemma parts_for_cons (rt : Runtime) k row rows :
  parts_for rt k (row :: rows)
  = (match (if bool_decide (prow_message_id row = k)
            then part_of_row row <$> value (JSON_parse rt (prow_data row))
            else None) with
     | Some part => [part]
     | None => []
     end ++ parts_for rt k rows)%list.
Proof.
  unfold parts_for. cbn [omap list_omap].
  by destruct (if bool_decide (prow_message_id row = k) then _ else _).
Qed.

(** The loop over part rows, from any map without empty entries. *)
Lemma parts_grouped_from (rt : Runtime) (k : string) (rows : list PartRow) :
  k ∉ Object_prototype_keys →
  ∀ pm, (∀ k' parts, pm !! k' = Some parts → parts ≠ []) →
    (∀ k' parts, foldl (part_step rt) pm rows !! k' = Some parts → parts ≠ []) ∧
    default [] (foldl (part_step rt) pm rows !! k)
    = (default [] (pm !! k) ++ parts_for rt k rows)%list.
Proof.
  intros Hk. induction rows as [|row rows IH]; intros pm Hne.
  { split; [exact Hne|]. by rewrite app_nil_r. }
  cbn [foldl].
  assert (∀ k' parts, part_step rt pm row !! k' = Some parts → parts ≠ []) as Hne'.
  { intros k' parts.
    destruct (part_step_cases rt pm row) as [->|(data & _ & ->)]; [apply Hne|].
    destruct (decide (prow_message_id row = k')) as [<-|Hother].
    - rewrite lookup_insert_eq. intros [= <-]. by intros ?%app_nil_r_inv.
    - rewrite lookup_insert_ne by done. apply Hne. }
  destruct (IH _ Hne') as [Hall Hat]. split; [exact Hall|].
  rewrite Hat, parts_for_cons. clear IH Hall Hat.
  case_bool_decide as Hrow.
  - subst k. rewrite part_step_same by done.
    destruct (JSON_parse rt (prow_data row)) as [data|e];
      cbn [value fmap option_fmap option_map from_option id].
    + by rewrite <- app_assoc.
    + done.
  - by rewrite part_step_other.
Qed.

(** X16.  Under a message id that is no member name of [Object.prototype],
    [readAllPartsForSessionFromDb] files the parts of the rows with that
    message id whose payload parses, in row order; there is no entry when
    there is no such row. *)
Theorem parts_grouped_in_row_order (rt : Runtime) (db sid : string)
    (rows : list PartRow) (w : Log) (k : string) :
  writes (queryDb rt (part_rows rt) db (parts_sql sid)) (Ok rows) w →
  k ∉ Object_prototype_keys →
  ∃ partsMap w',
    writes (readAllPartsForSessionFromDb rt db sid) (Ok partsMap) w' ∧
    partsMap !! k
    = match parts_for rt k rows with
      | [] => None
      | parts => Some parts
      end.
Proof.
  intros Hq Hk. eexists _, _.
  split; [by apply readAllPartsForSessionFromDb_writes|].
  destruct (parts_grouped_from rt k rows Hk ∅) as [Hne Hat]; [done|].
  unfold parts_of. rewrite lookup_empty in Hat. cbn [from_option id app] in Hat.
  destruct (foldl (part_step rt) ∅ rows !! k) as [parts|] eqn:Hlook;
    cbn [from_option id] in Hat; rewrite <- Hat.
  - specialize (Hne _ _ Hlook). by destruct parts.
  - done.
Qed.

Lemma parts_grouped_in_row_order_witness :
  ∃ partsMap w',
    writes (readAllPartsForSessionFromDb sample_runtime
              "/data/opencode/opencode.db" "ses_1") (Ok partsMap) w' ∧
    partsMap !! "msg_1"
    = match parts_for sample_runtime "msg_1" sample_part_rows with
      | [] => None
      | parts => Some parts
      end.
Proof.
  apply (parts_grouped_in_row_order sample_runtime "/data/opencode/opencode.db"
           "ses_1" sample_part_rows []).
  - apply sample_query_parts.
  - unfold Object_prototype_keys. intros Hin.
    repeat (apply elem_of_cons in Hin as [Hin|Hin]; [discriminate Hin|]).
    by apply elem_of_nil in Hin.
Defined.

(** The loop over part rows never writes under a member name of
    [Object.prototype], and logs each row that carries one. *)
Lemma parts_prototype_from (rt : Runtime) (rows : list PartRow) :
  ∀ pm, (∀ k, k ∈ Object_prototype_keys → pm !! k = None) →
    (∀ k, k ∈ Object_prototype_keys → foldl (part_step rt) pm rows !! k = None) ∧
    (∀ row, row ∈ rows → prow_message_id row ∈ Object_prototype_keys →
       ("[sqlite-reader] Failed to parse part row: " +:+ prow_id row)
         ∈ skipped_parts_log rt pm rows).
Proof.
  induction rows as [|row rows IH]; intros pm Hpm.
  { split; [exact Hpm|]. by intros row ?%elem_of_nil. }
  cbn [foldl skipped_parts_log].
  assert (∀ k, k ∈ Object_prototype_keys → part_step rt pm row !! k = None) as Hpm'.
  { intros k Hk. by apply part_step_prototype, Hpm. }
  destruct (IH _ Hpm') as [Hall Hlog]. split; [exact Hall|].
  intros row' Hin Hk. apply elem_of_app.
  apply elem_of_cons in Hin as [->|Hin]; [left|right; by apply Hlog].
  destruct (part_step_prototype rt pm row _ Hk (Hpm _ Hk)) as [_ Hthrow].
  destruct (Hthrow eq_refl) as [e ->]. by apply list_elem_of_singleton.
Qed.

(** X17.  [readAllPartsForSessionFromDb] never files parts under a member name of
    [Object.prototype] ([constructor], [toString], [__proto__] and the
    like): the result has no such key, and every row with such a message id
    is logged as failed, whether its payload parses or not. *)
Theorem parts_never_under_prototype_names (rt : Runtime) (db sid : string)
    (rows : list PartRow) (w : Log) :
  writes (queryDb rt (part_rows rt) db (parts_sql sid)) (Ok rows) w →
  ∃ partsMap w',
    writes (readAllPartsForSessionFromDb rt db sid) (Ok partsMap) (w ++ w')%list ∧
    (∀ k, k ∈ Object_prototype_keys → partsMap !! k = None) ∧
    (∀ row, row ∈ rows → prow_message_id row ∈ Object_prototype_keys →
       ("[sqlite-reader] Failed to parse part row: " +:+ prow_id row) ∈ w').
Proof.
  intros Hq. eexists _, _.
  split; [by apply readAllPartsForSessionFromDb_writes|].
  apply parts_prototype_from. intros k _. apply lookup_empty.
Qed.

Lemma prototype_query_parts sid :
  writes (queryDb prototype_runtime (part_rows prototype_runtime)
            "/data/opencode/opencode.db" (parts_sql sid))
    (Ok prototype_part_rows) [].
Proof. by apply (queryDb_rows _ _ _ _ {| code := 0; stdout := "[{...}]"; stderr := EmptyString |}). Qed.

Lemma parts_never_under_prototype_names_witness :
  ∃ partsMap w',
    writes (readAllPartsForSessionFromDb prototype_runtime
              "/data/opencode/opencode.db" "ses_1") (Ok partsMap) ([] ++ w')%list ∧
    (∀ k, k ∈ Object_prototype_keys → partsMap !! k = None) ∧
    (∀ row, row ∈ prototype_part_rows → prow_message_id row ∈ Object_prototype_keys →
       ("[sqlite-reader] Failed to parse part row: " +:+ prow_id row) ∈ w').
Proof.
  apply (parts_never_under_prototype_names prototype_runtime
           "/data/opencode/opencode.db" "ses_1" prototype_part_rows []).
  apply prototype_query_parts.
Defined.

End ReaderFacts.

(** ** The request sanitizer *)
Module SanitizerFacts.
Import JS JSString Sanitizer MonadFacts SqliteReaderFacts.

Lemma stripped_lookup (m : gmap string json) (k : string) :
  stripped m !! k = if bool_decide (k ∈ UNSUPPORTED_PARAMS) then None else m !! k.
Proof.
  unfold stripped, UNSUPPORTED_PARAMS. cbn [foldl].
  rewrite !lookup_delete.
  case_bool_decide as Hk.
  - repeat (apply elem_of_cons in Hk as [->|Hk]; [by repeat case_decide|]).
    by apply elem_of_nil in Hk.
  - repeat case_decide; try done; subst k; destruct Hk; repeat constructor.
Qed.

Lemma present_params_stripped (m : gmap string json) :
  present_params (stripped m) = [].
Proof.
  unfold present_params, UNSUPPORTED_PARAMS.
  rewrite !filter_cons, filter_nil.
  rewrite !stripped_lookup.
  repeat (rewrite bool_decide_eq_true_2 by (unfold UNSUPPORTED_PARAMS; repeat constructor)).
  repeat case_decide; try done; by match goal with H : is_Some None |- _ => destruct H end.
Qed.

(** One turn of the loop on an object, for a name that is not inherited. *)
Lemma strip_param_obj (p : string) (m : gmap string json) (acc : list string) lg :
  p ∉ Object_prototype_keys →
  strip_param p (JObj m, acc) lg
  = (Ok (if bool_decide (is_Some (m !! p))
         then (JObj (delete p m), (acc ++ [p])%list) else (JObj m, acc)), lg).
Proof.
  intros Hp. unfold strip_param, js_in, mbind, M_bind, bind, lift.
  cbn [fst snd]. rewrite (bool_decide_eq_false_2 (p ∈ Object_prototype_keys)) by done.
  rewrite orb_false_r. by case_bool_decide.
Qed.

Lemma UNSUPPORTED_PARAMS_own p :
  p ∈ UNSUPPORTED_PARAMS → p ∉ Object_prototype_keys.
Proof.
  unfold UNSUPPORTED_PARAMS. intros Hp.
  repeat (apply elem_of_cons in Hp as [->|Hp];
          [unfold Object_prototype_keys; intros Hin;
           repeat (apply elem_of_cons in Hin as [Hin|Hin]; [discriminate Hin|]);
           by apply elem_of_nil in Hin|]).
  by apply elem_of_nil in Hp.
Qed.

Lemma filter_delete_notin (p : string) (ps : list string) (m : gmap string json) :
  p ∉ ps →
  filter (λ q, is_Some (delete p m !! q)) ps = filter (λ q, is_Some (m !! q)) ps.
Proof.
  induction ps as [|q ps IH]; intros Hp; [done|].
  rewrite !filter_cons.
  rewrite lookup_delete_ne by (intros ->; apply Hp; by left).
  rewrite IH; [done|]. intros Hin. apply Hp. by right.
Qed.

(** The loop over names that are not inherited, each listed once, on an
    object: the keys present go, in the order of the list. *)
Lemma strip_loop_from (ps : list string) :
  NoDup ps → (∀ p, p ∈ ps → p ∉ Object_prototype_keys) →
  ∀ (m : gmap string json) acc lg,
    for_of ps strip_param (JObj m, acc) lg
    = (Ok (JObj (foldl (λ m' p, delete p m') m ps),
           (acc ++ filter (λ p, is_Some (m !! p)) ps)%list), lg).
Proof.
  induction ps as [|p ps IH]; intros Hnd Hown m acc lg.
  { cbn [for_of foldl]. by rewrite filter_nil, app_nil_r. }
  apply NoDup_cons in Hnd as [Hp Hnd].
  rewrite for_of_cons. unfold mbind, M_bind, bind.
  rewrite strip_param_obj by (apply Hown; by left).
  rewrite filter_cons. cbn [foldl].
  assert (∀ q, q ∈ ps → q ∉ Object_prototype_keys) as Hown'
    by (intros q Hq; apply Hown; by right).
  case_bool_decide as Hpres; case_decide; try done.
  - rewrite (IH Hnd Hown'), filter_delete_notin by done.
    by rewrite <- app_assoc.
  - rewrite (IH Hnd Hown').
    rewrite delete_id; [done|].
    destruct (m !! p) eqn:Hl; [|done]. destruct Hpres. by eexists.
Qed.

Lemma strip_loop_obj (m : gmap string json) lg :
  for_of UNSUPPORTED_PARAMS strip_param (JObj m, []) lg
  = (Ok (JObj (stripped m), present_params m), lg).
Proof.
  apply strip_loop_from.
  - unfold UNSUPPORTED_PARAMS. repeat constructor; intros Hin;
      repeat (apply elem_of_cons in Hin as [Hin|Hin]; [discriminate Hin|]);
      by apply elem_of_nil in Hin.
  - apply UNSUPPORTED_PARAMS_own.
Qed.

(** On an array the loop strips nothing; on any other value that is not an
    object it throws. *)
Lemma strip_loop_other (body : json) lg :
  (∀ m, body ≠ JObj m) →
  for_of UNSUPPORTED_PARAMS strip_param (body, []) lg = (Ok (body, []), lg)
  ∨ ∃ e, for_of UNSUPPORTED_PARAMS strip_param (body, []) lg = (Throw e, lg).
Proof.
  intros Hobj. destruct body as [|b|z|s|l|m];
    try (right; eexists; by vm_compute).
  - left. by vm_compute.
  - by destruct (Hobj m).
Qed.

(** When there is nothing to strip, [onRequest] leaves the context and the
    log as they are. *)
Lemma onRequest_unchanged (c : Codec) (context : ProxyContext) lg :
  requestBody context = None
  ∨ has_json_content_type context = false
  ∨ (∀ buf m, requestBody context = Some buf →
       JSON_parse c (Buffer_toString c buf) = Ok (JObj m) →
       present_params m = []) →
  onRequest c context lg = (Ok context, lg).
Proof.
  intros Hcase. unfold onRequest.
  destruct (requestBody context) as [buf|] eqn:Hbody; [|done].
  destruct (has_json_content_type context) eqn:Hjson; [|done].
  destruct Hcase as [?|[?|Hnone]]; [done..|]. cbn [negb].
  unfold try_catch, mbind, M_bind, bind, lift.
  destruct (JSON_parse c (Buffer_toString c buf)) as [body|e] eqn:Hparse; [|done].
  assert ((∃ m, body = JObj m) ∨ ∀ m, body ≠ JObj m) as [[m ->]|Hother]
    by (destruct body; eauto).
  - rewrite strip_loop_obj. cbn [fst snd].
    by rewrite (Hnone buf m eq_refl Hparse).
  - by destruct (strip_loop_other body lg Hother) as [->|[e ->]].
Qed.

(** X18.  [onRequest] passes the request through, context and log untouched,
    when there is no body, when the content type is not JSON, and when the
    body is not an object that holds one of the unsupported parameters:
    text that does not parse, a number, a string, [null], an array, or an
    object without those keys. *)
Theorem onRequest_pass_through (c : Codec) (context : ProxyContext) :
  requestBody context = None
  ∨ has_json_content_type context = false
  ∨ (∀ buf m, requestBody context = Some buf →
       JSON_parse c (Buffer_toString c buf) = Ok (JObj m) →
       present_params m = []) →
  writes (onRequest c context) (Ok context) [].
Proof.
  intros Hcase lg. rewrite app_nil_r. by apply onRequest_unchanged.
Qed.

Lemma onRequest_pass_through_witness :
  writes (onRequest sample_codec number_request) (Ok number_request) [].
Proof.
  apply (onRequest_pass_through sample_codec number_request).
  right; right. intros buf m [= <-]. vm_compute. discriminate.
Defined.

(** What [onRequest] does to a JSON object that holds unsupported
    parameters. *)
Lemma onRequest_stripping (c : Codec) (context : ProxyContext) buf m lg :
  requestBody context = Some buf →
  has_json_content_type context = true →
  JSON_parse c (Buffer_toString c buf) = Ok (JObj m) →
  present_params m ≠ [] →
  onRequest c context lg
  = (Ok {| requestBody := Some (Buffer_from c (JSON_stringify c (JObj (stripped m))));
           headers :=
             <["content-length" :=
                 pretty (String.length
                           (Buffer_from c (JSON_stringify c (JObj (stripped m)))))]>
               (headers context) |},
     (lg ++ ["[request-sanitizer] Stripped unsupported params: "
             +:+ join ", " (present_params m)])%list).
Proof.
  intros Hbody Hjson Hparse Hpres. unfold onRequest.
  rewrite Hbody, Hjson. cbn [negb].
  unfold try_catch, mbind, M_bind, bind, lift.
  rewrite Hparse, strip_loop_obj. cbn [fst snd].
  by destruct (present_params m).
Qed.

(** X19.  When the body is a JSON object that holds unsupported parameters,
    [onRequest] replaces it by the serialisation of the object without
    them, every other key kept with its value, sets [content-length] to the
    size of the new body, leaves the other headers alone, and logs the
    names stripped, in the order of [UNSUPPORTED_PARAMS]. *)
Theorem onRequest_strips (c : Codec) (context : ProxyContext)
    (buf : string) (m : gmap string json) :
  requestBody context = Some buf →
  has_json_content_type context = true →
  JSON_parse c (Buffer_toString c buf) = Ok (JObj m) →
  present_params m ≠ [] →
  ∃ context' m' newBody,
    writes (onRequest c context) (Ok context')
      ["[request-sanitizer] Stripped unsupported params: "
       +:+ join ", " (present_params m)] ∧
    requestBody context' = Some newBody ∧
    newBody = Buffer_from c (JSON_stringify c (JObj m')) ∧
    (∀ k, m' !! k = if bool_decide (k ∈ UNSUPPORTED_PARAMS) then None else m !! k) ∧
    headers context' !! "content-length" = Some (pretty (String.length newBody)) ∧
    (∀ name, name ≠ "content-length" →
       headers context' !! name = headers context !! name).
Proof.
  intros Hbody Hjson Hparse Hpres.
  eexists _, (stripped m), _. split; [|split; [|split; [|split; [|split]]]].
  - intros lg. by apply (onRequest_stripping c context buf m).
  - done.
  - done.
  - apply stripped_lookup.
  - cbn [headers]. by rewrite lookup_insert_eq.
  - intros name Hname. cbn [headers]. by rewrite lookup_insert_ne.
Qed.

Lemma sample_present_params :
  present_params {[ "model" := JStr "gpt-5"; "reasoning" := JObj ∅;
                    "reasoningSummary" := JStr "auto" ]}
  = ["reasoningSummary"; "reasoning"].
Proof. by vm_compute. Qed.

Lemma onRequest_strips_witness :
  ∃ context' m' newBody,
    writes (onRequest sample_codec sample_request) (Ok context')
      ["[request-sanitizer] Stripped unsupported params: "
       +:+ join ", " (present_params
                        {[ "model" := JStr "gpt-5"; "reasoning" := JObj ∅;
                           "reasoningSummary" := JStr "auto" ]})] ∧
    requestBody context' = Some newBody ∧
    newBody = Buffer_from sample_codec (JSON_stringify sample_codec (JObj m')) ∧
    (∀ k, m' !! k
          = if bool_decide (k ∈ UNSUPPORTED_PARAMS) then None
            else ({[ "model" := JStr "gpt-5"; "reasoning" := JObj ∅;
                     "reasoningSummary" := JStr "auto" ]} : gmap string json) !! k) ∧
    headers context' !! "content-length" = Some (pretty (String.length newBody)) ∧
    (∀ name, name ≠ "content-length" →
       headers context' !! name = headers sample_request !! name).
Proof.
  apply (onRequest_strips sample_codec sample_request body_with_reasoning).
  - reflexivity.
  - vm_compute. reflexivity.
  - vm_compute. reflexivity.
  - rewrite sample_present_params. discriminate.
Defined.

(** X20.  Sanitizing is idempotent: when the new body reads back as the object
    that was serialised, [onRequest] on the context it left finds nothing
    to strip and leaves context and log untouched. *)
Theorem onRequest_idempotent (c : Codec) (context context' : ProxyContext)
    (buf : string) (m : gmap string json) (w : Log) :
  requestBody context = Some buf →
  has_json_content_type context = true →
  JSON_parse c (Buffer_toString c buf) = Ok (JObj m) →
  round_trip_on c (JObj (stripped m)) →
  writes (onRequest c context) (Ok context') w →
  writes (onRequest c context') (Ok context') [].
Proof.
  intros Hbody Hjson Hparse Hround Hfirst lg. rewrite app_nil_r.
  destruct (decide (present_params m = [])) as [Hnone|Hsome].
  - assert (context' = context) as ->.
    { specialize (Hfirst []).
      rewrite onRequest_unchanged in Hfirst; [by injection Hfirst|].
      right; right. intros buf' m' Hb Hp.
      rewrite Hbody in Hb. injection Hb as <-. rewrite Hparse in Hp.
      by injection Hp as <-. }
    apply onRequest_unchanged. right; right. intros buf' m' Hb Hp.
    rewrite Hbody in Hb. injection Hb as <-. rewrite Hparse in Hp.
    by injection Hp as <-.
  - specialize (Hfirst []).
    rewrite (onRequest_stripping c context buf m [] Hbody Hjson Hparse Hsome) in Hfirst.
    injection Hfirst as <- _.
    apply onRequest_unchanged. right; right. cbn [requestBody].
    intros buf' m' [= <-] Hp. unfold round_trip_on in Hround.
    rewrite Hround in Hp. injection Hp as <-.
    apply present_params_stripped.
Qed.

Lemma onRequest_idempotent_witness :
  writes (onRequest sample_codec
            {| requestBody := Some body_plain;
               headers := <["content-length" := "17"]> (headers sample_request) |})
    (Ok {| requestBody := Some body_plain;
           headers := <["content-length" := "17"]> (headers sample_request) |}) [].
Proof.
  apply (onRequest_idempotent sample_codec sample_request _ body_with_reasoning
           {[ "model" := JStr "gpt-5"; "reasoning" := JObj ∅;
              "reasoningSummary" := JStr "auto" ]}
           ["[request-sanitizer] Stripped unsupported params: reasoningSummary, reasoning"]).
  - reflexivity.
  - vm_compute. reflexivity.
  - vm_compute. reflexivity.
  - vm_compute. reflexivity.
  - intros lg. vm_compute. reflexivity.
Defined.

End SanitizerFacts.

(** ** The model flag of the Gemini plugin *)
Module GeminiPluginFacts.
Import JS JSString GeminiPlugin.

Lemma some_from_spec {A} (p : nat → A → bool) (l : list A) (i : nat) :
  some_from i p l = true ↔ ∃ j x, l !! j = Some x ∧ p (i + j)%nat x = true.
Proof.
  revert i. induction l as [|a l IH]; intros i; cbn [some_from].
  { split; [done|]. by intros (j & x & Hl & _). }
  rewrite orb_true_iff, IH. split.
  - intros [Hp|(j & x & Hl & Hp)].
    + exists 0%nat, a. by rewrite Nat.add_0_r.
    + exists (S j), x. split; [done|]. by replace (i + S j)%nat with (S i + j)%nat by lia.
  - intros ([|j] & x & Hl & Hp).
    + left. injection Hl as ->. by rewrite Nat.add_0_r in Hp.
    + right. exists j, x. split; [done|].
      by replace (S i + j)%nat with (i + S j)%nat by lia.
Qed.

(** A model flag is found when [-m] or [--model] stands before the last
    position. *)
Lemma hasModelArg_spec (args : list string) :
  hasModelArg args = true
  ↔ ∃ j x, args !! j = Some x ∧ (x = "-m" ∨ x = "--model")
           ∧ (j + 1 < length args)%nat.
Proof.
  unfold hasModelArg. rewrite some_from_spec.
  split; intros (j & x & Hl & H); exists j, x; (split; [done|]).
  - apply andb_true_iff in H as [Hx Hlt]. apply Nat.ltb_lt in Hlt.
    apply orb_true_iff in Hx as [Hx|Hx]; apply String.eqb_eq in Hx; auto.
  - destruct H as [Hx Hlt]. apply andb_true_iff. split.
    + apply orb_true_iff. destruct Hx as [->| ->]; auto.
    + by apply Nat.ltb_lt.
Qed.

(** X21.  [enrichArgs] of the Gemini plugin is idempotent. *)
Theorem gemini_model_flag_idempotent (args : list string) (model : option string) :
  enrichArgs (enrichArgs args model) model = enrichArgs args model.
Proof.
  unfold enrichArgs.
  destruct (negb (hasModelArg args) && truthy_str model) eqn:Hadd.
  - replace (hasModelArg ("-m" :: default EmptyString model :: args)) with true
      by done.
    reflexivity.
  - by rewrite Hadd.
Qed.

(** X22.  With a model configured, the arguments [enrichArgs] returns carry a
    model flag followed by a value, and the original arguments are their
    tail; when the only model flags of the original arguments stand in last
    position, without a value, the configured model is put in front. *)
Theorem gemini_enrichArgs_model_flag (args : list string) (model : option string) :
  truthy_str model = true →
  hasModelArg (enrichArgs args model) = true ∧
  (∃ front, enrichArgs args model = (front ++ args)%list) ∧
  ((∀ j x, args !! j = Some x → x = "-m" ∨ x = "--model" →
           (j + 1)%nat = length args) →
   enrichArgs args model = "-m" :: default EmptyString model :: args).
Proof.
  intros Hmodel. unfold enrichArgs. rewrite Hmodel, andb_true_r.
  destruct (hasModelArg args) eqn:Hhas; cbn [negb].
  - split; [done|]. split; [by exists []|].
    intros Hlast. exfalso.
    apply hasModelArg_spec in Hhas as (j & x & Hl & Hx & Hlt).
    specialize (Hlast j x Hl Hx). lia.
  - split; [done|]. split; [by exists ["-m"; default EmptyString model]|done].
Qed.

Lemma gemini_enrichArgs_model_flag_witness :
  hasModelArg (enrichArgs ["--yolo"; "-m"] (Some "gemini-2.5-pro")) = true ∧
  (∃ front, enrichArgs ["--yolo"; "-m"] (Some "gemini-2.5-pro")
            = (front ++ ["--yolo"; "-m"])%list) ∧
  ((∀ j x, ["--yolo"; "-m"] !! j = Some x → x = "-m" ∨ x = "--model" →
           (j + 1)%nat = length ["--yolo"; "-m"]) →
   enrichArgs ["--yolo"; "-m"] (Some "gemini-2.5-pro")
   = "-m" :: default EmptyString (Some "gemini-2.5-pro") :: ["--yolo"; "-m"]).
Proof.
  apply (gemini_enrichArgs_model_flag ["--yolo"; "-m"] (Some "gemini-2.5-pro")).
  reflexivity.
Defined.

End GeminiPluginFacts.

(** ** The shell hooks plugin *)
Module ShellHooksFacts.
Import JS JSString ShellHooks.

(** What the [try] block of [parseResponse] can return. *)
Lemma response_of_json_fields (event : HookEventName) (json : json) r :
  response_of_json event json = Ok r →
  blocked r = false ∧ reason r = None ∧
  (∀ u, updatedInput r = Some u →
     event = PreToolUse ∧ typeof_object u = true ∧ truthy u = true
     ∧ permissionDecision r = None ∧ additionalContext r = None) ∧
  (∀ d, permissionDecision r = Some d →
     event = PermissionRequest ∧ d ∈ decisions
     ∧ updatedInput r = None ∧ additionalContext r = None) ∧
  (∀ c, additionalContext r = Some c →
     event = PreCompact ∧ updatedInput r = None ∧ permissionDecision r = None).
Proof.
  unfold response_of_json, known_decision, not_blocked.
  destruct json as [|b|z|s|l|m];
    destruct event; repeat case_bool_decide; try done;
    cbn [get mbind Res_bind mret Res_ret opt_chain or_undefined option_truthy
         typeof_object andb negb from_option id];
    repeat case_match; simplify_eq;
    try (intros [= <-]; cbn [blocked reason updatedInput permissionDecision
                             additionalContext];
         repeat split; try done; intros; simplify_eq; try done).
  all: try match goal with
           | Heq : ?x = Some ?u, H : option_truthy ?x && _ = true |- _ =>
               rewrite Heq in H; cbn [from_option id option_truthy] in H;
               apply andb_true_iff in H as [? ?]; done
           | H : _ && bool_decide (?d ∈ decisions) = true |- ?d ∈ decisions =>
               apply andb_true_iff in H as [_ H];
               by apply bool_decide_eq_true_1 in H
           end.
Qed.

Lemma not_blocked_fields :
  blocked not_blocked = false ∧ reason not_blocked = None ∧
  updatedInput not_blocked = None ∧ permissionDecision not_blocked = None ∧
  additionalContext not_blocked = None.
Proof. done. Qed.

(** The response to a command that did not end with exit code 2. *)
Lemma parseResponse_not_2 (JSON_parse : string → Res json)
    (result : ExecResult) (event : HookEventName) :
  exitCode result ≠ 2 →
  parseResponse JSON_parse result event = not_blocked
  ∨ exitCode result = 0 ∧
    ∃ json, JSON_parse (trim (stdout result)) = Ok json ∧
            response_of_json event json
            = Ok (parseResponse JSON_parse result event).
Proof.
  intros Hexit. unfold parseResponse.
  rewrite (proj2 (Z.eqb_neq _ _) Hexit).
  destruct (exitCode result =? 0) eqn:Hzero; cbn [negb]; [|by left].
  destruct (negb (truthy_str (Some (trim (stdout result))))); [by left|].
  destruct (JSON_parse (trim (stdout result))) as [json|e] eqn:Hparse;
    cbn [mbind Res_bind]; [|by left].
  destruct (response_of_json event json) as [r|e] eqn:Hr; [|by left].
  right. split; [by apply Z.eqb_eq|]. by exists json.
Qed.

Lemma parseResponse_blocked_iff (JSON_parse : string → Res json)
    (result : ExecResult) (event : HookEventName) :
  blocked (parseResponse JSON_parse result event) = true ↔ exitCode result = 2.
Proof.
  destruct (decide (exitCode result = 2)) as [H2|H2].
  - unfold parseResponse. by rewrite H2.
  - destruct (parseResponse_not_2 JSON_parse result event H2)
      as [->|(_ & json & _ & Hjson)]; [done|].
    apply response_of_json_fields in Hjson as (Hb & _). by rewrite Hb.
Qed.

Lemma parseResponse_reason_nonempty (JSON_parse : string → Res json)
    (result : ExecResult) (event : HookEventName) :
  exitCode result = 2 →
  ∃ s, reason (parseResponse JSON_parse result event) = Some s ∧ s ≠ EmptyString.
Proof.
  intros H2. unfold parseResponse. rewrite H2. cbn [Z.eqb Pos.eqb reason].
  eexists. split; [done|]. by destruct (join LF _).
Qed.

(** X23.  [parseResponse] blocks exactly on exit code 2, and then gives a reason
    that is not empty and nothing else; otherwise it gives no reason; and a
    command that ends with another non-zero code gives nothing at all,
    whatever it printed. *)
Theorem parseResponse_blocks_on_exit_2 (JSON_parse : string → Res json)
    (result : ExecResult) (event : HookEventName) :
  let r := parseResponse JSON_parse result event in
  (blocked r = true ↔ exitCode result = 2) ∧
  (exitCode result = 2 →
     (∃ s, reason r = Some s ∧ s ≠ EmptyString) ∧
     updatedInput r = None ∧ permissionDecision r = None ∧
     additionalContext r = None) ∧
  (exitCode result ≠ 2 → reason r = None) ∧
  (exitCode result ≠ 2 → exitCode result ≠ 0 → r = not_blocked).
Proof.
  cbn zeta.
  destruct (decide (exitCode result = 2)) as [H2|H2].
  - unfold parseResponse. rewrite H2. cbn [Z.eqb Pos.eqb blocked reason
      updatedInput permissionDecision additionalContext].
    split; [done|]. split; [|done]. intros _. split; [|done].
    eexists. split; [done|].
    by destruct (join LF _).
  - assert (blocked (parseResponse JSON_parse result event) = false
            ∧ reason (parseResponse JSON_parse result event) = None) as [Hb Hr].
    { destruct (parseResponse_not_2 JSON_parse result event H2)
        as [->|(_ & json & _ & Hjson)]; [done|].
      by apply response_of_json_fields in Hjson as (? & ? & _). }
    split; [by rewrite Hb|]. split; [done|]. split; [done|].
    intros _ H0.
    by destruct (parseResponse_not_2 JSON_parse result event H2) as [->|(? & _)].
Qed.

(** X24.  The optional fields of a response go by the event: [updatedInput] is
    set for [PreToolUse] only, and is then an object or an array, never a
    primitive value or [null]; [permissionDecision] is set for
    [PermissionRequest] only, and is then [allow], [deny] or [ask];
    [additionalContext] is set for [PreCompact] only; so at most one of the
    three is set, and only after exit code 0. *)
Theorem parseResponse_fields_by_event (JSON_parse : string → Res json)
    (result : ExecResult) (event : HookEventName) :
  let r := parseResponse JSON_parse result event in
  (∀ u, updatedInput r = Some u →
     event = PreToolUse ∧ exitCode result = 0 ∧
     typeof_object u = true ∧ u ≠ JNull ∧
     permissionDecision r = None ∧ additionalContext r = None) ∧
  (∀ d, permissionDecision r = Some d →
     event = PermissionRequest ∧ exitCode result = 0 ∧ d ∈ decisions ∧
     updatedInput r = None ∧ additionalContext r = None) ∧
  (∀ c, additionalContext r = Some c →
     event = PreCompact ∧ exitCode result = 0 ∧
     updatedInput r = None ∧ permissionDecision r = None).
Proof.
  cbn zeta.
  destruct (decide (exitCode result = 2)) as [H2|H2].
  { unfold parseResponse. rewrite H2.
    cbn [Z.eqb Pos.eqb updatedInput permissionDecision additionalContext].
    by repeat split. }
  destruct (parseResponse_not_2 JSON_parse result event H2)
    as [->|(H0 & json & _ & Hjson)]; [by repeat split|].
  apply response_of_json_fields in Hjson as (_ & _ & Hu & Hd & Hc).
  split; [|split].
  - intros u Hupd. destruct (Hu u Hupd) as (? & ? & Ht & ? & ?).
    repeat split; try done. by intros ->.
  - intros d Hdec. destruct (Hd d Hdec) as (? & ? & ? & ?). done.
  - intros c Hctx. destruct (Hc c Hctx) as (? & ? & ?). done.
Qed.

(** The inner loop of [getMatchingCommands] appends to what it is given. *)
Lemma push_hooks_app (result : list Command) (hs : list HookConfig) :
  foldl push_hook result hs = (result ++ foldl push_hook [] hs)%list.
Proof.
  revert result. induction hs as [|h hs IH]; intros result; cbn [foldl].
  { by rewrite app_nil_r. }
  rewrite (IH (push_hook result h)), (IH (push_hook [] h)).
  unfold push_hook. destruct (_ || _); [done|]. by rewrite <- app_assoc.
Qed.

(** What the inner loop appends. *)
Lemma push_hooks_elem (hs : list HookConfig) (c : Command) :
  c ∈ foldl push_hook [] hs →
  command c ≠ EmptyString ∧ timeout c ≠ 0 ∧
  ∃ hook, hook ∈ hs ∧ hook_type hook = "command"
          ∧ hook_command hook = Some (command c).
Proof.
  induction hs as [|h hs IH]; cbn [foldl]; [by intros ?%elem_of_nil|].
  rewrite push_hooks_app. intros [Hc|Hc]%elem_of_app.
  - unfold push_hook in Hc.
    destruct (negb (String.eqb (hook_type h) "command")) eqn:Htype;
      cbn [orb] in Hc; [by apply elem_of_nil in Hc|].
    destruct (hook_command h) as [[|a cmd]|] eqn:Hcmd;
      cbn [truthy_str negb] in Hc; try by apply elem_of_nil in Hc.
    apply list_elem_of_singleton in Hc as ->. cbn [command timeout].
    split; [done|]. split.
    + unfold or_60. destruct (hook_timeout h) as [[| |]|]; lia.
    + exists h. split; [by left|].
      apply negb_false_iff, String.eqb_eq in Htype. done.
  - destruct (IH Hc) as (? & ? & hook & ? & ?).
    split; [done|]. split; [done|]. exists hook. split; [by right|done].
Qed.

(** The outer loop, from any result so far. *)
Lemma matching_loop_app RegExp_test toolName (result : list Command)
    (ms : list HookMatcherEntry) :
  foldl (λ result entry,
           if negb (shouldMatch RegExp_test toolName entry) then result
           else foldl push_hook result (hooks entry)) result ms
  = (result
     ++ foldl (λ result entry,
                 if negb (shouldMatch RegExp_test toolName entry) then result
                 else foldl push_hook result (hooks entry)) [] ms)%list.
Proof.
  revert result. induction ms as [|e ms IH]; intros result; cbn [foldl].
  { by rewrite app_nil_r. }
  destruct (negb (shouldMatch RegExp_test toolName e)); [apply IH|].
  rewrite (IH (foldl push_hook result (hooks e))),
    (IH (foldl push_hook [] (hooks e))), (push_hooks_app result).
  by rewrite <- app_assoc.
Qed.

Lemma getMatchingCommands_unfold RegExp_test config event toolName :
  getMatchingCommands RegExp_test config event toolName
  = foldl (λ result entry,
             if negb (shouldMatch RegExp_test toolName entry) then result
             else foldl push_hook result (hooks entry))
          [] (default [] (config event)).
Proof.
  unfold getMatchingCommands. by destruct (config event) as [[|e ms]|].
Qed.

Lemma matching_loop_elem RegExp_test toolName (ms : list HookMatcherEntry) c :
  c ∈ foldl (λ result entry,
               if negb (shouldMatch RegExp_test toolName entry) then result
               else foldl push_hook result (hooks entry)) [] ms →
  ∃ entry, entry ∈ ms ∧ c ∈ foldl push_hook [] (hooks entry).
Proof.
  induction ms as [|e ms IH]; cbn [foldl]; [by intros ?%elem_of_nil|].
  destruct (negb (shouldMatch RegExp_test toolName e)).
  - intros Hc. destruct (IH Hc) as (entry & ? & ?). exists entry. split; [by right|done].
  - rewrite matching_loop_app. intros [Hc|Hc]%elem_of_app.
    + exists e. split; [by left|done].
    + destruct (IH Hc) as (entry & ? & ?). exists entry. split; [by right|done].
Qed.

(** X25.  Naming a tool only narrows the commands: what [getMatchingCommands]
    returns for a tool is, in order, part of what it returns without tool
    name, where matchers are not consulted; and whatever the tool, a command
    returned is not empty, its timeout is not zero, and it belongs to a hook
    of type [command] listed for the event. *)
Theorem getMatchingCommands_narrowed_by_tool
    (RegExp_test : string → string → Res bool) (config : HooksConfig)
    (event : HookEventName) (toolName : option string) :
  sublist (getMatchingCommands RegExp_test config event toolName)
          (getMatchingCommands RegExp_test config event None) ∧
  (∀ c, c ∈ getMatchingCommands RegExp_test config event toolName →
     command c ≠ EmptyString ∧ timeout c ≠ 0 ∧
     ∃ ms entry hook,
       config event = Some ms ∧ entry ∈ ms ∧ hook ∈ hooks entry ∧
       hook_type hook = "command" ∧ hook_command hook = Some (command c)).
Proof.
  rewrite !getMatchingCommands_unfold. split.
  - generalize (default [] (config event)). intros ms.
    induction ms as [|e ms IH]; cbn [foldl]; [done|].
    replace (negb (shouldMatch RegExp_test None e)) with false by done.
    rewrite (matching_loop_app RegExp_test None).
    destruct (negb (shouldMatch RegExp_test toolName e)).
    + by apply sublist_inserts_l.
    + rewrite (matching_loop_app RegExp_test toolName). by apply sublist_app.
  - intros c Hc. apply matching_loop_elem in Hc as (entry & Hentry & Hc).
    apply push_hooks_elem in Hc as (? & ? & hook & ? & ? & ?).
    split; [done|]. split; [done|].
    destruct (config event) as [ms|] eqn:Hcfg; [|by apply elem_of_nil in Hentry].
    by exists ms, entry, hook.
Qed.

(** The commands started by the loop of [tool.execute.before] when no
    synchronous command ends with exit code 2. *)
Lemma before_loop_not_blocked (JSON_parse : string → Res json)
    (run : Command → ExecResult) (commands : list Command) :
  (∀ c, c ∈ commands → isAsync c = true ∨ exitCode (run c) ≠ 2) →
  ∀ input, ∃ merged,
    before_loop JSON_parse run commands input = (Ok merged, command <$> commands) ∧
    tool merged = tool input ∧
    (∀ k, is_Some (own_props (args input) !! k) →
          is_Some (own_props (args merged) !! k)) ∧
    ((∀ c, c ∈ commands → isAsync c = true ∨ exitCode (run c) ≠ 0) →
     merged = input).
Proof.
  induction commands as [|cmd rest IH]; intros Hok input.
  { exists input. by repeat split. }
  assert (∀ c, c ∈ rest → isAsync c = true ∨ exitCode (run c) ≠ 2) as Hrest
    by (intros c Hc; apply Hok; by right).
  cbn [before_loop fmap list_fmap].
  destruct (isAsync cmd) eqn:Hasync.
  - destruct (IH Hrest input) as (merged & -> & ? & ? & Hsame).
    exists merged. cbn [fst snd]. repeat split; try done.
    intros Hfail. apply Hsame. intros c Hc. apply Hfail. by right.
  - destruct (Hok cmd) as [?|Hexit]; [by left|congruence|].
    destruct (blocked (parseResponse JSON_parse (run cmd) PreToolUse)) eqn:Hb.
    { by apply parseResponse_blocked_iff in Hb. }
    destruct (option_truthy (updatedInput (parseResponse JSON_parse (run cmd) PreToolUse)))
      eqn:Hupd.
    + match goal with |- context [before_loop _ _ rest ?i] =>
        destruct (IH Hrest i) as (merged & -> & Htool & Hkeys & Hsame) end.
      exists merged. cbn [fst snd tool args own_props] in *.
      split; [done|]. split; [done|]. split.
      * intros k Hk. apply Hkeys. apply lookup_union_is_Some. by right.
      * intros Hfail. exfalso.
        destruct (Hfail cmd) as [?|H0]; [by left|congruence|].
        destruct (parseResponse_not_2 JSON_parse (run cmd) PreToolUse Hexit)
          as [Hnb|(? & _)]; [|done].
        by rewrite Hnb in Hupd.
    + destruct (IH Hrest input) as (merged & -> & ? & ? & Hsame).
      exists merged. cbn [fst snd]. repeat split; try done.
      intros Hfail. apply Hsame. intros c Hc. apply Hfail. by right.
Qed.

(** The loop of [tool.execute.before] stops at the first synchronous
    command that ends with exit code 2. *)
Lemma before_loop_blocked (JSON_parse : string → Res json)
    (run : Command → ExecResult) (pre : list Command) (cmd : Command)
    (post : list Command) :
  (∀ c, c ∈ pre → isAsync c = true ∨ exitCode (run c) ≠ 2) →
  isAsync cmd = false → exitCode (run cmd) = 2 →
  ∀ input, ∃ reason,
    before_loop JSON_parse run (pre ++ cmd :: post) input
    = (Throw reason, command <$> (pre ++ [cmd])%list) ∧
    reason ≠ EmptyString.
Proof.
  intros Hpre Hsync Hexit.
  induction pre as [|c pre IH]; intros input.
  - cbn [app before_loop fmap list_fmap]. rewrite Hsync.
    rewrite (proj2 (parseResponse_blocked_iff JSON_parse (run cmd) PreToolUse) Hexit).
    destruct (parseResponse_reason_nonempty JSON_parse (run cmd) PreToolUse Hexit)
      as (s & -> & Hs).
    exists s. split; [|done]. by destruct s.
  - assert (∀ c', c' ∈ pre → isAsync c' = true ∨ exitCode (run c') ≠ 2) as Hpre'
      by (intros c' Hc'; apply Hpre; by right).
    change ((c :: pre) ++ cmd :: post)%list with (c :: (pre ++ cmd :: post))%list.
    cbn [before_loop]. rewrite <- app_comm_cons, fmap_cons.
    destruct (isAsync c) eqn:Hasync.
    + destruct (IH Hpre' input) as (reason & -> & ?). by exists reason.
    + destruct (Hpre c) as [?|Hc]; [by left|congruence|].
      destruct (blocked (parseResponse JSON_parse (run c) PreToolUse)) eqn:Hb.
      { by apply parseResponse_blocked_iff in Hb. }
      match goal with |- context [before_loop _ _ _ ?i] =>
        destruct (IH Hpre' i) as (reason & -> & ?) end.
      by exists reason.
Qed.

(** X26.  [tool.execute.before] blocks the tool exactly as the first synchronous
    command that ends with exit code 2 says: it throws with a reason that is
    not empty, and the commands listed after that one are not started. *)
Theorem before_blocks_at_first_exit_2
    (RegExp_test : string → string → Res bool) (JSON_parse : string → Res json)
    (config : HooksConfig) (run : Command → ExecResult) (input : ToolInput)
    (pre : list Command) (cmd : Command) (post : list Command) :
  getMatchingCommands RegExp_test config PreToolUse (Some (tool input))
  = (pre ++ cmd :: post)%list →
  (∀ c, c ∈ pre → isAsync c = true ∨ exitCode (run c) ≠ 2) →
  isAsync cmd = false → exitCode (run cmd) = 2 →
  ∃ reason,
    before RegExp_test JSON_parse config run input
    = (Throw reason, command <$> (pre ++ [cmd])%list) ∧
    reason ≠ EmptyString.
Proof.
  intros Hcmds Hpre Hsync Hexit. unfold before. rewrite Hcmds.
  destruct (before_loop_blocked JSON_parse run pre cmd post Hpre Hsync Hexit input)
    as (reason & Hloop & ?).
  exists reason. split; [|done]. rewrite <- Hloop. by destruct pre.
Qed.

Lemma before_blocks_at_first_exit_2_witness :
  ∃ reason,
    before sample_regexp no_json sample_hooks refusing
      {| tool := "bash"; args := JObj {[ "command" := JStr "rm -rf /" ]} |}
    = (Throw reason,
       command <$> ([] ++ [{| command := "guard.sh"; timeout := 5000;
                              isAsync := false |}])%list) ∧
    reason ≠ EmptyString.
Proof.
  apply (before_blocks_at_first_exit_2 sample_regexp no_json sample_hooks refusing
           {| tool := "bash"; args := JObj {[ "command" := JStr "rm -rf /" ]} |}
           [] {| command := "guard.sh"; timeout := 5000; isAsync := false |}
           [{| command := "log.sh"; timeout := 60000; isAsync := true |}]).
  - vm_compute. reflexivity.
  - by intros c ?%elem_of_nil.
  - reflexivity.
  - reflexivity.
Defined.

(** X27.  When no synchronous command ends with exit code 2,
    [tool.execute.before] lets the tool run: every command is started once,
    in order, the tool name is kept, no key of the arguments is lost, and
    when every synchronous command failed the input comes back as it
    was. *)
Theorem before_lets_through
    (RegExp_test : string → string → Res bool) (JSON_parse : string → Res json)
    (config : HooksConfig) (run : Command → ExecResult) (input : ToolInput) :
  (∀ c, c ∈ getMatchingCommands RegExp_test config PreToolUse (Some (tool input)) →
        isAsync c = true ∨ exitCode (run c) ≠ 2) →
  ∃ merged,
    before RegExp_test JSON_parse config run input
    = (Ok merged,
       command <$> getMatchingCommands RegExp_test config PreToolUse
                     (Some (tool input))) ∧
    tool merged = tool input ∧
    (∀ k, is_Some (own_props (args input) !! k) →
          is_Some (own_props (args merged) !! k)) ∧
    ((∀ c, c ∈ getMatchingCommands RegExp_test config PreToolUse (Some (tool input)) →
           isAsync c = true ∨ exitCode (run c) ≠ 0) →
     merged = input).
Proof.
  intros Hok. unfold before.
  destruct (before_loop_not_blocked JSON_parse run _ Hok input)
    as (merged & Hloop & ? & ? & ?).
  exists merged. split; [|done].
  by destruct (getMatchingCommands RegExp_test config PreToolUse (Some (tool input))).
Qed.

Lemma before_lets_through_witness :
  ∃ merged,
    before sample_regexp no_json sample_hooks failing
      {| tool := "bash"; args := JObj {[ "command" := JStr "ls" ]} |}
    = (Ok merged,
       command <$> getMatchingCommands sample_regexp sample_hooks PreToolUse
                     (Some (tool {| tool := "bash";
                                    args := JObj {[ "command" := JStr "ls" ]} |}))) ∧
    tool merged = tool {| tool := "bash"; args := JObj {[ "command" := JStr "ls" ]} |} ∧
    (∀ k, is_Some (own_props (args {| tool := "bash";
                                      args := JObj {[ "command" := JStr "ls" ]} |}) !! k) →
          is_Some (own_props (args merged) !! k)) ∧
    ((∀ c, c ∈ getMatchingCommands sample_regexp sample_hooks PreToolUse
                 (Some (tool {| tool := "bash";
                                args := JObj {[ "command" := JStr "ls" ]} |})) →
           isAsync c = true ∨ exitCode (failing c) ≠ 0) →
     merged = {| tool := "bash"; args := JObj {[ "command" := JStr "ls" ]} |}).
Proof.
  apply (before_lets_through sample_regexp no_json sample_hooks failing
           {| tool := "bash"; args := JObj {[ "command" := JStr "ls" ]} |}).
  intros c _. right. discriminate.
Defined.

(** The loop of [permission.ask] over commands that decide nothing. *)
Lemma ask_loop_undecided (JSON_parse : string → Res json)
    (run : Command → ExecResult) (commands : list Command) :
  (∀ c, c ∈ commands → isAsync c = true ∨ exitCode (run c) ≠ 0) →
  ask_loop JSON_parse run commands = (None, command <$> commands).
Proof.
  induction commands as [|cmd rest IH]; intros Hfail; [done|].
  cbn [ask_loop fmap list_fmap].
  rewrite IH by (intros c Hc; apply Hfail; by right). cbn [fst snd].
  destruct (isAsync cmd) eqn:Hasync; [done|].
  destruct (Hfail cmd) as [?|H0]; [by left|congruence|].
  assert (permissionDecision (parseResponse JSON_parse (run cmd) PermissionRequest)
          = None) as ->; [|done].
  destruct (decide (exitCode (run cmd) = 2)) as [H2|H2].
  - unfold parseResponse. by rewrite H2.
  - by destruct (parseResponse_not_2 JSON_parse (run cmd) PermissionRequest H2)
      as [->|(? & _)].
Qed.

(** X28.  A hook cannot settle a permission by failing: when every synchronous
    command ends with a non-zero exit code, exit code 2 included,
    [permission.ask] starts them all and returns the input undecided. *)
Theorem ask_undecided_by_failures
    (RegExp_test : string → string → Res bool) (JSON_parse : string → Res json)
    (config : HooksConfig) (run : Command → ExecResult) (input : ToolInput) :
  (∀ c, c ∈ getMatchingCommands RegExp_test config PermissionRequest
              (Some (tool input)) →
        isAsync c = true ∨ exitCode (run c) ≠ 0) →
  ask RegExp_test JSON_parse config run input
  = (None, command <$> getMatchingCommands RegExp_test config PermissionRequest
                         (Some (tool input))).
Proof.
  intros Hfail. unfold ask.
  rewrite <- (ask_loop_undecided JSON_parse run _ Hfail).
  by destruct (getMatchingCommands RegExp_test config PermissionRequest
                 (Some (tool input))).
Qed.

Lemma ask_undecided_by_failures_witness :
  ask sample_regexp no_json sample_hooks refusing
    {| tool := "bash"; args := JObj ∅ |}
  = (None, command <$> getMatchingCommands sample_regexp sample_hooks
                         PermissionRequest
                         (Some (tool {| tool := "bash"; args := JObj ∅ |}))).
Proof.
  apply (ask_undecided_by_failures sample_regexp no_json sample_hooks refusing
           {| tool := "bash"; args := JObj ∅ |}).
  intros c Hc. right.
  assert (c = {| command := "guard.sh"; timeout := 60000; isAsync := false |}) as ->.
  { change (getMatchingCommands sample_regexp sample_hooks PermissionRequest
              (Some (tool {| tool := "bash"; args := JObj ∅ |})))
      with [{| command := "guard.sh"; timeout := 60000; isAsync := false |}] in Hc.
    by apply list_elem_of_singleton in Hc. }
  discriminate.
Defined.

End ShellHooksFacts.

(** ** The fallback of [getModelConfig] *)
Module ModelConfigsFacts.
Import JS JSString JSStringFacts ModelConfigs.

(** A split has at least one piece. *)
Lemma split_nonempty (sep : ascii) (s : string) : split sep s ≠ [].
Proof.
  destruct s as [|a s]; cbn [split]; [done|].
  destruct (Ascii.eqb a sep); [done|]. by destruct (split sep s).
Qed.

Lemma join_cons_cons (sep x y : string) (l : list string) :
  join sep (x :: y :: l) = x +:+ sep +:+ join sep (y :: l).
Proof. done. Qed.

Lemma join_String (sep : string) (a : ascii) (p : string) (ps : list string) :
  join sep (String a p :: ps) = String a (join sep (p :: ps)).
Proof. by destruct ps. Qed.

(** Joining the pieces of a split gives the string back. *)
Lemma join_split (sep : ascii) (s : string) :
  join (String sep EmptyString) (split sep s) = s.
Proof.
  induction s as [|a s IH]; [done|]. cbn [split].
  destruct (Ascii.eqb_spec a sep) as [->|Hne].
  - destruct (split sep s) as [|p ps] eqn:Hs; [by apply split_nonempty in Hs|].
    rewrite join_cons_cons, IH. done.
  - destruct (split sep s) as [|p ps] eqn:Hs; [by apply split_nonempty in Hs|].
    by rewrite join_String, IH.
Qed.

Lemma startsWith_refl (s : string) : startsWith s s = true.
Proof. induction s as [|a s IH]; [done|]. cbn [startsWith]. by rewrite Ascii.eqb_refl. Qed.

Lemma startsWith_app_both (p a b : string) :
  startsWith (p +:+ a) (p +:+ b) = startsWith a b.
Proof.
  induction p as [|c p IH]; [done|].
  change (startsWith (String c (p +:+ a)) (String c (p +:+ b)) = startsWith a b).
  cbn [startsWith]. by rewrite Ascii.eqb_refl, IH.
Qed.

Lemma startsWith_nil (s : string) : startsWith s EmptyString = true.
Proof. by destruct s. Qed.

(** The first pieces of a list, joined, start the whole list joined. *)
Lemma startsWith_join_take (sep : string) (n : nat) (l : list string) :
  startsWith (join sep l) (join sep (take n l)) = true.
Proof.
  revert n. induction l as [|x l IH]; intros [|n]; cbn [take];
    try apply startsWith_nil.
  destruct l as [|y l]; [rewrite take_nil; apply startsWith_refl|].
  destruct n as [|n].
  - cbn [take]. rewrite join_cons_cons. apply startsWith_app.
  - change (take (S n) (y :: l)) with (y :: take n l).
    rewrite !join_cons_cons, !startsWith_app_both.
    apply (IH (S n)).
Qed.

(** The first two pieces of a split, joined, are empty for the empty string
    only. *)
Lemma two_segments_empty (s : string) :
  join "-" (take 2 (split "-" s)) = EmptyString ↔ s = EmptyString.
Proof.
  split; [|by intros ->].
  destruct s as [|a s]; [done|]. cbn [split].
  destruct (Ascii.eqb a "-").
  - destruct (split "-" s) as [|p ps] eqn:Hs; [by apply split_nonempty in Hs|].
    cbn [take]. by rewrite join_cons_cons.
  - destruct (split "-" s) as [|p ps] eqn:Hs; [by apply split_nonempty in Hs|].
    destruct ps; cbn [take]; by rewrite join_String.
Qed.

(** The family defaults selected for a model id, by the prefix it starts
    with. *)
Lemma familyDefaults_of_family (modelId : string) :
  fd_family (familyDefaults_of modelId)
  = (if startsWith modelId "claude" then Some "claude-4"
     else if startsWith modelId "gemini" then Some "gemini-2"
     else if startsWith modelId "gpt" then Some "gpt-5"
     else if startsWith modelId "qwen" then Some "qwen3"
     else None).
Proof.
  unfold familyDefaults_of, MODEL_FAMILY_DEFAULTS. cbn [list_find fst].
  destruct (startsWith modelId "claude"), (startsWith modelId "gemini"),
    (startsWith modelId "gpt"), (startsWith modelId "qwen"); reflexivity.
Qed.

(** X29.  For a model id that is not in the table, [getModelConfig] builds a
    configuration under that id; its family is the default of the known
    prefix the id starts with ([claude], [gemini], [gpt], [qwen]) and
    otherwise the first two dash-separated segments of the id, which start
    the id; the family is empty for the empty id only, so the last
    alternative of the source, the id itself, never changes the result. *)
Theorem getModelConfig_fallback_family {Price : Type} (zero : Price)
    (table : gmap string (@OpenCodeModelConfig Price)) (today modelId : string) :
  table !! modelId = None →
  modelId ∉ Object_prototype_keys →
  ∃ cfg,
    getModelConfig zero table today modelId = Some cfg ∧
    id cfg = modelId ∧ name cfg = modelId ∧ displayName cfg = Some modelId ∧
    family cfg
    = (if startsWith modelId "claude" then "claude-4"
       else if startsWith modelId "gemini" then "gemini-2"
       else if startsWith modelId "gpt" then "gpt-5"
       else if startsWith modelId "qwen" then "qwen3"
       else join "-" (take 2 (split "-" modelId))) ∧
    (family cfg = EmptyString ↔ modelId = EmptyString) ∧
    (fd_family (familyDefaults_of modelId) = None →
     startsWith modelId (family cfg) = true).
Proof.
  intros Htable Hown. unfold getModelConfig.
  rewrite Htable, bool_decide_eq_false_2 by done.
  eexists. split; [done|]. cbn [id name displayName family].
  split; [done|]. split; [done|]. split; [done|].
  assert (∀ s, truthy_str (Some s) = false → s = EmptyString) as Hempty
    by (by intros []).
  assert (family_of (familyDefaults_of modelId) modelId
          = (if startsWith modelId "claude" then "claude-4"
             else if startsWith modelId "gemini" then "gemini-2"
             else if startsWith modelId "gpt" then "gpt-5"
             else if startsWith modelId "qwen" then "qwen3"
             else join "-" (take 2 (split "-" modelId)))) as Hfamily.
  { unfold family_of. rewrite familyDefaults_of_family.
    destruct (startsWith modelId "claude"); [done|].
    destruct (startsWith modelId "gemini"); [done|].
    destruct (startsWith modelId "gpt"); [done|].
    destruct (startsWith modelId "qwen"); [done|].
    change (truthy_str None) with false. cbv iota zeta.
    destruct (truthy_str (Some (join "-" (take 2 (split "-" modelId))))) eqn:Ht;
      [done|].
    apply Hempty in Ht. rewrite Ht.
    exact (proj1 (two_segments_empty modelId) Ht). }
  split; [exact Hfamily|]. split.
  - rewrite Hfamily. split.
    + destruct (startsWith modelId "claude"); [done|].
      destruct (startsWith modelId "gemini"); [done|].
      destruct (startsWith modelId "gpt"); [done|].
      destruct (startsWith modelId "qwen"); [done|].
      apply two_segments_empty.
    + by intros ->.
  - rewrite Hfamily, familyDefaults_of_family.
    destruct (startsWith modelId "claude"); [done|].
    destruct (startsWith modelId "gemini"); [done|].
    destruct (startsWith modelId "gpt"); [done|].
    destruct (startsWith modelId "qwen"); [done|].
    intros _.
    rewrite <- (join_split "-" modelId) at 1.
    apply startsWith_join_take.
Qed.

Lemma getModelConfig_fallback_family_witness :
  ∃ cfg : @OpenCodeModelConfig Z,
    getModelConfig 0 ∅ "2026-01-15" "mistral-large-2411" = Some cfg ∧
    id cfg = "mistral-large-2411" ∧ name cfg = "mistral-large-2411" ∧
    displayName cfg = Some "mistral-large-2411" ∧
    family cfg
    = (if startsWith "mistral-large-2411" "claude" then "claude-4"
       else if startsWith "mistral-large-2411" "gemini" then "gemini-2"
       else if startsWith "mistral-large-2411" "gpt" then "gpt-5"
       else if startsWith "mistral-large-2411" "qwen" then "qwen3"
       else join "-" (take 2 (split "-" "mistral-large-2411"))) ∧
    (family cfg = EmptyString ↔ "mistral-large-2411" = EmptyString) ∧
    (fd_family (familyDefaults_of "mistral-large-2411") = None →
     startsWith "mistral-large-2411" (family cfg) = true).
Proof.
  apply (getModelConfig_fallback_family 0 ∅ "2026-01-15" "mistral-large-2411").
  - reflexivity.
  - unfold Object_prototype_keys. intros Hin.
    repeat (apply elem_of_cons in Hin as [Hin|Hin]; [discriminate Hin|]).
    by apply elem_of_nil in Hin.
Defined.

End ModelConfigsFacts.
